(** * Neural Monkey: recurrent encoder, sequence regressor, REINFORCE
      objective and numpy readers

    A shallow embedding of four files of the toolkit and the proofs of
    what their specification says of them:
    - [neuralmonkey/encoders/recurrent.py]: the validation done when a
      [RecurrentEncoder] is constructed (module [Recurrent]);
    - [neuralmonkey/decoders/sequence_regressor.py]: the constructor and
      [feed_dict] of [SequenceRegressor] (module [Regressor]);
    - [neuralmonkey/trainers/rl_trainer.py]: [ReinforceObjective.loss]
      (modules [Dual], [Tf] and [RlTrainer]);
    - [neuralmonkey/readers/numpy_reader.py]: [single_tensor] and
      [from_file_list] (module [NumpyReader]).

    Conventions.  A Python [int] is a [Z], a [str] a [string] whose
    characters stand for the code points below 256, a [dict] with things
    to look up a [gmap].  The dropout keep probability, a Python [float]
    that the code only compares, is an IEEE binary64 [float] with the
    comparisons of the machine.  The entries of tensors are real numbers:
    the rounding of float32 arithmetic on them is left out.  The two
    variables of the running baseline, which add up over the training
    steps, hold [float32] numbers, and what is stored in them is rounded
    (module [Float32]).  In
    the training objective, where the gradient matters, an entry is a
    dual number, a value with its derivative along a direction of the
    parameters.  A tensor is a list (of lists) of entries; the theorems
    assume the shapes that TensorFlow guarantees.  Code that can raise
    returns a [result].

    The definitions come first, file by file; the proofs follow. *)

From Stdlib Require Import ZArith List String Ascii Bool Reals Lra Lia.
From Stdlib Require Import Floats DecimalString.
From stdpp Require Import base gmap strings.
Import ListNotations.

Open Scope string_scope.

(* ------------------------------------------------------------------ *)
(** ** Exceptions and the error monad                                   *)
(* ------------------------------------------------------------------ *)

(** The exceptions the modelled code raises, the built-in ones with the
    payload the source gives them.  [UnicodeDecodeError] is its own
    constructor although its class derives from [ValueError]: no modelled
    code catches exceptions, and the claims tell the errors apart.
    [LibraryError] stands for another error raised inside TensorFlow or
    numpy, whose class and text belong to the library; [what] only says
    which check failed. *)
Inductive exn : Type :=
| ValueError (msg : string)
| UnicodeDecodeError
| IndexError
| KeyError (key : string)
| FileNotFoundError (path : string)
| LibraryError (what : string).

Inductive result (A : Type) : Type :=
| Ok (a : A)
| Raise (e : exn).
Arguments Ok {A} a.
Arguments Raise {A} e.

(** [result] is a monad in stdpp's sense, which gives the notation
    [x ← m; k] for running [m] and, unless it raised, continuing with [k]. *)
#[global] Instance result_ret : MRet result := fun A a => Ok a.
#[global] Instance result_bind : MBind result := fun A B k m =>
  match m with
  | Ok a => k a
  | Raise e => Raise e
  end.

Definition is_ok {A : Type} (m : result A) : bool :=
  match m with Ok _ => true | Raise _ => false end.

(** The sum of a list of reals, and the sum of [f 0], ..., [f (n - 1)]. *)
Definition Rsum (v : list R) : R := fold_right Rplus 0%R v.

Definition Rsum_upto (n : nat) (f : nat -> R) : R := Rsum (map f (seq 0 n)).

(** A matrix of [rows] rows and [cols] columns, as a list of rows. *)
Definition has_shape {A : Type} (rows cols : nat) (m : list (list A)) : Prop :=
  length m = rows /\ Forall (fun row => length row = cols) m.

(** Python's [str(n)] for an [int]. *)
Definition str_of_int (n : Z) : string :=
  NilZero.string_of_int (Z.to_int n).

(** [sep.join(parts)]. *)
Fixpoint join (sep : string) (parts : list string) : string :=
  match parts with
  | [] => ""
  | [p] => p
  | p :: rest => p ++ sep ++ join sep rest
  end.

(** [str(l)] for a list of [int]: ["[2, 3]"]. *)
Definition str_of_int_list (l : list Z) : string :=
  "[" ++ join ", " (map str_of_int l) ++ "]".

(** [repr(s)] for a [str] without quotes or escapes: ['forward']. *)
Definition repr_str (s : string) : string := "'" ++ s ++ "'".

(** [str(l)] for a list of [str]. *)
Definition str_of_str_list (l : list string) : string :=
  "[" ++ join ", " (map repr_str l) ++ "]".

(** [s.startswith(p)]. *)
Definition startswith (p s : string) : bool := String.prefix p s.

(* ------------------------------------------------------------------ *)
(** ** encoders/recurrent.py                                            *)
(* ------------------------------------------------------------------ *)

Module Recurrent.

(** The three cell classes that [RNN_CELL_TYPES] maps to. *)
Inductive rnn_cell_class : Type :=
| NematusGRUCell
| OrthoGRUCell
| LSTMCell.

(** [RNN_CELL_TYPES], a dict, as its items in insertion order. *)
Definition RNN_CELL_TYPES : list (string * rnn_cell_class) :=
  [("NematusGRU", NematusGRUCell); ("GRU", OrthoGRUCell); ("LSTM", LSTMCell)].

Definition RNN_DIRECTIONS : list string := ["forward"; "backward"; "both"].

(** [x in l] for a list of [str]. *)
Definition in_list (x : string) (l : list string) : bool :=
  existsb (String.eqb x) l.

(** [k in d] for a dict with [str] keys. *)
Definition in_dict {V : Type} (k : string) (d : list (string * V)) : bool :=
  existsb (fun kv => String.eqb k (fst kv)) d.

Record RNNSpec : Type := mkRNNSpec {
  size : Z;
  direction : string;
  cell_type : string
}.

Section WithClassRepr.

(** [repr] of a cell class ([<class '...'>]); the classes live outside the
    modelled files, so their printed names are a parameter. *)
Variable class_repr : rnn_cell_class -> string.

(** [str(d)] of the dict [RNN_CELL_TYPES]. *)
Definition str_of_cell_types (d : list (string * rnn_cell_class)) : string :=
  "{" ++ join ", " (map (fun kv => repr_str (fst kv) ++ ": " ++ class_repr (snd kv)) d)
      ++ "}".

Definition _make_rnn_spec (size : Z) (direction cell_type : string)
  : result RNNSpec :=
  if (size <=? 0)%Z then
    Raise (ValueError ("RNN size must be a positive integer. "
                         ++ str_of_int size ++ " given."))
  else if negb (in_list direction RNN_DIRECTIONS) then
    Raise (ValueError ("RNN direction must be one of "
                         ++ str_of_str_list RNN_DIRECTIONS ++ ". "
                         ++ direction ++ " given."))
  else if negb (in_dict cell_type RNN_CELL_TYPES) then
    Raise (ValueError ("RNN cell type must be one of "
                         ++ str_of_cell_types RNN_CELL_TYPES ++ ". "
                         ++ cell_type ++ " given."))
  else Ok (mkRNNSpec size direction cell_type).

(** The attributes [RecurrentEncoder.__init__] sets; [I] is the type of
    the upstream temporal input. *)
Record RecurrentEncoder (I : Type) : Type := mkRecurrentEncoder {
  name : string;
  input_sequence : I;
  dropout_keep_prob : float;
  rnn_spec : RNNSpec
}.

(** [RecurrentEncoder.__init__]: the spec is made first, the dropout
    keep probability is tested after it, with the float comparisons
    [<= 0.0] and [> 1.0]. *)
Definition RecurrentEncoder_init {I : Type} (name : string) (input_sequence : I)
    (rnn_size : Z) (rnn_cell rnn_direction : string)
    (dropout_keep_prob : float) : result (RecurrentEncoder I) :=
  spec ← _make_rnn_spec rnn_size rnn_direction rnn_cell;
  if (PrimFloat.leb dropout_keep_prob 0%float
      || PrimFloat.ltb 1%float dropout_keep_prob)%bool
  then Raise (ValueError "Dropout keep prob must be inside (0,1].")
  else Ok (mkRecurrentEncoder I name input_sequence dropout_keep_prob spec).

End WithClassRepr.

(** Membership of a keep probability in (0, 1]: [0 < p] and [p <= 1]. *)
Definition in_unit_interval (p : float) : bool :=
  (PrimFloat.ltb 0%float p && PrimFloat.leb p 1%float)%bool.

Definition is_nan (p : float) : bool := negb (PrimFloat.eqb p p).

End Recurrent.


(* ------------------------------------------------------------------ *)
(** ** Tensor entries with a gradient: dual numbers                     *)
(* ------------------------------------------------------------------ *)

(** A scalar of the differentiable graph is its value together with its
    derivative along one direction of the trainable parameters (its
    tangent).  [stop_gradient] keeps the value and forgets the tangent. *)
Module Dual.
#[local] Open Scope R_scope.

Record dual : Type := mkDual { val : R; tan : R }.

Definition const (x : R) : dual := mkDual x 0.
Definition dadd (a b : dual) : dual := mkDual (val a + val b) (tan a + tan b).
Definition dneg (a : dual) : dual := mkDual (- val a) (- tan a).
Definition dsub (a b : dual) : dual := mkDual (val a - val b) (tan a - tan b).
Definition dmul (a b : dual) : dual :=
  mkDual (val a * val b) (tan a * val b + val a * tan b).
Definition ddiv (a b : dual) : dual :=
  mkDual (val a / val b)
         ((tan a * val b - val a * tan b) / (val b * val b)).
Definition dexp (a : dual) : dual := mkDual (exp (val a)) (tan a * exp (val a)).
Definition dln (a : dual) : dual := mkDual (ln (val a)) (tan a / val a).
Definition stop_gradient (a : dual) : dual := const (val a).

(** The sum of a list of scalars, first entry outermost. *)
Definition dsum (v : list dual) : dual := fold_right dadd (const 0) v.

(** The sum of [f 0], ..., [f (n - 1)]. *)
Definition dsum_upto (n : nat) (f : nat -> dual) : dual := dsum (map f (seq 0 n)).

(** The entry of a matrix in row [s] and column [b]. *)
Definition entry (m : list (list dual)) (s b : nat) : dual :=
  nth b (nth s m []) (const 0).

End Dual.

(* ------------------------------------------------------------------ *)
(** ** The TensorFlow operations the objective is built from            *)
(* ------------------------------------------------------------------ *)

(** A vector is a list, a matrix a list of rows, a rank-3 tensor a list
    of matrices.  Where TensorFlow knows a dimension that a list of rows
    cannot carry (the width of a matrix with no rows), the operation takes
    it as an argument. *)
Module Tf.
Import Dual.
#[local] Open Scope R_scope.

(** [tf.reduce_sum(m, axis=0)] of a matrix with [width] columns. *)
Definition reduce_sum_axis0 (width : nat) (m : list (list dual)) : list dual :=
  fold_right (zip_with dadd) (repeat (const 0) width) m.

(** [tf.reduce_sum(m)]: the sum of all entries. *)
Definition reduce_sum (m : list (list dual)) : dual := dsum (map dsum m).

(** [tf.reduce_mean(v)] of a vector. *)
Definition reduce_mean (v : list dual) : dual :=
  ddiv (dsum v) (const (INR (length v))).

Definition negative (m : list (list dual)) : list (list dual) :=
  map (map dneg) m.

Definition stop_gradient (m : list (list dual)) : list (list dual) :=
  map (map Dual.stop_gradient) m.

(** [a * b] for two matrices of one shape. *)
Definition multiply (a b : list (list dual)) : list (list dual) :=
  zip_with (zip_with dmul) a b.

(** [m * k] for a Python float [k]. *)
Definition scale (m : list (list dual)) (k : R) : list (list dual) :=
  map (map (fun x => dmul x (const k))) m.

(** [m - s] for a scalar tensor [s]. *)
Definition sub_scalar (m : list (list dual)) (s : dual) : list (list dual) :=
  map (map (fun x => dsub x s)) m.

(** [tf.nn.softmax(m, dim=0)]: every column is normalised. *)
Definition softmax_dim0 (width : nat) (m : list (list dual)) : list (list dual) :=
  let e := map (map dexp) m in
  let z := reduce_sum_axis0 width e in
  map (fun row => zip_with ddiv row z) e.

(** [tf.stack(l)]: the tensors of the list, one after the other along a
    new first axis; the empty list gives the empty tensor. *)
Definition stack {A : Type} (l : list A) : list A := l.

(** The cross-entropy of one position: [-log softmax(logits)[label]]. *)
Definition xent1 (label : Z) (logits : list dual) : dual :=
  dsub (dln (dsum (map dexp logits)))
       (nth (Z.to_nat label) logits (const 0)).

Definition label_ok (label : Z) (logits : list dual) : bool :=
  ((0 <=? label)%Z && (label <? Z.of_nat (length logits))%Z)%bool.

Definition all_true (l : list bool) : bool := forallb (fun b => b) l.

(** [tf.nn.sparse_softmax_cross_entropy_with_logits(labels, logits)] for
    labels of shape (time, batch) and logits of shape (time, batch,
    vocabulary); a label outside the vocabulary is refused. *)
Definition sparse_softmax_cross_entropy_with_logits
    (labels : list (list Z)) (logits : list (list (list dual)))
  : result (list (list dual)) :=
  if all_true (zip_with (fun ls lgs => all_true (zip_with label_ok ls lgs))
                        labels logits)
  then Ok (zip_with (zip_with xent1) labels logits)
  else Raise (LibraryError "label out of range").

End Tf.

(* ------------------------------------------------------------------ *)
(** ** trainers/rl_trainer.py                                           *)
(* ------------------------------------------------------------------ *)

(** [s.replace(old, new)] for a non-empty [old]: occurrences are replaced
    from the left and do not overlap; [skip] counts the characters of a
    matched occurrence that are still to be dropped. *)
Fixpoint replace_from (old new : string) (skip : nat) (s : string) : string :=
  match s with
  | EmptyString => EmptyString
  | String c s' =>
      match skip with
      | S k => replace_from old new k s'
      | O =>
          if String.prefix old s
          then new ++ replace_from old new (String.length old - 1) s'
          else String c (replace_from old new 0 s')
      end
  end.

Definition replace (old new s : string) : string := replace_from old new 0 s.

(** [s.split(sep)] for a separator of one character. *)
Fixpoint split (sep : ascii) (s : string) : list string :=
  match s with
  | EmptyString => [EmptyString]
  | String c s' =>
      if Ascii.eqb c sep then EmptyString :: split sep s'
      else match split sep s' with
           | w :: ws => String c w :: ws
           | [] => [String c EmptyString]
           end
  end.

(** [l[i]] for a Python list: a negative index counts from the end. *)
Definition py_index {A : Type} (l : list A) (i : Z) : result A :=
  let n := Z.of_nat (length l) in
  let j := if (i <? 0)%Z then (i + n)%Z else i in
  if ((0 <=? j)%Z && (j <? n)%Z)%bool
  then match nth_error l (Z.to_nat j) with
       | Some a => Ok a
       | None => Raise IndexError
       end
  else Raise IndexError.

(** [m.transpose()] of a numpy matrix with [width] columns. *)
Definition transpose {A : Type} (d : A) (width : nat) (m : list (list A))
  : list (list A) :=
  map (fun j => map (fun row => nth j row d) m) (seq 0 width).

(* ------------------------------------------------------------------ *)
(** ** The numbers of [float32]                                         *)
(* ------------------------------------------------------------------ *)

(** A [float32] number is a real of the form [m * 2 ^ e] for integers
    [|m| < 2 ^ 24] and [-149 <= e <= 104].  [round] is the rounding of
    IEEE 754 to the nearest such number, ties to the even [m].  Overflow
    is left out: a real beyond the largest [float32] is rounded on the
    grid of the last exponent. *)
Module Float32.
#[local] Open Scope R_scope.

Definition pow2 (e : Z) : R := powerRZ 2 e.

(** The integer nearest to [y], the even one of two that are as near. *)
Definition rne (y : R) : Z :=
  let n := Int_part y in
  let f := y - IZR n in
  if Rlt_dec f (1 / 2) then n
  else if Rlt_dec (1 / 2) f then (n + 1)%Z
  else if Z.even n then n else (n + 1)%Z.

(** The exponent of the last place of [x]: the least [e], from [e] on
    and at most [fuel] further, with [|x| < 2 ^ (e + 24)]. *)
Fixpoint exponent_from (fuel : nat) (e : Z) (x : R) : Z :=
  match fuel with
  | O => e
  | S fuel' =>
      if Rlt_dec (Rabs x) (pow2 (e + 24)) then e
      else exponent_from fuel' (e + 1) x
  end.

Definition exponent (x : R) : Z := exponent_from 253 (-149) x.

Definition round (x : R) : R :=
  IZR (rne (x * pow2 (- exponent x))) * pow2 (exponent x).

End Float32.

Module RlTrainer.
Import Dual.
#[local] Open Scope R_scope.

(** [LoopState.histories], the two fields the objective reads: logits of
    shape (time, batch, vocabulary), sampled symbols of shape (time, batch). *)
Record Histories : Type := mkHistories {
  logits : list (list (list dual));
  output_symbols : list (list Z)
}.

(** The decoder as the objective sees it while one batch is evaluated.
    [decoding_loop train_mode sample temperature k] is the result of the
    [k]-th call of the stochastic decoding loop; [train_inputs] is the
    reference, of shape (time, batch). *)
Record Decoder : Type := mkDecoder {
  batch_size : Z;
  train_inputs : list (list Z);
  index_to_word : list string;
  decoding_loop : bool -> bool -> R -> nat -> Histories;
  cost : dual
}.

(** The evaluator: hypotheses first, references second. *)
Definition RewardFunction : Type :=
  list (list string) -> list (list string) -> R.

Record ReinforceObjective : Type := mkReinforceObjective {
  reward_function : RewardFunction;
  subtract_baseline : bool;
  normalize : bool;
  temperature : R;
  ce_smoothing : R;
  alpha : R;
  sample_size : Z
}.

(** The two variables [reward_counter] and [reward_sum]; both start at 0
    and keep their value from one evaluation of the loss to the next.
    They are [float32] variables: what they hold is a [float32] number,
    and [tf.assign_add] stores the nearest one to what it computes. *)
Record Baseline : Type := mkBaseline {
  reward_counter : R;
  reward_sum : R
}.

Definition Baseline_initial : Baseline := mkBaseline 0 0.

(** The scalars written with [tf.summary.scalar]. *)
Record Summaries : Type := mkSummaries {
  rl_reward_baseline : option R;
  self_rl_cost : R
}.

Section Objective.

(** [END_TOKEN] and [PAD_TOKEN] of [neuralmonkey.vocabulary]. *)
Variables END_TOKEN PAD_TOKEN : string.

Variable self : ReinforceObjective.
Variable decoder : Decoder.

(** The inner loops of [_score_with_reward_function]: the words of a
    column up to the first end or padding token. *)
Fixpoint words_until_end (tokens : list Z) : result (list string) :=
  match tokens with
  | [] => Ok []
  | t :: rest =>
      token ← py_index (index_to_word decoder) t;
      if (String.eqb token END_TOKEN || String.eqb token PAD_TOKEN)%bool
      then Ok []
      else (seq ← words_until_end rest; Ok (token :: seq))
  end.

Definition bpe_tokens (words : list string) : list string :=
  split " "%char (replace "@@ " "" (join " " words)).

Definition _score_with_reward_function
    (references hypotheses : list (list Z)) : result (list R) :=
  let B := Z.to_nat (batch_size decoder) in
  mapM (fun rh : list Z * list Z =>
          ref_seq ← words_until_end (fst rh);
          hyp_seq ← words_until_end (snd rh);
          let refs_tokens := bpe_tokens ref_seq in
          let hyps_tokens := bpe_tokens hyp_seq in
          Ok (reward_function self [hyps_tokens] [refs_tokens]))
       (zip (transpose 0%Z B references) (transpose 0%Z B hypotheses)).

(** The body of the sampling loop, for the [k]-th sample: the rewards and
    the sentence log-probabilities, one entry per batch column.  The
    output of [tf.py_func] carries no gradient. *)
Definition sample (k : nat) : result (list dual * list dual) :=
  let reference := train_inputs decoder in
  let sample_loop_result := decoding_loop decoder false true (temperature self) k in
  let sample_logits := logits sample_loop_result in
  let sample_decoded := output_symbols sample_loop_result in
  sample_reward ← _score_with_reward_function reference sample_decoded;
  xent ← Tf.sparse_softmax_cross_entropy_with_logits sample_decoded sample_logits;
  let word_logprobs := Tf.negative xent in
  let sent_logprobs :=
    Tf.reduce_sum_axis0 (Z.to_nat (batch_size decoder)) word_logprobs in
  Ok (map const sample_reward, sent_logprobs).

(** The loop over [range(self.sample_size)] and the two [tf.stack]s. *)
Definition stacked_samples : result (list (list dual) * list (list dual)) :=
  samples ← mapM sample (seq 0 (Z.to_nat (sample_size self)));
  let samples_rewards_stacked := Tf.stack (map fst samples) in
  let samples_logprobs_stacked := Tf.stack (map snd samples) in
  Ok (samples_rewards_stacked, samples_logprobs_stacked).

(** The block under [if self.subtract_baseline]: both variables are
    incremented, the baseline is read from the incremented values and
    subtracted from every reward.  [tf.to_float] and the two
    [tf.assign_add] round to [float32]; the sum of the rewards and the
    division are taken over the reals, as the other arithmetic on
    tensors is. *)
Definition subtract_running_baseline (vars : Baseline)
    (samples_rewards_stacked : list (list dual))
  : list (list dual) * R * Baseline :=
  let reward_counter :=
    Float32.round
      (reward_counter vars
       + Float32.round (IZR (batch_size decoder * sample_size self))) in
  let reward_sum :=
    Float32.round
      (reward_sum vars + val (Tf.reduce_sum samples_rewards_stacked)) in
  let baseline := reward_sum / Rmax reward_counter 1 in
  (Tf.sub_scalar samples_rewards_stacked (const baseline),
   baseline,
   mkBaseline reward_counter reward_sum).

(** From the stacked samples to the batch loss. *)
Definition batch_loss (samples_rewards_stacked samples_logprobs_stacked
                       : list (list dual)) : dual :=
  let scored_probs :=
    Tf.multiply (Tf.stop_gradient (Tf.negative samples_rewards_stacked))
                samples_logprobs_stacked in
  let total_loss :=
    Tf.reduce_sum_axis0 (Z.to_nat (batch_size decoder)) scored_probs in
  let batch_loss := Tf.reduce_mean total_loss in
  if Rlt_dec 0 (ce_smoothing self)
  then dadd batch_loss (dmul (const (ce_smoothing self)) (cost decoder))
  else batch_loss.

(** [ReinforceObjective.loss], evaluated on one batch: the loss, the
    summaries and the variables after the evaluation. *)
Definition loss (vars : Baseline) : result (dual * Summaries * Baseline) :=
  '(samples_rewards_stacked, samples_logprobs_stacked) ← stacked_samples;
  let '(samples_rewards_stacked, baseline, vars) :=
    if subtract_baseline self
    then let '(r, b, v) := subtract_running_baseline vars samples_rewards_stacked
         in (r, Some b, v)
    else (samples_rewards_stacked, None, vars) in
  let samples_logprobs_stacked :=
    if normalize self
    then Tf.softmax_dim0 (Z.to_nat (batch_size decoder))
                         (Tf.scale samples_logprobs_stacked (alpha self))
    else samples_logprobs_stacked in
  let batch_loss := batch_loss samples_rewards_stacked samples_logprobs_stacked in
  Ok (batch_loss, mkSummaries baseline (val batch_loss), vars).

End Objective.

(** The histories of one call as the decoder promises them: logits of
    shape (time, batch, vocabulary) and symbols of shape (time, batch),
    with one time axis. *)
Definition histories_shaped (B : nat) (h : Histories) : Prop :=
  length (logits h) = length (output_symbols h)
  /\ Forall (fun row => length row = B) (logits h)
  /\ Forall (fun row => length row = B) (output_symbols h).

Definition decoder_shaped (self : ReinforceObjective) (decoder : Decoder) : Prop :=
  forall k, histories_shaped (Z.to_nat (batch_size decoder))
                             (decoding_loop decoder false true (temperature self) k).

(** Training steps one after the other: every step evaluates the loss
    once, on its own batch, and hands the variables to the next. *)
Fixpoint train (END_TOKEN PAD_TOKEN : string) (self : ReinforceObjective)
    (batches : list Decoder) (vars : Baseline)
  : result (list (dual * Summaries) * Baseline) :=
  match batches with
  | [] => Ok ([], vars)
  | decoder :: rest =>
      '(l, s, vars') ← loss END_TOKEN PAD_TOKEN self decoder vars;
      '(out, vars'') ← train END_TOKEN PAD_TOKEN self rest vars';
      Ok ((l, s) :: out, vars'')
  end.

(** Every reward of the batch is [c]: the stacked rewards are the
    (sample, batch) array of [c]s. *)
Definition constant_rewards (END_TOKEN PAD_TOKEN : string)
    (self : ReinforceObjective) (decoder : Decoder) (c : R) : Prop :=
  exists lp0,
    stacked_samples END_TOKEN PAD_TOKEN self decoder
    = Ok (repeat (repeat (const c) (Z.to_nat (batch_size decoder)))
                 (Z.to_nat (sample_size self)),
          lp0).

(** The baselines that a run of training steps has recorded. *)
Definition baselines (out : list (dual * Summaries)) : list (option R) :=
  map (fun ls => rl_reward_baseline (snd ls)) out.

(** The two variables after [n] steps from 0 on batches of one example
    with one sample of reward 3, in closed form.  The counter stops at
    [2 ^ 24], where adding 1 is rounded away.  The sum is exact up to
    [2 ^ 24]; from there to [2 ^ 26] adding 3 is rounded to adding 4,
    after one step that adds 2; at [2 ^ 26] adding 3 is rounded away. *)
Definition threes_counter (n : Z) : Z := Z.min n 16777216.

Definition threes_sum (n : Z) : Z :=
  if (n <=? 5592405)%Z then (3 * n)%Z
  else if (n =? 5592406)%Z then 16777218%Z
  else if (n <=? 18175318)%Z then (16777220 + 4 * (n - 5592407))%Z
  else 67108864%Z.

(** *** A small objective, for examples

    A vocabulary of the end token and one word, a batch of one example
    and two positions of time.  The sampled sequence ends at its first
    position; all logits are 0, so every symbol has probability 1/2 at
    every position.  The evaluator gives every hypothesis the reward [c]. *)
Definition ex_histories : Histories :=
  mkHistories [[[const 0; const 0]]; [[const 0; const 0]]] [[0%Z]; [1%Z]].

Definition ex_decoder : Decoder :=
  mkDecoder 1 [[1%Z]; [0%Z]] ["</s>"; "a"] (fun _ _ _ _ => ex_histories) (const 1).

Definition ex_objective (c : R) : ReinforceObjective :=
  mkReinforceObjective (fun _ _ => c) true false 1 0 1 1.

(** The bandit objective: one sample, no baseline, no normalisation, no
    cross-entropy term. *)
Definition ex_bandit_objective (c : R) : ReinforceObjective :=
  mkReinforceObjective (fun _ _ => c) false false 1 0 1 1.

End RlTrainer.

(* ------------------------------------------------------------------ *)
(** ** decoders/sequence_regressor.py                                   *)
(* ------------------------------------------------------------------ *)

(** Python's [zip] with the rows unpacked as its arguments: the tuples of
    first, second, ... entries of the rows, up to the end of the shortest
    row.  [fuel] bounds the number of tuples;
    the length of any row is enough. *)
Fixpoint zip_star_upto {A : Type} (fuel : nat) (rows : list (list A))
  : list (list A) :=
  match fuel with
  | O => []
  | S fuel' =>
      match mapM head rows with
      | Some tuple => tuple :: zip_star_upto fuel' (map tail rows)
      | None => []
      end
  end.

Definition zip_star {A : Type} (rows : list (list A)) : list (list A) :=
  match rows with
  | [] => []
  | row :: _ => zip_star_upto (length row) rows
  end.

Module Regressor.
#[local] Open Scope R_scope.

(** Broadcasting of a binary operation over two vectors: equal lengths
    pair up, a vector of length one is repeated. *)
Definition broadcast_vec (f : R -> R -> R) (a b : list R) : result (list R) :=
  if (length a =? length b)%nat then Ok (zip_with f a b)
  else match a, b with
       | [x], _ => Ok (map (f x) b)
       | _, [y] => Ok (map (fun x => f x y) a)
       | _, _ => Raise (LibraryError "incompatible shapes")
       end.

(** The same over two matrices, for the rows and within the rows. *)
Definition broadcast_mat (f : R -> R -> R) (a b : list (list R))
  : result (list (list R)) :=
  if (length a =? length b)%nat
  then mapM (fun rows => broadcast_vec f (fst rows) (snd rows)) (zip a b)
  else match a, b with
       | [ra], _ => mapM (fun rb => broadcast_vec f ra rb) b
       | _, [rb] => mapM (fun ra => broadcast_vec f ra rb) a
       | _, _ => Raise (LibraryError "incompatible shapes")
       end.

Definition tf_subtract := broadcast_mat Rminus.

(** [tf.concat(ms, 1)] of matrices with equally many rows. *)
Definition tf_concat1 (ms : list (list (list R))) : result (list (list R)) :=
  match ms with
  | [] => Raise (LibraryError "concat of an empty list")
  | m :: rest =>
      if forallb (fun m' => (length m' =? length m)%nat) rest
      then Ok (fold_left (zip_with app) rest m)
      else Raise (LibraryError "incompatible shapes")
  end.

(** [tf.expand_dims(v, 1)]. *)
Definition expand_dims1 (v : list R) : list (list R) := map (fun x => [x]) v.

Definition tf_square (m : list (list R)) : list (list R) :=
  map (map (fun x => x * x)) m.

(** [tf.reduce_sum(m)]. *)
Definition tf_reduce_sum (m : list (list R)) : R := Rsum (map Rsum m).

(** [assert_shape(t, [-1, 1])]: every row has one entry. *)
Definition assert_shape_rows1 (m : list (list R)) : result unit :=
  if forallb (fun row => (length row =? 1)%nat) m then Ok tt
  else Raise (LibraryError "assert_shape").

(** An upstream encoder: its summary, one row per example of the batch. *)
Record Encoder : Type := mkEncoder { encoded : list (list R) }.

(** The two placeholders of the regressor. *)
Inductive placeholder : Type := gt_inputs | train_mode.

#[global] Instance placeholder_eq_dec : EqDecision placeholder.
Proof. solve_decision. Defined.

#[global] Instance placeholder_countable : Countable placeholder.
Proof.
  refine (inj_countable' (fun p => match p with gt_inputs => true | train_mode => false end)
                         (fun b : bool => if b then gt_inputs else train_mode) _).
  intros []; reflexivity.
Defined.

Section Regressor.

(** The two projections of [neuralmonkey.nn.projection], which the
    constructor calls: [multilayer_projection input layers activation
    train_mode dropout_keep_prob] and [linear input size]. *)
Variable multilayer_projection :
  list (list R) -> option (list Z) -> (R -> R) -> bool -> R -> list (list R).
Variable linear : list (list R) -> Z -> list (list R).

(** The two assignments to [mlp_input]: the concatenation is built, and
    may be refused, and then the name is bound to the difference. *)
Definition mlp_input_of (encoders : list Encoder) : result (list (list R)) :=
  mlp_input ← tf_concat1 (map encoded encoders);
  enc0 ← py_index encoders 0;
  enc1 ← py_index encoders 1;
  mlp_input ← tf_subtract (encoded enc0) (encoded enc1);
  Ok mlp_input.

(** What the constructor leaves behind.  The graph is evaluated with the
    placeholders fed, so [predicted] depends on the training-mode flag
    and [cost] also on the targets. *)
Record SequenceRegressor : Type := mkSequenceRegressor {
  name : string;
  encoders : list Encoder;
  data_id : string;
  layers : option (list Z);
  activation_fn : R -> R;
  dropout_keep_prob : R;
  max_output_len : Z;
  predicted : bool -> list (list R);
  cost : bool -> list R -> result R
}.

Definition SequenceRegressor_init (name : string) (encoders : list Encoder)
    (data_id : string) (layers : option (list Z)) (activation_fn : R -> R)
    (dropout_keep_prob : R) : result SequenceRegressor :=
  mlp_input ← mlp_input_of encoders;
  let mlp_logits := fun train_mode : bool =>
    linear (multilayer_projection mlp_input layers activation_fn train_mode
                                  dropout_keep_prob) 1 in
  _ ← assert_shape_rows1 (mlp_logits false);
  Ok (mkSequenceRegressor name encoders data_id layers activation_fn
        dropout_keep_prob 1
        mlp_logits
        (fun train_mode gt =>
           diff ← broadcast_mat Rminus (mlp_logits train_mode) (expand_dims1 gt);
           Ok (tf_reduce_sum (tf_square diff)))).

Definition train_loss (r : SequenceRegressor) := cost r.
Definition runtime_loss (r : SequenceRegressor) := cost r.
Definition decoded (r : SequenceRegressor) := predicted r.

End Regressor.

(** A value fed for a placeholder. *)
Inductive feed_value (A : Type) : Type :=
| FeedTuple (t : list A)
| FeedBool (b : bool).
Arguments FeedTuple {A} t.
Arguments FeedBool {A} b.

(** Modelled from the spec: the dataset is the collaborator that "exposes
    get_series(key, allow_none) to fetch a named column of examples,
    possibly absent"; with [allow_none] an absent column is [None]. *)
Definition get_series {A : Type} (dataset : gmap string (list (list A)))
    (key : string) : option (list (list A)) :=
  dataset !! key.

(** [SequenceRegressor.feed_dict]. *)
Definition feed_dict {A : Type} (data_id : string)
    (dataset : gmap string (list (list A))) (train : bool)
  : result (gmap placeholder (feed_value A)) :=
  let sentences := get_series dataset data_id in
  let sentences_list := sentences in
  let fd : gmap placeholder (feed_value A) := ∅ in
  fd ← match sentences_list with
       | Some sentences_list =>
           first ← py_index (zip_star sentences_list) 0;
           Ok (<[gt_inputs := FeedTuple first]> fd)
       | None => Ok fd
       end;
  Ok (<[train_mode := FeedBool train]> fd).

(** Modelled from the spec: the functions [multilayer_projection] and
    [linear] of [neuralmonkey.nn.projection] are not among the modelled
    files.  The spec has the regressor "pass it through a configurable
    multilayer perceptron (hidden layer sizes given as an ordered list;
    nonlinearity and dropout configurable; dropout gated by a
    training-mode flag), then linearly project to a single scalar per
    example".  A layer is affine: a unit has a weight for every input and
    a bias (zero biases give the layer without one). *)
Record DenseLayer : Type := mkDenseLayer {
  weights : list (list R);
  biases : list R
}.

Definition dot (x w : list R) : R := Rsum (zip_with Rmult x w).

Definition dense (l : DenseLayer) (x : list R) : list R :=
  zip_with (fun w b => dot x w + b) (weights l) (biases l).

(** Modelled from the spec: dropout "gated by a training-mode flag".  In
    training mode a unit is kept, divided by the keep probability, or set
    to zero, as the drawn [mask] says; otherwise nothing changes. *)
Definition dropout (keep_prob : R) (train_mode : bool) (mask : nat -> bool)
    (x : list R) : list R :=
  if train_mode
  then imap (fun j v => if mask j then v / keep_prob else 0) x
  else x.

(** Modelled from the spec: the perceptron, one hidden layer per entry of
    [layers], in order, each followed by the nonlinearity and dropout;
    [params] are the trained layers and [mask i k j] tells whether unit
    [j] of layer [k] is kept for example [i]. *)
Fixpoint hidden_layers (activation : R -> R) (train_mode : bool)
    (keep_prob : R) (mask : nat -> nat -> bool) (k : nat)
    (layers : list (Z * DenseLayer)) (x : list R) : list R :=
  match layers with
  | [] => x
  | (_, layer) :: rest =>
      hidden_layers activation train_mode keep_prob mask (S k) rest
        (dropout keep_prob train_mode (mask k) (map activation (dense layer x)))
  end.

Definition spec_multilayer_projection (params : list DenseLayer)
    (mask : nat -> nat -> nat -> bool)
    (input : list (list R)) (layers : option (list Z)) (activation : R -> R)
    (train_mode : bool) (keep_prob : R) : list (list R) :=
  imap (fun i row =>
          hidden_layers activation train_mode keep_prob (mask i) 0
            (zip (default [] layers) params) row)
       input.

(** Modelled from the spec: the linear projection to [size] units. *)
Definition spec_linear (out : DenseLayer) (input : list (list R)) (size : Z)
  : list (list R) :=
  map (fun row => take (Z.to_nat size) (dense out row)) input.

(** A vector of zeros. *)
Definition zeros (x : list R) : Prop := Forall (fun v => v = 0) x.

(** The logistic function, [tf.sigmoid]. *)
Definition sigmoid (x : R) : R := 1 / (1 + exp (- x)).

(** *** A small regressor, for examples

    One hidden unit over two inputs and one output unit, all weights 1
    and no bias; every unit is kept by dropout; three encoders over a
    batch of one example, the first two with the same summary. *)
Definition ex_hidden : DenseLayer := mkDenseLayer [[1; 1]] [0].
Definition ex_out : DenseLayer := mkDenseLayer [[1]] [0].
Definition ex_mask : nat -> nat -> nat -> bool := fun _ _ _ => true.
Definition ex_encoder : Encoder := mkEncoder [[2; 3]].
Definition ex_other_encoder : Encoder := mkEncoder [[5; 7; 11]].

Definition ex_init (encoders : list Encoder) (activation_fn : R -> R)
  : result SequenceRegressor :=
  SequenceRegressor_init (spec_multilayer_projection [ex_hidden] ex_mask)
                         (spec_linear ex_out)
                         "regressor" encoders "target" (Some [1%Z])
                         activation_fn (1 / 2).

End Regressor.

(* ------------------------------------------------------------------ *)
(** ** readers/numpy_reader.py                                          *)
(* ------------------------------------------------------------------ *)

Module NumpyReader.

(** A numpy array: its shape and its entries in row-major order.  The
    entries are of any type [A]; the readers never look at them. *)
Record ndarray (A : Type) : Type := mkNdarray {
  shape : list Z;
  data : list A
}.
Arguments mkNdarray {A} shape data.
Arguments shape {A} n.
Arguments data {A} n.

(** What a path of the file system holds: a saved array, an archive of
    named arrays, or the lines of a text file in UTF-8 (each with its
    line end). *)
Inductive file (A : Type) : Type :=
| Npy (arr : ndarray A)
| Npz (entries : gmap string (ndarray A))
| Text (lines : list string).
Arguments Npy {A} arr.
Arguments Npz {A} entries.
Arguments Text {A} lines.

(** What [np.load] returns. *)
Inductive loaded (A : Type) : Type :=
| Array (arr : ndarray A)
| Archive (entries : gmap string (ndarray A)).
Arguments Array {A} arr.
Arguments Archive {A} entries.

(** [c.isspace()] for a character, which stands for a code point below
    256: the ASCII white space, the separators 28 to 31, the next-line
    character 133 and the no-break space 160. *)
Definition is_space (c : ascii) : bool :=
  let n := nat_of_ascii c in
  ((n =? 32) || ((9 <=? n) && (n <=? 13)) || ((28 <=? n) && (n <=? 31))
   || (n =? 133) || (n =? 160))%nat.

(** [s.rstrip()]: the white space at the end is dropped. *)
Fixpoint rstrip (s : string) : string :=
  match s with
  | EmptyString => EmptyString
  | String c s' =>
      match rstrip s' with
      | EmptyString => if is_space c then EmptyString else String c EmptyString
      | t => String c t
      end
  end.

(** [os.path.join(a, b)] of [posixpath]. *)
Definition path_join (a b : string) : string :=
  if String.prefix "/" b then b
  else if (String.eqb a "" || String.eqb (substring (String.length a - 1) 1 a) "/")%bool
       then a ++ b
       else a ++ "/" ++ b.

Section Readers.

Context {A : Type}.

(** The file system the readers run against. *)
Variable fs : gmap string (file A).

(** [np.load(path)]: a file that is neither a saved array nor an
    archive is taken for pickled data, which [np.load] refuses with a
    [ValueError]; an empty file ends with numpy's [EOFError]. *)
Definition np_load (path : string) : result (loaded A) :=
  match fs !! path with
  | Some (Npy arr) => Ok (Array arr)
  | Some (Npz entries) => Ok (Archive entries)
  | Some (Text []) => Raise (LibraryError "no data left in file")
  | Some (Text _) =>
      Raise (ValueError
               "Cannot load file containing pickled data when allow_pickle=False")
  | None => Raise (FileNotFoundError path)
  end.

(** [open(path, encoding="utf-8")] followed by the iteration over the
    lines.  A saved array and an archive are not UTF-8: their first
    bytes already fail to decode, before any line is read. *)
Definition read_lines (path : string) : result (list string) :=
  match fs !! path with
  | Some (Text lines) => Ok lines
  | Some _ => Raise UnicodeDecodeError
  | None => Raise (FileNotFoundError path)
  end.

(** [np.concatenate(arrays, axis=0)]: at least one array, none of them
    zero-dimensional, all with the same dimensions after the first. *)
Definition np_concatenate0 (arrays : list (ndarray A)) : result (ndarray A) :=
  match arrays with
  | [] => Raise (LibraryError "need at least one array to concatenate")
  | first :: _ =>
      match shape first with
      | [] => Raise (LibraryError "zero-dimensional arrays cannot be concatenated")
      | _ :: trailing =>
          if forallb (fun a => bool_decide (tail (shape a) = trailing
                                            /\ shape a <> [])) arrays
          then Ok (mkNdarray
                     (fold_right Z.add 0%Z (map (fun a => hd 0%Z (shape a)) arrays)
                        :: trailing)
                     (concat (map data arrays)))
          else Raise (LibraryError "array dimensions must match")
      end
  end.

Definition as_array (l : loaded A) : result (ndarray A) :=
  match l with
  | Array arr => Ok arr
  | Archive _ => Raise (LibraryError "not an array")
  end.

(** [single_tensor]. *)
Definition single_tensor (files : list string) : result (loaded A) :=
  if (length files =? 1)%nat then
    f ← py_index files 0;
    np_load f
  else
    loaded_files ← mapM np_load files;
    arrays ← mapM as_array loaded_files;
    arr ← np_concatenate0 arrays;
    Ok (Array arr).

(** The message of the shape error. *)
Definition shape_mismatch (expected found : list Z) : string :=
  "Shapes do not match: expected " ++ str_of_int_list expected
    ++ ", found " ++ str_of_int_list found.

Section FromFileList.

Variables (prefix : string) (shape_ : list Z) (suffix default_tensor_name : string).

(** The test on one loaded array. *)
Definition check_shape (arr : ndarray A) : result (ndarray A) :=
  let arr_shape := shape arr in
  if bool_decide (arr_shape <> shape_)
  then Raise (ValueError (shape_mismatch shape_ arr_shape))
  else Ok arr.

(** The array one line of a list file names. *)
Definition load_entry (line : string) : result (ndarray A) :=
  let path := path_join prefix (rstrip line) ++ suffix in
  l ← np_load path;
  match l with
  | Archive npz =>
      match npz !! default_tensor_name with
      | Some arr => Ok arr
      | None =>
          Raise (KeyError (default_tensor_name ++ " is not a file in the archive"))
      end
  | Array _ => Raise (LibraryError "not an archive")
  end.

(** A run of the generator: what it yields, in order, and the exception
    that ends it, if one does. *)
Definition run : Type := (list (ndarray A) * option exn)%type.

(** After a part of the generator that ran to its end, the next part. *)
Definition and_then (r : run) (next : run) : run :=
  match snd r with
  | Some e => r
  | None => ((fst r ++ fst next)%list, snd next)
  end.

Fixpoint load_lines (lines : list string) : run :=
  match lines with
  | [] => ([], None)
  | line :: rest =>
      match (arr ← load_entry line; check_shape arr) with
      | Raise e => ([], Some e)
      | Ok arr => and_then ([arr], None) (load_lines rest)
      end
  end.

(** A line whose entry loads with the expected shape. *)
Definition loads_expected (line : string) : Prop :=
  exists arr, load_entry line = Ok arr /\ shape arr = shape_.

(** A run that ends with the shape error. *)
Definition ends_with_shape_error (r : run) : Prop :=
  exists msg,
    snd r = Some (ValueError msg)
    /\ startswith "Shapes do not match" msg = true.

(** The generator function [load] that [from_file_list] returns. *)
Fixpoint load (files : list string) : run :=
  match files with
  | [] => ([], None)
  | list_file :: rest =>
      match read_lines list_file with
      | Raise e => ([], Some e)
      | Ok lines => and_then (load_lines lines) (load rest)
      end
  end.

End FromFileList.

(** The lines that a run over list files comes to: those of the list
    files, one file after the other, up to the first file that cannot be
    read. *)
Fixpoint lines_read (files : list string) : list string :=
  match files with
  | [] => []
  | list_file :: rest =>
      match read_lines list_file with
      | Ok lines => (lines ++ lines_read rest)%list
      | Raise _ => []
      end
  end.

(** The leading dimension of an array. *)
Definition leading (a : ndarray A) : Z := hd 0%Z (shape a).

Definition from_file_list (prefix : string) (shape_ : list Z)
    (suffix default_tensor_name : string) : list string -> run :=
  load prefix shape_ suffix default_tensor_name.

End Readers.

(** *** A small file system, for examples

    Two saved arrays of shapes (2, 2) and (1, 2), the same two as the
    entry [arr_0] of two archives under [data], and a list file that
    names the archives. *)
Definition ex_a : ndarray Z := mkNdarray [2; 2]%Z [1; 2; 3; 4]%Z.
Definition ex_b : ndarray Z := mkNdarray [1; 2]%Z [5; 6]%Z.

Definition newline : string := String (ascii_of_nat 10) EmptyString.

Definition ex_fs : gmap string (file Z) :=
  <["a.npy" := Npy ex_a]>
    (<["b.npy" := Npy ex_b]>
       (<["train.list" := Text ["a.npz" ++ newline; "b.npz" ++ newline]]>
          (<["data/a.npz" := Npz {["arr_0" := ex_a]}]>
             (<["data/b.npz" := Npz {["arr_0" := ex_b]}]> ∅)))).

End NumpyReader.

(* ------------------------------------------------------------------ *)
(** ** readers/numpy_reader.py: arrays and lines                        *)
(* ------------------------------------------------------------------ *)

Module NumpyShapes.
Import NumpyReader.

(** The number of entries a shape asks for, [np.prod(shape)]. *)
Definition size_of (shape_ : list Z) : Z := fold_right Z.mul 1%Z shape_.

(** An array as numpy stores it: no dimension is negative and there are
    as many entries as the shape asks for. *)
Definition well_formed {A : Type} (a : ndarray A) : Prop :=
  Forall (fun d => (0 <= d)%Z) (shape a)
  /\ Z.of_nat (length (data a)) = size_of (shape a).

(** A string of white space only. *)
Fixpoint whitespace (s : string) : bool :=
  match s with
  | EmptyString => true
  | String c s' => (is_space c && whitespace s')%bool
  end.

End NumpyShapes.

(* ------------------------------------------------------------------ *)
(** ** trainers/rl_trainer.py: variants of an objective                 *)
(* ------------------------------------------------------------------ *)

Module RlVariants.
Import RlTrainer.

(** The objective with another value of [subtract_baseline]. *)
Definition with_baseline (self : ReinforceObjective) (b : bool)
  : ReinforceObjective :=
  mkReinforceObjective (reward_function self) b (normalize self)
    (temperature self) (ce_smoothing self) (alpha self) (sample_size self).

(** A string in which the character [c] does not occur. *)
Fixpoint free_of (c : ascii) (s : string) : bool :=
  match s with
  | EmptyString => true
  | String c' s' => (negb (Ascii.eqb c' c) && free_of c s')%bool
  end.

(** A word without a join marker: no space and no [@] in it. *)
Definition plain_word (w : string) : bool :=
  (free_of " " w && free_of "@" w)%bool.

(** What a column of token indices is read as: the words of the tokens
    before the first one whose word is the end or the padding token,
    every one of them in the vocabulary. *)
Definition reads_as (END_TOKEN PAD_TOKEN : string) (vocabulary : list string)
    (tokens : list Z) (words : list string) : Prop :=
  exists before rest,
    tokens = (before ++ rest)%list
    /\ Forall2 (fun t w => py_index vocabulary t = Ok w
                          /\ w <> END_TOKEN /\ w <> PAD_TOKEN) before words
    /\ (rest = []
        \/ exists t rest' w,
             rest = t :: rest' /\ py_index vocabulary t = Ok w
             /\ (w = END_TOKEN \/ w = PAD_TOKEN)).

(** The number of samples of a run: [batch_size * sample_size] of every
    step, added up. *)
Definition samples_seen (self : ReinforceObjective) (batches : list Decoder) : Z :=
  fold_right Z.add 0%Z
    (map (fun d => (batch_size d * sample_size self)%Z) batches).

(** An evaluator that tells its arguments apart: ten times the number
    of characters of the hypotheses plus that of the references. *)
Definition ex_length_objective : ReinforceObjective :=
  mkReinforceObjective
    (fun hyps refs =>
       (INR (String.length (join "" (concat hyps))) * 10
        + INR (String.length (join "" (concat refs))))%R)
    false false 1 0 1 1.

(** Minimum risk training on the example: two samples, normalised. *)
Definition ex_mrt_objective : ReinforceObjective :=
  mkReinforceObjective (fun _ _ => 1%R) false true 1 0 1 2.

(** An objective that asks for no sample. *)
Definition ex_empty_objective : ReinforceObjective :=
  mkReinforceObjective (fun _ _ => 1%R) true false 1 0 1 0.

End RlVariants.

(* ------------------------------------------------------------------ *)
(** ** encoders/recurrent.py: the cells and the recurrent network       *)
(* ------------------------------------------------------------------ *)

Module Rnn.
Import Recurrent.
#[local] Open Scope R_scope.

(** [d[k]] for a dict with [str] keys. *)
Definition dict_get {V : Type} (d : list (string * V)) (k : string) : result V :=
  match find (fun kv => String.eqb k (fst kv)) d with
  | Some kv => Ok (snd kv)
  | None => Raise (KeyError k)
  end.

(** The state of a cell for one example: a vector for the GRU cells, the
    pair [LSTMStateTuple(c, h)] for the LSTM cell. *)
Inductive cell_state : Type :=
| Hidden (h : list R)
| LSTMStateTuple (c h : list R).

(** A cell with its weights: the width of its output, its zero state
    and its transition, from an input and a state to an output and the
    next state. *)
Record RNNCell : Type := mkRNNCell {
  output_size : nat;
  zero_state : cell_state;
  call : list R -> cell_state -> list R * cell_state
}.

(** A tensor of shape (batch, time, features). *)
Definition tensor3 : Type := list (list (list R)).

(** The cell over the first [len] inputs of one example: past [len] the
    outputs are zero vectors and the state is handed on unchanged. *)
Fixpoint run_cell (cell : RNNCell) (st : cell_state) (inputs : list (list R))
    (len : nat) : list (list R) * cell_state :=
  match inputs with
  | [] => ([], st)
  | x :: rest =>
      match len with
      | O =>
          let '(outs, st') := run_cell cell st rest 0 in
          (repeat 0 (output_size cell) :: outs, st')
      | S len' =>
          let '(o, st1) := call cell x st in
          let '(outs, st') := run_cell cell st1 rest len' in
          (o :: outs, st')
      end
  end.

(** One example of [tf.reverse_sequence(x, seq_lengths, seq_axis=1)]: the
    first [len] positions are reversed, the others stay. *)
Definition reverse_example (ex : list (list R)) (len : nat) : list (list R) :=
  (rev (take len ex) ++ drop len ex)%list.

Definition reverse_sequence (x : tensor3) (seq_lengths : list nat) : tensor3 :=
  zip_with reverse_example x seq_lengths.

(** The cell over all inputs of one example. *)
Fixpoint unroll (cell : RNNCell) (st : cell_state) (inputs : list (list R))
  : list (list R) * cell_state :=
  match inputs with
  | [] => ([], st)
  | x :: rest =>
      let '(o, st1) := call cell x st in
      let '(outs, st') := unroll cell st1 rest in
      (o :: outs, st')
  end.

(** [state.h] of an LSTM state; another state has no such attribute. *)
Definition state_h (s : cell_state) : result (list R) :=
  match s with
  | LSTMStateTuple _ h => Ok h
  | Hidden _ => Raise (LibraryError "no attribute h")
  end.

(** A state that is concatenated as a tensor.  The tuple of an LSTM is
    refused: under a cell type other than LSTM the classes of
    [RNN_CELL_TYPES] have no such state. *)
Definition as_tensor (s : cell_state) : result (list R) :=
  match s with
  | Hidden h => Ok h
  | LSTMStateTuple _ _ => Raise (LibraryError "not a tensor")
  end.

Section Network.

(** The cell object of a class with a number of units, with the weights
    that it is given in a variable scope: two cell objects that are run
    in different scopes do not share their weights. *)
Variable new_cell : rnn_cell_class -> Z -> string -> RNNCell.

(** [_make_rnn_cell]: the template of the cells of a spec. *)
Definition _make_rnn_cell (spec : RNNSpec) : result (string -> RNNCell) :=
  cls ← dict_get RNN_CELL_TYPES (cell_type spec);
  Ok (new_cell cls (size spec)).

(** [tf.nn.dynamic_rnn(cell, inputs, sequence_length, dtype=tf.float32)],
    run in the variable scope [scope]: the outputs and the final states,
    example by example, from the zero state. *)
Definition dynamic_rnn (cell : string -> RNNCell) (scope : string)
    (inputs : tensor3) (sequence_length : list nat)
  : tensor3 * list cell_state :=
  let c := cell scope in
  let runs := zip_with (run_cell c (zero_state c)) inputs sequence_length in
  (map fst runs, map snd runs).

(** [tf.nn.bidirectional_dynamic_rnn]: the forward pass, and the backward
    pass over the reversed inputs with its outputs reversed back. *)
Definition bidirectional_dynamic_rnn (cell_fw cell_bw : string -> RNNCell)
    (inputs : tensor3) (sequence_length : list nat)
  : (tensor3 * tensor3) * (list cell_state * list cell_state) :=
  let '(output_fw, state_fw) :=
    dynamic_rnn cell_fw "bidirectional_rnn/fw" inputs sequence_length in
  let inputs_reverse := reverse_sequence inputs sequence_length in
  let '(tmp, state_bw) :=
    dynamic_rnn cell_bw "bidirectional_rnn/bw" inputs_reverse sequence_length in
  let output_bw := reverse_sequence tmp sequence_length in
  ((output_fw, output_bw), (state_fw, state_bw)).

(** [RecurrentEncoder.rnn]: the outputs, of shape (batch, time,
    features), and the final state of every example. *)
Definition rnn (spec : RNNSpec) (rnn_input : tensor3) (lengths : list nat)
  : result (tensor3 * list cell_state) :=
  if String.eqb (direction spec) "both" then
    fw_cell ← _make_rnn_cell spec;
    bw_cell ← _make_rnn_cell spec;
    let '(outputs_tup, states_tup) :=
      bidirectional_dynamic_rnn fw_cell bw_cell rnn_input lengths in
    let outputs := zip_with (zip_with app) (fst outputs_tup) (snd outputs_tup) in
    let component :=
      if String.eqb (cell_type spec) "LSTM" then state_h else as_tensor in
    fw_state ← mapM component (fst states_tup);
    bw_state ← mapM component (snd states_tup);
    let final_state := zip_with app fw_state bw_state in
    Ok (outputs, map Hidden final_state)
  else
    let backward := String.eqb (direction spec) "backward" in
    let rnn_input :=
      if backward then reverse_sequence rnn_input lengths else rnn_input in
    cell ← _make_rnn_cell spec;
    let '(outputs, final_state) := dynamic_rnn cell "rnn" rnn_input lengths in
    let outputs :=
      if backward then reverse_sequence outputs lengths else outputs in
    final_state ←
      (if String.eqb (cell_type spec) "LSTM"
       then hs ← mapM state_h final_state; Ok (map Hidden hs)
       else Ok final_state);
    Ok (outputs, final_state).

(** [temporal_states] and [output]. *)
Definition temporal_states (spec : RNNSpec) (rnn_input : tensor3)
    (lengths : list nat) : result tensor3 :=
  r ← rnn spec rnn_input lengths; Ok (fst r).

Definition output (spec : RNNSpec) (rnn_input : tensor3) (lengths : list nat)
  : result (list cell_state) :=
  r ← rnn spec rnn_input lengths; Ok (snd r).

End Network.

(** One example of the outputs of a forward and of a backward pass. *)
Definition forward_example (c : RNNCell) (ex : list (list R)) (len : nat)
  : list (list R) :=
  fst (run_cell c (zero_state c) ex len).

Definition backward_example (c : RNNCell) (ex : list (list R)) (len : nat)
  : list (list R) :=
  reverse_example
    (fst (run_cell c (zero_state c) (reverse_example ex len) len)) len.

(** The width of the outputs of a spec. *)
Definition width (spec : RNNSpec) : nat :=
  if String.eqb (direction spec) "both"
  then (Z.to_nat (size spec) + Z.to_nat (size spec))%nat
  else Z.to_nat (size spec).

(** The lengths of a batch: one for every example, none beyond the time
    axis. *)
Definition valid_lengths (x : tensor3) (lengths : list nat) : Prop :=
  Forall2 (fun ex len => len <= length ex)%nat x lengths.

(** Two batches that differ in their padding only: example by example
    the same number of time steps and the same inputs up to the length. *)
Definition same_up_to_lengths (x x' : tensor3) (lengths : list nat) : Prop :=
  Forall3 (fun ex ex' len =>
             (len <= length ex)%nat /\ length ex' = length ex
             /\ take len ex' = take len ex) x x' lengths.

(** The cells have as many units as they are asked for. *)
Definition cells_sized (new_cell : rnn_cell_class -> Z -> string -> RNNCell)
  : Prop :=
  forall cls n scope,
    output_size (new_cell cls n scope) = Z.to_nat n
    /\ forall x st, length (fst (call (new_cell cls n scope) x st)) = Z.to_nat n.

(** A cell for the examples: every unit adds the entries of the input
    to what it holds; the LSTM class keeps the sum in its cell state
    too. *)
Definition ex_new_cell (cls : rnn_cell_class) (n : Z) (scope : string) : RNNCell :=
  let units := Z.to_nat n in
  let step x st :=
    let h := match st with LSTMStateTuple _ h => h | Hidden h => h end in
    map (fun j => nth j h 0 + Rsum x) (seq 0 units) in
  match cls with
  | LSTMCell =>
      mkRNNCell units (LSTMStateTuple (repeat 0 units) (repeat 0 units))
        (fun x st => (step x st, LSTMStateTuple (step x st) (step x st)))
  | _ =>
      mkRNNCell units (Hidden (repeat 0 units))
        (fun x st => (step x st, Hidden (step x st)))
  end.

(** A batch of two examples over three time steps, of lengths 2 and 3,
    and the same batch with another padding. *)
Definition ex_batch : tensor3 := [[[1]; [2]; [0]]; [[3]; [4]; [5]]].
Definition ex_batch_padded : tensor3 := [[[1]; [2]; [7]]; [[3]; [4]; [5]]].
Definition ex_lengths : list nat := [2; 3]%nat.

(** The batch with another second input in its first example. *)
Definition ex_batch_late : tensor3 := [[[1]; [9]; [0]]; [[3]; [4]; [5]]].

End Rnn.

(* ------------------------------------------------------------------ *)
(** ** encoders/recurrent.py: the sentence encoders                     *)
(* ------------------------------------------------------------------ *)

Module Encoders.
Import Recurrent.

(** The checkpoint names that [ModelPart.__init__] is given. *)
Record Checkpoints : Type := mkCheckpoints {
  save_checkpoint : option string;
  load_checkpoint : option string
}.

(** [fmt.format(ckp) if ckp else None]: [None] and the empty string are
    falsy. *)
Definition ckp_name (fmt : string -> string) (ckp : option string)
  : option string :=
  match ckp with
  | Some s => if String.eqb s "" then None else Some (fmt s)
  | None => None
  end.

(** What a recurrent encoder reads: the embedded input, or the recurrent
    encoder of the layer below, with its checkpoint names. *)
#[warnings="-register-all"] Inductive temporal (E : Type) : Type :=
| Embedded (e : E)
| Layer (enc : RecurrentEncoder (temporal E)) (ckp : Checkpoints).
Arguments Embedded {E} e.
Arguments Layer {E} enc ckp.

(** The attributes of a [SentenceEncoder] and of a [DeepSentenceEncoder]:
    those of the [RecurrentEncoder] it is, its checkpoint names and
    [data_id]. *)
Record SentenceEncoder (E : Type) : Type := mkSentenceEncoder {
  data_id : string;
  encoder : RecurrentEncoder (temporal E);
  checkpoints : Checkpoints
}.
Arguments mkSentenceEncoder {E} data_id encoder checkpoints.
Arguments data_id {E} s.
Arguments encoder {E} s.
Arguments checkpoints {E} s.

Section Constructors.

Variable class_repr : rnn_cell_class -> string.

(** [EmbeddedSequence(name, vocabulary, data_id, embedding_size,
    max_length, save_checkpoint, load_checkpoint)], of another file: it
    returns the input sequence or raises. *)
Context {V E : Type}.
Variable EmbeddedSequence :
  string -> V -> string -> Z -> option Z -> Checkpoints -> result E.

Definition input_checkpoints (ckp : Checkpoints) : Checkpoints :=
  mkCheckpoints (ckp_name (fun s => "input_" ++ s) (save_checkpoint ckp))
                (ckp_name (fun s => "input_" ++ s) (load_checkpoint ckp)).

Definition layer_checkpoints (ckp : Checkpoints) (level : nat) : Checkpoints :=
  let fmt s := s ++ "_layer_" ++ str_of_int (Z.of_nat level) in
  mkCheckpoints (ckp_name fmt (save_checkpoint ckp))
                (ckp_name fmt (load_checkpoint ckp)).

(** [SentenceEncoder.__init__]. *)
Definition SentenceEncoder_init (name : string) (vocabulary : V)
    (data_id : string) (embedding_size rnn_size : Z)
    (rnn_cell rnn_direction : string) (max_input_len : option Z)
    (dropout_keep_prob : float) (ckp : Checkpoints)
  : result (SentenceEncoder E) :=
  input_sequence ← EmbeddedSequence (name ++ "_input") vocabulary data_id
                     embedding_size max_input_len (input_checkpoints ckp);
  enc ← RecurrentEncoder_init class_repr name (Embedded input_sequence)
          rnn_size rnn_cell rnn_direction dropout_keep_prob;
  Ok (mkSentenceEncoder data_id enc ckp).

(** The loop of [DeepSentenceEncoder.__init__] over
    [enumerate(zip(rnn_sizes[:-1], rnn_directions))], from [level] on. *)
Fixpoint layers (name : string) (rnn_cell : string) (dropout_keep_prob : float)
    (ckp : Checkpoints) (level : nat) (prev_layer : temporal E)
    (pairs : list (Z * string)) : result (temporal E) :=
  match pairs with
  | [] => Ok prev_layer
  | (rnn_size, rnn_direction) :: rest =>
      enc ← RecurrentEncoder_init class_repr
              (name ++ "_layer_" ++ str_of_int (Z.of_nat level))
              prev_layer rnn_size rnn_cell rnn_direction dropout_keep_prob;
      layers name rnn_cell dropout_keep_prob ckp (S level)
        (Layer enc (layer_checkpoints ckp level)) rest
  end.

(** [DeepSentenceEncoder.__init__]. *)
Definition DeepSentenceEncoder_init (name : string) (vocabulary : V)
    (data_id : string) (embedding_size : Z) (rnn_sizes : list Z)
    (rnn_directions : list string) (rnn_cell : string)
    (max_input_len : option Z) (dropout_keep_prob : float) (ckp : Checkpoints)
  : result (SentenceEncoder E) :=
  if negb (length rnn_sizes =? length rnn_directions)%nat then
    Raise (ValueError "Different number of rnn sizes and directions.")
  else
    input ← EmbeddedSequence (name ++ "_input") vocabulary data_id
              embedding_size max_input_len (input_checkpoints ckp);
    prev_layer ← layers name rnn_cell dropout_keep_prob ckp 0 (Embedded input)
                   (zip (removelast rnn_sizes) rnn_directions);
    rnn_size ← py_index rnn_sizes (-1);
    rnn_direction ← py_index rnn_directions (-1);
    enc ← RecurrentEncoder_init class_repr name prev_layer rnn_size rnn_cell
            rnn_direction dropout_keep_prob;
    Ok (mkSentenceEncoder data_id enc ckp).

End Constructors.

(** The recurrent encoders below an input, bottom first, each as its
    name and spec with its keep probability; and the embedded input at
    the bottom. *)
Fixpoint stack {E : Type} (t : temporal E) : list (string * RNNSpec * float) :=
  match t with
  | Embedded _ => []
  | Layer enc _ =>
      (stack (input_sequence _ enc)
         ++ [(name _ enc, rnn_spec _ enc, dropout_keep_prob _ enc)])%list
  end.

Fixpoint bottom {E : Type} (t : temporal E) : E :=
  match t with
  | Embedded e => e
  | Layer enc _ => bottom (input_sequence _ enc)
  end.

(** What the validation of one layer asks of its cell type, its keep
    probability and its pair of a size and a direction. *)
Definition layer_valid (rnn_cell : string) (keep : float)
    (pair : Z * string) : Prop :=
  (0 < fst pair)%Z
  /\ in_list (snd pair) RNN_DIRECTIONS = true
  /\ in_dict rnn_cell RNN_CELL_TYPES = true
  /\ in_unit_interval keep = true.

(** The checkpoint names of the recurrent encoders below an input,
    bottom first. *)
Fixpoint checkpoints_below {E : Type} (t : temporal E) : list Checkpoints :=
  match t with
  | Embedded _ => []
  | Layer enc ckp => (checkpoints_below (input_sequence _ enc) ++ [ckp])%list
  end.

(** All recurrent encoders of a sentence encoder, itself last. *)
Definition full_stack {E : Type} (s : SentenceEncoder E)
  : list (string * RNNSpec * float) :=
  stack (Layer (encoder s) (checkpoints s)).

(** The name of the layer [level] below the top one. *)
Definition layer_name (name : string) (level : nat) : string :=
  name ++ "_layer_" ++ str_of_int (Z.of_nat level).

(** An embedded input that is its name, and printed names of the cell
    classes, for the examples. *)
Definition ex_embedded (name : string) (vocabulary : unit) (data_id : string)
    (embedding_size : Z) (max_length : option Z) (ckp : Checkpoints)
  : result string := Ok name.

Definition ex_class_repr (c : rnn_cell_class) : string :=
  match c with
  | NematusGRUCell => "<class 'NematusGRUCell'>"
  | OrthoGRUCell => "<class 'OrthoGRUCell'>"
  | LSTMCell => "<class 'LSTMCell'>"
  end.

Definition ex_checkpoints : Checkpoints := mkCheckpoints (Some "enc") None.

End Encoders.

(* ------------------------------------------------------------------ *)
(** ** Proofs: the error monad and list indexing                        *)
(* ------------------------------------------------------------------ *)

Section ResultLemmas.

Context {X Y : Type}.

Lemma mapM_result_Ok (f : X -> result Y) (xs : list X) (ys : list Y) :
  Forall2 (fun x y => f x = Ok y) xs ys -> mapM f xs = Ok ys.
Proof.
  induction 1 as [|x y xs ys Hxy _ IH]; [reflexivity|].
  cbn [mapM]. rewrite Hxy. cbn [mbind result_bind]. rewrite IH. reflexivity.
Qed.

Lemma mapM_result_inv (f : X -> result Y) (xs : list X) (ys : list Y) :
  mapM f xs = Ok ys -> Forall2 (fun x y => f x = Ok y) xs ys.
Proof.
  revert ys. induction xs as [|x xs IH]; intros ys; cbn [mapM].
  - intros [= <-]. constructor.
  - destruct (f x) as [y|e] eqn:Hx; cbn [mbind result_bind]; [|discriminate].
    destruct (mapM f xs) as [ys'|e]; cbn [mbind result_bind mret result_ret];
      [|discriminate].
    intros [= <-]. constructor; [exact Hx | now apply IH].
Qed.

Lemma py_index_0 (x : X) (l : list X) : py_index (x :: l) 0 = Ok x.
Proof.
  unfold py_index. cbn [Z.ltb Z.compare length].
  destruct (Z.ltb_spec 0 (Z.of_nat (S (length l)))); [reflexivity | lia].
Qed.

Lemma py_index_1 (x y : X) (l : list X) : py_index (x :: y :: l) 1 = Ok y.
Proof.
  unfold py_index. cbn [Z.ltb Z.compare length].
  destruct (Z.ltb_spec 1 (Z.of_nat (S (S (length l))))); [reflexivity | lia].
Qed.

Lemma py_index_short (l : list X) (i : Z) :
  (Z.of_nat (length l) <= i)%Z -> py_index l i = Raise IndexError.
Proof.
  intros H. unfold py_index.
  destruct (Z.ltb_spec i 0); [lia|].
  destruct (Z.ltb_spec i (Z.of_nat (length l))); [lia|].
  now rewrite andb_false_r.
Qed.

End ResultLemmas.

(* ------------------------------------------------------------------ *)
(** ** Proofs: validation in the recurrent encoder                      *)
(* ------------------------------------------------------------------ *)

Section RecurrentProofs.
Import Recurrent.

Variable class_repr : rnn_cell_class -> string.

Lemma in_list_directions (d : string) :
  in_list d RNN_DIRECTIONS = true <-> d = "forward" \/ d = "backward" \/ d = "both".
Proof.
  unfold in_list, RNN_DIRECTIONS. simpl.
  rewrite !orb_true_iff, !String.eqb_eq. intuition discriminate.
Qed.

Lemma in_dict_cell_types (c : string) :
  in_dict c RNN_CELL_TYPES = true <-> c = "NematusGRU" \/ c = "GRU" \/ c = "LSTM".
Proof.
  unfold in_dict, RNN_CELL_TYPES. simpl.
  rewrite !orb_true_iff, !String.eqb_eq. intuition discriminate.
Qed.

(** The spec is made exactly for a positive size, a listed direction and
    a listed cell type. *)
Lemma make_rnn_spec_ok (size : Z) (direction cell_type : string) (spec : RNNSpec) :
  _make_rnn_spec class_repr size direction cell_type = Ok spec
  <-> (0 < size)%Z /\ in_list direction RNN_DIRECTIONS = true
      /\ in_dict cell_type RNN_CELL_TYPES = true
      /\ spec = mkRNNSpec size direction cell_type.
Proof.
  unfold _make_rnn_spec.
  destruct (Z.leb_spec size 0).
  { split; [discriminate | lia]. }
  destruct (in_list direction RNN_DIRECTIONS); cbn [negb].
  2: { split; [discriminate | intros (_ & ? & _); discriminate]. }
  destruct (in_dict cell_type RNN_CELL_TYPES); cbn [negb].
  2: { split; [discriminate | intros (_ & _ & ? & _); discriminate]. }
  split.
  - intros [= <-]. auto.
  - intros (_ & _ & _ & ->). reflexivity.
Qed.

(** Every error of [_make_rnn_spec] is a [ValueError] whose message
    starts with the name of the first field that is wrong. *)
Lemma make_rnn_spec_error (size : Z) (direction cell_type : string) (e : exn) :
  _make_rnn_spec class_repr size direction cell_type = Raise e ->
  exists msg, e = ValueError msg /\
    (((size <= 0)%Z /\ startswith "RNN size" msg = true)
     \/ (in_list direction RNN_DIRECTIONS = false
         /\ startswith "RNN direction" msg = true)
     \/ (in_dict cell_type RNN_CELL_TYPES = false
         /\ startswith "RNN cell type" msg = true)).
Proof.
  unfold _make_rnn_spec.
  destruct (Z.leb_spec size 0).
  { intros [= <-]. eexists; split; [reflexivity|]. left. split; [lia | reflexivity]. }
  destruct (in_list direction RNN_DIRECTIONS) eqn:Hd; cbn [negb].
  2: { intros [= <-]. eexists; split; [reflexivity|]. right; left. split; reflexivity. }
  destruct (in_dict cell_type RNN_CELL_TYPES) eqn:Hc; cbn [negb].
  2: { intros [= <-]. eexists; split; [reflexivity|]. right; right. split; reflexivity. }
  discriminate.
Qed.

Lemma SFcompare_refl (x : spec_float) :
  x <> S754_nan -> SFcompare x x = Some Eq.
Proof.
  destruct x as [s|s| |s m e]; cbn [SFcompare]; try congruence; intros _.
  - destruct s; reflexivity.
  - rewrite Z.compare_refl, Pos.compare_cont_refl. destruct s; reflexivity.
Qed.

Lemma is_nan_false (p : float) : is_nan p = false -> Prim2SF p <> S754_nan.
Proof.
  unfold is_nan. rewrite FloatAxioms.eqb_spec. intros H E. rewrite E in H.
  discriminate.
Qed.

Lemma SFcompare_antisym_pos (m1 : positive) (e1 : Z) (m2 : positive) (e2 : Z) :
  SFcompare (S754_finite false m1 e1) (S754_finite false m2 e2)
  = option_map CompOpp
      (SFcompare (S754_finite false m2 e2) (S754_finite false m1 e1)).
Proof.
  cbn [SFcompare option_map]. rewrite (Z.compare_antisym e1 e2).
  destruct (e1 ?= e2)%Z; cbn [CompOpp]; try reflexivity.
  now rewrite (Pos.compare_cont_antisym m2 m1 Eq).
Qed.

(** For a keep probability that is a number, the test of the constructor
    is the negation of membership in (0, 1]. *)
Lemma keep_prob_test (p : float) :
  is_nan p = false ->
  (PrimFloat.leb p 0%float || PrimFloat.ltb 1%float p)%bool
  = negb (in_unit_interval p).
Proof.
  intros Hn. apply is_nan_false in Hn. unfold in_unit_interval.
  rewrite !FloatAxioms.leb_spec, !FloatAxioms.ltb_spec.
  change (Prim2SF 0%float) with (S754_zero false).
  set (one := Prim2SF 1%float).
  assert (Hone : one = S754_finite false 4503599627370496 (-52))
    by (vm_compute; reflexivity).
  rewrite Hone. clear Hone one.
  destruct (Prim2SF p) as [s|s| |s m e]; try congruence.
  - reflexivity.
  - destruct s; reflexivity.
  - destruct s; [reflexivity|].
    unfold SFleb, SFltb.
    rewrite (SFcompare_antisym_pos m e).
    cbn [SFcompare option_map].
    destruct (-52 ?= e)%Z; cbn; try reflexivity.
    destruct (PosDef.Pos.compare_cont Eq 4503599627370496 m); reflexivity.
Qed.

(** Construction for a keep probability that is a number: it succeeds
    exactly when the four fields are valid. *)
Lemma RecurrentEncoder_init_ok_iff {I : Type} (name : string) (input : I)
    (rnn_size : Z) (rnn_cell rnn_direction : string) (p : float) :
  is_nan p = false ->
  is_ok (RecurrentEncoder_init class_repr name input rnn_size rnn_cell
           rnn_direction p) = true
  <-> (0 < rnn_size)%Z
      /\ in_list rnn_direction RNN_DIRECTIONS = true
      /\ in_dict rnn_cell RNN_CELL_TYPES = true
      /\ in_unit_interval p = true.
Proof.
  intros Hn. unfold RecurrentEncoder_init.
  destruct (_make_rnn_spec class_repr rnn_size rnn_direction rnn_cell) as [spec|e] eqn:Hs;
    cbn [mbind result_bind].
  - apply make_rnn_spec_ok in Hs. destruct Hs as (Hsz & Hd & Hc & _).
    rewrite (keep_prob_test p Hn).
    destruct (in_unit_interval p); cbn; intuition discriminate.
  - split; [discriminate|]. intros (Hsz & Hd & Hc & _).
    assert (Hok : _make_rnn_spec class_repr rnn_size rnn_direction rnn_cell
                  = Ok (mkRNNSpec rnn_size rnn_direction rnn_cell))
      by (apply make_rnn_spec_ok; auto).
    congruence.
Qed.

(** Every error of the constructor is a [ValueError] that names a field
    that is wrong; nothing is constructed then. *)
Lemma RecurrentEncoder_init_error {I : Type} (name : string) (input : I)
    (rnn_size : Z) (rnn_cell rnn_direction : string) (p : float) (e : exn) :
  RecurrentEncoder_init class_repr name input rnn_size rnn_cell rnn_direction p
  = Raise e ->
  exists msg, e = ValueError msg /\
    (((rnn_size <= 0)%Z /\ startswith "RNN size" msg = true)
     \/ (in_list rnn_direction RNN_DIRECTIONS = false
         /\ startswith "RNN direction" msg = true)
     \/ (in_dict rnn_cell RNN_CELL_TYPES = false
         /\ startswith "RNN cell type" msg = true)
     \/ (in_unit_interval p = false
         /\ startswith "Dropout keep prob" msg = true)).
Proof.
  unfold RecurrentEncoder_init.
  destruct (_make_rnn_spec class_repr rnn_size rnn_direction rnn_cell) as [spec|e'] eqn:Hs;
    cbn [mbind result_bind].
  - destruct (PrimFloat.leb p 0 || PrimFloat.ltb 1 p)%bool eqn:Ht; [|discriminate].
    intros [= <-]. eexists; split; [reflexivity|]. do 3 right. split; [|reflexivity].
    unfold in_unit_interval.
    destruct (PrimFloat.leb p 0) eqn:H0.
    + assert (PrimFloat.ltb 0 p = false) as ->; [|reflexivity].
      rewrite FloatAxioms.leb_spec in H0. rewrite FloatAxioms.ltb_spec.
      change (Prim2SF 0%float) with (S754_zero false) in *.
      destruct (Prim2SF p) as [s|s| |s m e0]; try discriminate;
        try reflexivity; destruct s; try discriminate; reflexivity.
    + cbn in Ht.
      assert (PrimFloat.leb p 1 = false) as ->; [|apply andb_false_r].
      rewrite FloatAxioms.ltb_spec in Ht. rewrite FloatAxioms.leb_spec.
      assert (Hone : Prim2SF 1%float = S754_finite false 4503599627370496 (-52))
        by (vm_compute; reflexivity).
      rewrite Hone in *.
      destruct (Prim2SF p) as [s|s| |s m e0]; try discriminate;
        try (destruct s; try discriminate; reflexivity).
      destruct s; [discriminate|].
      unfold SFleb, SFltb in *. rewrite (SFcompare_antisym_pos m e0).
      destruct (SFcompare (S754_finite false 4503599627370496 (-52))
                  (S754_finite false m e0)) as [[]|]; try discriminate; reflexivity.
  - intros [= <-]. destruct (make_rnn_spec_error _ _ _ _ Hs) as (msg & -> & H).
    exists msg. split; [reflexivity|]. tauto.
Qed.

(** C3 (not met by the code).  Construction with a valid size,
    direction and cell type and the keep probability NaN succeeds and
    stores NaN, although NaN is not in (0, 1]: both comparisons of the
    test, [p <= 0.0] and [p > 1.0], are false for NaN. *)
Theorem RecurrentEncoder_init_accepts_nan {I : Type} (name : string) (input : I) :
  RecurrentEncoder_init class_repr name input 300 "GRU" "both" nan
  = Ok (mkRecurrentEncoder I name input nan (mkRNNSpec 300 "both" "GRU"))
  /\ in_unit_interval nan = false.
Proof. split; reflexivity. Qed.

End RecurrentProofs.

(* ------------------------------------------------------------------ *)
(** ** Proofs: the feed dictionary of the sequence regressor            *)
(* ------------------------------------------------------------------ *)

Section FeedDictProofs.
Import Regressor.

Context {A : Type}.

Lemma mapM_head_None (rows : list (list A)) :
  [] ∈ rows -> mapM head rows = None.
Proof.
  intros Hin. destruct (mapM head rows) as [t|] eqn:E; [|reflexivity].
  apply mapM_Some in E.
  apply list_elem_of_lookup in Hin as (i & Hi).
  destruct (Forall2_lookup_l _ _ _ _ _ E Hi) as (y & _ & Hy). discriminate.
Qed.

Lemma mapM_head_Some (rows : list (list A)) :
  Forall (fun row => row <> []) rows ->
  exists tuple, mapM head rows = Some tuple
                /\ Forall2 (fun row t => head row = Some t) rows tuple.
Proof.
  intros Hne.
  assert (is_Some (mapM head rows)) as [tuple Ht].
  { apply mapM_is_Some. eapply Forall_impl; [exact Hne|].
    intros [|x row] H; [congruence | eexists; reflexivity]. }
  exists tuple. split; [exact Ht|]. now apply mapM_Some.
Qed.

(** The fuel of [zip_star] is enough: once it covers the length of some
    row, more of it changes nothing. *)
Lemma zip_star_upto_enough (fuel : nat) :
  forall (rows : list (list A)) (row : list A) (fuel' : nat),
    row ∈ rows -> length row <= fuel -> fuel <= fuel' ->
    zip_star_upto fuel' rows = zip_star_upto fuel rows.
Proof.
  induction fuel as [|fuel IH]; intros rows row fuel' Hin Hlen Hle.
  - destruct row; [|simpl in Hlen; lia].
    destruct fuel'; cbn [zip_star_upto]; [reflexivity|].
    now rewrite (mapM_head_None rows Hin).
  - destruct fuel' as [|fuel']; [lia|]. cbn [zip_star_upto].
    destruct (mapM head rows); [|reflexivity].
    f_equal. apply (IH _ (tail row)).
    + apply list_elem_of_fmap. eauto.
    + destruct row; simpl in *; lia.
    + lia.
Qed.

(** The first tuple of [zip_star]: the heads of the rows. *)
Lemma zip_star_first (rows : list (list A)) (tuple : list A) :
  rows <> [] -> mapM head rows = Some tuple ->
  exists rest, zip_star rows = tuple :: rest.
Proof.
  intros Hne Ht. destruct rows as [|row rows']; [congruence|].
  unfold zip_star. destruct row as [|x row].
  - rewrite mapM_head_None in Ht; [discriminate | left].
  - cbn [length zip_star_upto]. rewrite Ht. eauto.
Qed.

Lemma zip_star_empty (rows : list (list A)) :
  rows = [] \/ [] ∈ rows -> zip_star rows = [].
Proof.
  intros [-> | Hin]; [reflexivity|].
  destruct rows as [|row rows']; [reflexivity|].
  unfold zip_star. destruct (length row); cbn [zip_star_upto]; [reflexivity|].
  now rewrite mapM_head_None.
Qed.

(** C9.  When the dataset has no series under [data_id], [feed_dict]
    returns without an error a dictionary with one binding, of the
    training-mode placeholder to the [train] argument; the placeholder of
    the targets is not bound. *)
Theorem feed_dict_absent_series (data_id : string)
    (dataset : gmap string (list (list A))) (train : bool) :
  dataset !! data_id = None ->
  feed_dict data_id dataset train = Ok {[ train_mode := FeedBool train ]}
  /\ forall fd, feed_dict data_id dataset train = Ok fd ->
                fd !! gt_inputs = None /\ fd !! train_mode = Some (FeedBool train).
Proof.
  intros Habs.
  assert (E : feed_dict data_id dataset train = Ok {[ train_mode := FeedBool train ]}).
  { unfold feed_dict, get_series. rewrite Habs. reflexivity. }
  split; [exact E|]. intros fd Hfd. rewrite E in Hfd. injection Hfd as <-.
  split; [apply lookup_singleton_ne; discriminate | apply lookup_singleton_eq].
Qed.

(** C10.  When the series is present, the targets that are bound are the
    first entries of its rows, one per example; this needs a series with
    at least one row and no empty row, and otherwise [feed_dict] raises
    [IndexError]. *)
Theorem feed_dict_present_series (data_id : string)
    (dataset : gmap string (list (list A))) (train : bool)
    (rows : list (list A)) :
  dataset !! data_id = Some rows ->
  (rows <> [] /\ Forall (fun row => row <> []) rows ->
   exists targets,
     Forall2 (fun row t => head row = Some t) rows targets
     /\ feed_dict data_id dataset train
        = Ok (<[train_mode := FeedBool train]>
                (<[gt_inputs := FeedTuple targets]> ∅)))
  /\ (rows = [] \/ Exists (fun row => row = []) rows ->
      feed_dict data_id dataset train = Raise IndexError).
Proof.
  intros Hpres. unfold feed_dict, get_series. rewrite Hpres. split.
  - intros (Hne & Hrows).
    destruct (mapM_head_Some rows Hrows) as (targets & Ht & HF).
    destruct (zip_star_first rows targets Hne Ht) as (rest & ->).
    exists targets. split; [exact HF | reflexivity].
  - intros Hbad. rewrite zip_star_empty; [reflexivity|].
    destruct Hbad as [-> | Hex]; [now left | right].
    apply Exists_exists in Hex as (row & Hin & ->). exact Hin.
Qed.

End FeedDictProofs.

(** The absent case on a dataset that has another series only. *)
Lemma feed_dict_absent_series_witness :
  Regressor.feed_dict "target" (<["source" := [[1%Z]]]> ∅) false
  = Ok {[ Regressor.train_mode := Regressor.FeedBool false ]}
  /\ forall fd,
       Regressor.feed_dict "target" (<["source" := [[1%Z]]]> ∅) false = Ok fd ->
       fd !! Regressor.gt_inputs = None
       /\ fd !! Regressor.train_mode = Some (Regressor.FeedBool false).
Proof.
  apply (feed_dict_absent_series "target" (<["source" := [[1%Z]]]> ∅) false).
  vm_compute. reflexivity.
Defined.

(** The present case on a series of two examples: the targets are the
    first entries, 3 and 4. *)
Lemma feed_dict_present_series_witness :
  exists targets,
    Forall2 (fun row t => head row = Some t) [[3%Z; 9%Z]; [4%Z]] targets
    /\ Regressor.feed_dict "target" (<["target" := [[3%Z; 9%Z]; [4%Z]]]> ∅) true
       = Ok (<[Regressor.train_mode := Regressor.FeedBool true]>
               (<[Regressor.gt_inputs := Regressor.FeedTuple targets]> ∅)).
Proof.
  apply (feed_dict_present_series "target"
           (<["target" := [[3%Z; 9%Z]; [4%Z]]]> ∅) true [[3%Z; 9%Z]; [4%Z]]).
  - vm_compute. reflexivity.
  - split; [discriminate | repeat constructor; discriminate].
Defined.

(* ------------------------------------------------------------------ *)
(** ** Proofs: the numpy readers                                        *)
(* ------------------------------------------------------------------ *)

Section NumpyReaderProofs.
Import NumpyReader.

Context {A : Type}.
Variable fs : gmap string (file A).

Lemma np_concatenate0_compatible (arrs : list (ndarray A)) (trailing : list Z) :
  arrs <> [] ->
  Forall (fun a => exists d, shape a = d :: trailing) arrs ->
  np_concatenate0 arrs
  = Ok (mkNdarray (fold_right Z.add 0%Z (map leading arrs) :: trailing)
                  (concat (map data arrs))).
Proof.
  intros Hne Hall. unfold np_concatenate0.
  destruct arrs as [|first rest]; [congruence|].
  pose proof (Forall_inv Hall) as (d & Hd). rewrite Hd.
  assert (Hchk : forallb (fun a => bool_decide (tail (shape a) = trailing
                                                /\ shape a <> []))
                         (first :: rest) = true).
  { apply forallb_forall. intros a Hin. apply bool_decide_eq_true.
    rewrite Forall_forall in Hall.
    destruct (Hall a) as (d' & Hd'); [now apply list_elem_of_In|].
    rewrite Hd'. split; [reflexivity | discriminate]. }
  rewrite Hchk. reflexivity.
Qed.

(** C8.  [single_tensor] of one path is what [np.load] gives for it, so
    the array of that file, unchanged.  Of more than one path, each
    holding an array, the arrays agreeing on their dimensions after the
    first, it is the concatenation along axis 0: the entries of the
    arrays one after the other, the leading dimension the sum of the
    leading dimensions. *)
Theorem single_tensor_spec :
  (forall f : string, single_tensor fs [f] = np_load fs f)
  /\ (forall (f : string) (arr : ndarray A),
        fs !! f = Some (Npy arr) -> single_tensor fs [f] = Ok (Array arr))
  /\ (forall (files : list string) (arrs : list (ndarray A)) (trailing : list Z),
        1 < length files ->
        Forall2 (fun f a => fs !! f = Some (Npy a)) files arrs ->
        Forall (fun a => exists d, shape a = d :: trailing) arrs ->
        single_tensor fs files
        = Ok (Array (mkNdarray
                       (fold_right Z.add 0%Z (map leading arrs) :: trailing)
                       (concat (map data arrs))))).
Proof.
  split; [|split].
  - intros f. reflexivity.
  - intros f arr Hf. change (single_tensor fs [f]) with (np_load fs f).
    unfold np_load. now rewrite Hf.
  - intros files arrs trailing Hlen Hload Hshape.
    unfold single_tensor.
    destruct (Nat.eqb_spec (length files) 1) as [E|_]; [lia|].
    rewrite (mapM_result_Ok (np_load fs) files (map Array arrs)).
    + cbn [mbind result_bind].
      rewrite (mapM_result_Ok as_array (map Array arrs) arrs).
      * cbn [mbind result_bind].
        rewrite (np_concatenate0_compatible arrs trailing);
          [reflexivity| |exact Hshape].
        intros ->. apply Forall2_length in Hload. simpl in Hload. lia.
      * clear. induction arrs; cbn [map]; constructor; auto.
    + apply Forall2_fmap_r. eapply Forall2_impl; [exact Hload|].
      intros f a Hf. cbn beta. unfold np_load. rewrite Hf. reflexivity.
Qed.

Section FromFileListProofs.

Variables (prefix : string) (expected : list Z)
          (suffix default_tensor_name : string).

Local Abbreviation load_entry := (load_entry fs prefix suffix default_tensor_name).
Local Abbreviation load_lines := (load_lines fs prefix expected suffix default_tensor_name).
Local Abbreviation load := (load fs prefix expected suffix default_tensor_name).

Lemma check_shape_match (arr : ndarray A) :
  shape arr = expected -> check_shape expected arr = Ok arr.
Proof.
  intros E. unfold check_shape. rewrite bool_decide_eq_false_2; [reflexivity|].
  intros H. exact (H E).
Qed.

Lemma check_shape_mismatch (arr : ndarray A) :
  shape arr <> expected ->
  check_shape expected arr
  = Raise (ValueError (shape_mismatch expected (shape arr))).
Proof.
  intros E. unfold check_shape. now rewrite bool_decide_eq_true_2.
Qed.

Lemma and_then_assoc (r1 r2 r3 : @run A) :
  and_then (and_then r1 r2) r3 = and_then r1 (and_then r2 r3).
Proof.
  destruct r1 as [y1 [e1|]], r2 as [y2 [e2|]], r3 as [y3 e3];
    unfold and_then; cbn; try reflexivity.
  now rewrite app_assoc.
Qed.

Lemma and_then_nil_l (r : @run A) : and_then ([], None) r = r.
Proof. now destruct r. Qed.

Lemma load_lines_app (l1 l2 : list string) :
  load_lines (l1 ++ l2) = and_then (load_lines l1) (load_lines l2).
Proof.
  induction l1 as [|line l1 IH]; cbn [app NumpyReader.load_lines].
  - now rewrite and_then_nil_l.
  - destruct (load_entry line ≫= check_shape expected) as [arr|e].
    + now rewrite IH, and_then_assoc.
    + reflexivity.
Qed.

Local Abbreviation loads_expected :=
  (loads_expected fs prefix expected suffix default_tensor_name).
Local Abbreviation ends_with_shape_error := (@ends_with_shape_error A).

(** The message of the shape error starts as the source writes it. *)
Lemma shape_mismatch_starts (found : list Z) :
  startswith "Shapes do not match" (shape_mismatch expected found) = true.
Proof. reflexivity. Qed.

(** The one [ValueError] of loading an entry is that of [np.load], whose
    message is not that of the shape error. *)
Lemma load_entry_ValueError (line msg : string) :
  load_entry line = Raise (ValueError msg) ->
  startswith "Shapes do not match" msg = false.
Proof.
  unfold NumpyReader.load_entry, np_load.
  destruct (fs !! _) as [[arr|entries|[|l lines]]|]; cbn [mbind result_bind];
    try discriminate.
  - destruct (entries !! default_tensor_name); discriminate.
  - intros [= <-]. reflexivity.
Qed.

(** Reading a list file raises no [ValueError]. *)
Lemma read_lines_error (path : string) (e : exn) :
  read_lines fs path = Raise e ->
  e = UnicodeDecodeError \/ e = FileNotFoundError path.
Proof.
  unfold read_lines. destruct (fs !! path) as [[arr|entries|lines]|];
    intros [= <-]; auto.
Qed.

(** The run over lines of which the first that does not load with the
    expected shape is [bad], whose entry has another shape. *)
Lemma load_lines_at_mismatch (good : list string) (bad : string)
    (rest : list string) (arr : ndarray A) :
  Forall loads_expected good ->
  load_entry bad = Ok arr -> shape arr <> expected ->
  snd (load_lines (good ++ bad :: rest))
  = Some (ValueError (shape_mismatch expected (shape arr)))
  /\ Forall2 (fun line a => load_entry line = Ok a) good
             (fst (load_lines (good ++ bad :: rest))).
Proof.
  intros Hgood Hbad Hs.
  induction Hgood as [|line good (a & Hl & Ha) _ [IH1 IH2]];
    cbn [app NumpyReader.load_lines].
  - rewrite Hbad. cbn [mbind result_bind].
    rewrite (check_shape_mismatch arr Hs). split; [reflexivity|constructor].
  - rewrite Hl. cbn [mbind result_bind]. rewrite (check_shape_match a Ha).
    destruct (load_lines (good ++ bad :: rest)) as [ys e].
    cbn [fst snd] in IH1, IH2. subst e. unfold and_then. cbn.
    split; [reflexivity|]. constructor; assumption.
Qed.

(** A run over lines ends with the shape error only at a line whose
    entry has another shape, after lines that load with the expected
    one. *)
Lemma load_lines_shape_error_inv (lines : list string) :
  ends_with_shape_error (load_lines lines) ->
  exists good bad rest arr,
    lines = (good ++ bad :: rest)%list
    /\ Forall loads_expected good
    /\ load_entry bad = Ok arr /\ shape arr <> expected.
Proof.
  induction lines as [|line lines IH]; cbn [NumpyReader.load_lines].
  - intros (msg & [=] & _).
  - destruct (load_entry line) as [arr|e] eqn:El; cbn [mbind result_bind].
    + destruct (decide (shape arr = expected)) as [E|E].
      * rewrite (check_shape_match arr E).
        intros (msg & Hm & Hp).
        assert (Hrest : ends_with_shape_error (load_lines lines)).
        { exists msg. split; [|exact Hp].
          destruct (load_lines lines) as [ys e]. exact Hm. }
        destruct (IH Hrest) as (good & bad & rest & arr' & -> & Hg & Hb & Hs).
        exists (line :: good), bad, rest, arr'. repeat split; try assumption.
        constructor; [exists arr; auto|exact Hg].
      * intros _. exists [], line, lines, arr. repeat split; auto.
    + intros (msg & [= ->] & Hp).
      rewrite (load_entry_ValueError _ _ El) in Hp. discriminate.
Qed.

Lemma load_lines_shapes (lines : list string) :
  Forall (fun a => shape a = expected) (fst (load_lines lines)).
Proof.
  induction lines as [|line lines IH]; cbn [NumpyReader.load_lines];
    [constructor|].
  destruct (load_entry line) as [arr|e]; cbn [mbind result_bind];
    [|constructor].
  destruct (decide (shape arr = expected)) as [E|E].
  - rewrite (check_shape_match arr E).
    destruct (load_lines lines) as [ys e]. cbn in *. constructor; assumption.
  - rewrite (check_shape_mismatch arr E). constructor.
Qed.

(** A run over list files is the run over the lines it comes to, but
    that a list file that cannot be read ends it when no line has. *)
Lemma load_as_lines (files : list string) :
  load files = load_lines (lines_read fs files)
  \/ exists e path,
       read_lines fs path = Raise e
       /\ snd (load_lines (lines_read fs files)) = None
       /\ load files = (fst (load_lines (lines_read fs files)), Some e).
Proof.
  induction files as [|f files IH]; cbn [NumpyReader.load lines_read].
  - left. reflexivity.
  - destruct (read_lines fs f) as [lines|e] eqn:Ef.
    + rewrite load_lines_app.
      destruct IH as [->|(e & path & Hr & Hn & ->)]; [left; reflexivity|].
      destruct (load_lines lines) as [ys [e1|]] eqn:El.
      * left. reflexivity.
      * right. exists e, path. split; [exact Hr|].
        destruct (load_lines (lines_read fs files)) as [ys' e2].
        cbn [fst snd] in *. subst e2. unfold and_then. cbn. auto.
    + right. exists e, f. split; [exact Ef|]. split; reflexivity.
Qed.

(** C7.  The generator that [from_file_list] returns ends with the shape
    error exactly when, among the lines it comes to, the first that does
    not load with the expected shape names an array of another shape.
    It then has yielded the arrays of the lines before that one and
    raises a [ValueError] whose message gives the expected and the found
    shape.  An array of the expected shape is yielded and raises
    nothing: every array of a run has the expected shape. *)
Theorem from_file_list_shape_error (files : list string) :
  let r := from_file_list fs prefix expected suffix default_tensor_name files in
  (ends_with_shape_error r
   <-> exists good bad rest arr,
         lines_read fs files = (good ++ bad :: rest)%list
         /\ Forall loads_expected good
         /\ load_entry bad = Ok arr /\ shape arr <> expected)
  /\ (forall good bad rest arr,
        lines_read fs files = (good ++ bad :: rest)%list ->
        Forall loads_expected good ->
        load_entry bad = Ok arr -> shape arr <> expected ->
        snd r = Some (ValueError
                        ("Shapes do not match: expected "
                           ++ str_of_int_list expected ++ ", found "
                           ++ str_of_int_list (shape arr)))
        /\ Forall2 (fun line a => load_entry line = Ok a) good (fst r))
  /\ Forall (fun a => shape a = expected) (fst r).
Proof.
  cbv zeta. unfold from_file_list.
  assert (Hat : forall good bad rest arr,
             lines_read fs files = (good ++ bad :: rest)%list ->
             Forall loads_expected good ->
             load_entry bad = Ok arr -> shape arr <> expected ->
             snd (load files)
             = Some (ValueError (shape_mismatch expected (shape arr)))
             /\ Forall2 (fun line a => load_entry line = Ok a) good
                        (fst (load files))).
  { intros good bad rest arr Hl Hg Hb Hs.
    pose proof (load_lines_at_mismatch good bad rest arr Hg Hb Hs) as [H1 H2].
    rewrite <- Hl in H1, H2.
    destruct (load_as_lines files) as [->|(e & path & _ & Hn & _)].
    - split; assumption.
    - rewrite Hn in H1. discriminate. }
  split; [split|split].
  - intros Hend.
    destruct (load_as_lines files) as [E|(e & path & Hr & _ & E)];
      rewrite E in Hend.
    + apply load_lines_shape_error_inv, Hend.
    + destruct Hend as (msg & [= ->] & _).
      destruct (read_lines_error _ _ Hr); discriminate.
  - intros (good & bad & rest & arr & Hl & Hg & Hb & Hs).
    destruct (Hat good bad rest arr Hl Hg Hb Hs) as [H1 _].
    exists (shape_mismatch expected (shape arr)).
    split; [exact H1|apply shape_mismatch_starts].
  - exact Hat.
  - destruct (load_as_lines files) as [->|(e & path & _ & _ & ->)];
      apply load_lines_shapes.
Qed.

End FromFileListProofs.

End NumpyReaderProofs.

Section NumpyReaderExamples.
Import NumpyReader.

(** Two arrays of shapes (2, 2) and (1, 2) give one of shape (3, 2). *)
Lemma single_tensor_spec_witness :
  single_tensor ex_fs ["a.npy"; "b.npy"]
  = Ok (Array (mkNdarray [3; 2]%Z [1; 2; 3; 4; 5; 6]%Z))
  /\ single_tensor ex_fs ["a.npy"] = Ok (Array ex_a).
Proof.
  split.
  - apply (proj2 (proj2 (single_tensor_spec ex_fs))
             ["a.npy"; "b.npy"] [ex_a; ex_b] [2%Z]).
    + cbn. lia.
    + repeat constructor.
    + repeat constructor; eexists; reflexivity.
  - apply (proj1 (proj2 (single_tensor_spec ex_fs)) "a.npy" ex_a).
    reflexivity.
Defined.

(** With the expected shape (2, 2), the second line of the list file,
    whose array has the shape (1, 2), ends the run with the shape error;
    the first line has yielded its array. *)
Lemma from_file_list_shape_error_witness :
  from_file_list ex_fs "data" [2; 2]%Z "" "arr_0" ["train.list"]
  = ([ex_a],
     Some (ValueError "Shapes do not match: expected [2, 2], found [1, 2]"))
  /\ ends_with_shape_error
       (from_file_list ex_fs "data" [2; 2]%Z "" "arr_0" ["train.list"]).
Proof.
  split; [reflexivity|].
  apply (proj2 (proj1 (from_file_list_shape_error ex_fs "data" [2; 2]%Z "" "arr_0"
                         ["train.list"]))).
  exists ["a.npz" ++ newline], ("b.npz" ++ newline), [], ex_b.
  split; [reflexivity|]. split.
  - constructor; [|constructor]. exists ex_a. split; reflexivity.
  - split; [reflexivity|discriminate].
Defined.

End NumpyReaderExamples.

(* ------------------------------------------------------------------ *)
(** ** Proofs: the input and the loss of the sequence regressor         *)
(* ------------------------------------------------------------------ *)

Section RegressorProofs.
Import Regressor.
#[local] Open Scope R_scope.

Lemma broadcast_vec_same (f : R -> R -> R) (a b : list R) :
  length a = length b -> broadcast_vec f a b = Ok (zip_with f a b).
Proof.
  intros E. unfold broadcast_vec. now rewrite (proj2 (Nat.eqb_eq _ _) E).
Qed.

(** Without broadcasting, that is for two matrices of one shape, the
    operation is applied entry by entry. *)
Lemma broadcast_mat_same (f : R -> R -> R) (a b : list (list R)) :
  Forall2 (fun ra rb => length ra = length rb) a b ->
  broadcast_mat f a b = Ok (zip_with (zip_with f) a b).
Proof.
  intros H. unfold broadcast_mat.
  rewrite (proj2 (Nat.eqb_eq _ _) (Forall2_length _ _ _ H)).
  apply mapM_result_Ok.
  induction H as [|ra rb a b Hr _ IH]; cbn [zip zip_with]; constructor.
  - cbn [fst snd]. now apply broadcast_vec_same.
  - exact IH.
Qed.

Lemma tf_concat1_two (m0 m1 : list (list R)) (rest : list (list (list R)))
    (c : list (list R)) :
  tf_concat1 (m0 :: m1 :: rest) = Ok c -> is_ok (tf_concat1 [m0; m1]) = true.
Proof.
  unfold tf_concat1. cbn [forallb].
  destruct (length m1 =? length m0)%nat; cbn [andb]; [reflexivity | discriminate].
Qed.

Section Abstract.

Variable multilayer_projection :
  list (list R) -> option (list Z) -> (R -> R) -> bool -> R -> list (list R).
Variable linear : list (list R) -> Z -> list (list R).

Local Abbreviation init := (SequenceRegressor_init multilayer_projection linear).

(** A list of encoders that has an input for the perceptron has at least
    two encoders, and the input is the difference of the first two. *)
Lemma mlp_input_of_inv (encoders : list Encoder) (d : list (list R)) :
  mlp_input_of encoders = Ok d ->
  exists e0 e1 rest,
    encoders = e0 :: e1 :: rest
    /\ tf_subtract (encoded e0) (encoded e1) = Ok d.
Proof.
  unfold mlp_input_of.
  destruct (tf_concat1 (map encoded encoders)) as [c|e]; cbn [mbind result_bind];
    [|discriminate].
  destruct encoders as [|e0 [|e1 rest]].
  - discriminate.
  - rewrite py_index_0. cbn [mbind result_bind].
    rewrite py_index_short by (simpl; lia). discriminate.
  - rewrite py_index_0. cbn [mbind result_bind].
    rewrite py_index_1. cbn [mbind result_bind].
    destruct (tf_subtract (encoded e0) (encoded e1)) as [d'|e] eqn:Hsub;
      cbn [mbind result_bind]; [|discriminate].
    intros [= <-]. exists e0, e1, rest. auto.
Qed.

Lemma mlp_input_of_two (e0 e1 : Encoder) (rest : list Encoder) (d : list (list R)) :
  mlp_input_of (e0 :: e1 :: rest) = Ok d -> mlp_input_of [e0; e1] = Ok d.
Proof.
  intros H. destruct (mlp_input_of_inv _ _ H) as (e0' & e1' & rest' & [= <- <- <-] & Hd).
  unfold mlp_input_of in *.
  destruct (tf_concat1 (map encoded (e0 :: e1 :: rest))) as [c|e] eqn:Hc;
    [|discriminate].
  cbn [map] in Hc. apply tf_concat1_two in Hc.
  cbn [map]. destruct (tf_concat1 [encoded e0; encoded e1]); [|discriminate].
  cbn [mbind result_bind]. rewrite py_index_0. cbn [mbind result_bind].
  rewrite py_index_1. cbn [mbind result_bind]. rewrite Hd. reflexivity.
Qed.

Lemma init_inv (name : string) (encoders : list Encoder) (data_id : string)
    (layers : option (list Z)) (act : R -> R) (keep : R) (r : SequenceRegressor) :
  init name encoders data_id layers act keep = Ok r ->
  exists d,
    mlp_input_of encoders = Ok d
    /\ assert_shape_rows1 (linear (multilayer_projection d layers act false keep) 1)
       = Ok tt
    /\ predicted r
       = (fun train => linear (multilayer_projection d layers act train keep) 1)
    /\ cost r
       = (fun train gt =>
            diff ← broadcast_mat Rminus
                     (linear (multilayer_projection d layers act train keep) 1)
                     (expand_dims1 gt);
            Ok (tf_reduce_sum (tf_square diff))).
Proof.
  unfold SequenceRegressor_init.
  destruct (mlp_input_of encoders) as [d|e]; cbn [mbind result_bind]; [|discriminate].
  destruct (assert_shape_rows1 _) as [[]|e] eqn:Ha; cbn [mbind result_bind];
    [|discriminate].
  intros [= <-]. exists d. cbn [predicted cost]. auto.
Qed.

(** C4.  Whenever a regressor is constructed from a list of encoders, the
    list has a first and a second encoder and the input of the perceptron
    is the difference of their summaries, entry by entry when the two
    have one shape; the concatenation built before is not used: the
    prediction is the projection of the perceptron's output on that
    difference, and a regressor constructed from the first two encoders
    alone has the same prediction and the same loss. *)
Theorem regressor_input_is_difference (name : string) (encoders : list Encoder)
    (data_id : string) (layers : option (list Z)) (act : R -> R) (keep : R)
    (r : SequenceRegressor) :
  init name encoders data_id layers act keep = Ok r ->
  exists (e0 e1 : Encoder) (rest : list Encoder) (d : list (list R)),
    encoders = e0 :: e1 :: rest
    /\ mlp_input_of encoders = Ok d
    /\ tf_subtract (encoded e0) (encoded e1) = Ok d
    /\ (Forall2 (fun r0 r1 => length r0 = length r1) (encoded e0) (encoded e1) ->
        d = zip_with (zip_with Rminus) (encoded e0) (encoded e1))
    /\ predicted r
       = (fun train => linear (multilayer_projection d layers act train keep) 1)
    /\ exists r2,
         init name [e0; e1] data_id layers act keep = Ok r2
         /\ predicted r2 = predicted r
         /\ cost r2 = cost r.
Proof.
  intros Hinit.
  destruct (init_inv _ _ _ _ _ _ _ Hinit) as (d & Hd & Ha & Hp & Hc).
  destruct (mlp_input_of_inv _ _ Hd) as (e0 & e1 & rest & -> & Hsub).
  exists e0, e1, rest, d. repeat split; try assumption.
  - intros Hshape. unfold tf_subtract in Hsub.
    rewrite (broadcast_mat_same _ _ _ Hshape) in Hsub. congruence.
  - apply mlp_input_of_two in Hd.
    unfold SequenceRegressor_init. rewrite Hd. cbn [mbind result_bind].
    rewrite Ha. cbn [mbind result_bind].
    eexists. split; [reflexivity|]. cbn [predicted cost]. rewrite Hp, Hc. auto.
Qed.

End Abstract.

(** *** The loss on a zero input *)

Lemma zeros_repeat (x : list R) : zeros x -> x = repeat 0 (length x).
Proof.
  induction 1 as [|v x -> _ IH]; [reflexivity|]. cbn [length repeat]. now f_equal.
Qed.

Lemma dot_zeros (x w : list R) : zeros x -> dot x w = 0.
Proof.
  intros H. revert w. unfold dot.
  induction H as [|v x -> _ IH]; intros [|c w]; cbn [zip_with Rsum fold_right];
    try reflexivity.
  fold (Rsum (zip_with Rmult x w)). rewrite IH. lra.
Qed.

Lemma length_dense (l : DenseLayer) (x : list R) :
  length (dense l x) = Nat.min (length (weights l)) (length (biases l)).
Proof. unfold dense. apply length_zip_with. Qed.

Lemma dense_zeros (l : DenseLayer) (x : list R) :
  zeros x -> zeros (biases l) -> zeros (dense l x).
Proof.
  intros Hx Hb. unfold dense. revert Hb. generalize (biases l) as bs.
  induction (weights l) as [|w ws IH]; intros bs Hb; [constructor|].
  destruct Hb as [|b bs -> Hbs]; cbn [zip_with]; constructor.
  - rewrite (dot_zeros x w Hx). lra.
  - now apply IH.
Qed.

Lemma map_zeros (act : R -> R) (x : list R) :
  act 0 = 0 -> zeros x -> zeros (map act x).
Proof.
  intros Ha H. induction H as [|v x -> _ IH]; constructor; assumption.
Qed.

Lemma dropout_zeros (keep : R) (train : bool) (mask : nat -> bool) (x : list R) :
  zeros x -> zeros (dropout keep train mask x).
Proof.
  intros H. unfold dropout. destruct train; [|exact H].
  revert mask. induction H as [|v x -> _ IH]; intros mask; cbn [imap];
    constructor.
  - destruct (mask 0%nat); lra.
  - apply IH.
Qed.

Lemma hidden_layers_zeros (act : R -> R) (train : bool) (keep : R)
    (mask : nat -> nat -> bool) (layers : list (Z * DenseLayer)) :
  act 0 = 0 ->
  Forall (fun sl => zeros (biases (snd sl))) layers ->
  forall (k : nat) (x : list R),
    zeros x -> zeros (hidden_layers act train keep mask k layers x).
Proof.
  intros Ha Hl. induction Hl as [|[size layer] layers Hb _ IH]; intros k x Hx;
    cbn [hidden_layers]; [exact Hx|].
  apply IH. apply dropout_zeros. apply map_zeros; [exact Ha|].
  now apply dense_zeros.
Qed.

Lemma zip_snd_Forall {X Y : Type} (P : Y -> Prop) (xs : list X) (ys : list Y) :
  Forall P ys -> Forall (fun xy => P (snd xy)) (zip xs ys).
Proof.
  intros H. revert xs. induction H as [|y ys Hy _ IH]; intros [|x xs];
    cbn [zip zip_with]; constructor; auto.
Qed.

Lemma imap_rows_zeros {X : Type} (g : nat -> X -> list R) (rows : list X) :
  (forall i row, zeros (g i row)) -> Forall zeros (imap g rows).
Proof.
  revert g. induction rows as [|row rows IH]; intros g Hg; cbn [imap];
    constructor; [apply Hg | apply IH; intros; apply Hg].
Qed.

(** A difference of a matrix with itself has zero rows. *)
Lemma self_difference_zeros (m : list (list R)) :
  Forall zeros (zip_with (zip_with Rminus) m m).
Proof.
  induction m as [|row m IH]; cbn [zip_with]; constructor; [|exact IH].
  induction row as [|v row IHr]; cbn [zip_with]; constructor; [lra | exact IHr].
Qed.

Lemma cost_of_zero_rows (B : nat) :
  (diff ← broadcast_mat Rminus (repeat [0] B) (expand_dims1 (repeat 0 B));
   Ok (tf_reduce_sum (tf_square diff)))
  = Ok 0.
Proof.
  rewrite (broadcast_mat_same Rminus (repeat [0] B) (expand_dims1 (repeat 0 B))).
  - cbn [mbind result_bind]. f_equal.
    induction B as [|B IH]; [reflexivity|].
    unfold tf_reduce_sum, tf_square, expand_dims1, Rsum in *.
    cbn [repeat map zip_with fold_right]. rewrite IH. lra.
  - induction B as [|B IH]; cbn [repeat expand_dims1 map]; constructor;
      [reflexivity | exact IH].
Qed.

Section ZeroInput.

Variables (params : list DenseLayer) (mask : nat -> nat -> nat -> bool)
          (out : DenseLayer).

Local Abbreviation init_spec :=
  (SequenceRegressor_init (spec_multilayer_projection params mask)
                          (spec_linear out)).

(** The prediction on zero rows, when no layer has a bias and the
    nonlinearity fixes zero: zero rows again, as long as the output layer
    is. *)
Lemma predicted_zero_rows (d : list (list R)) (layers : option (list Z))
    (act : R -> R) (train : bool) (keep : R) :
  act 0 = 0 ->
  Forall (fun l => zeros (biases l)) params ->
  zeros (biases out) ->
  Forall zeros d ->
  spec_linear out (spec_multilayer_projection params mask d layers act train keep) 1
  = repeat (repeat 0 (Nat.min 1 (Nat.min (length (weights out))
                                         (length (biases out)))))
           (length d).
Proof.
  intros Ha Hp Ho Hd. unfold spec_linear, spec_multilayer_projection.
  assert (Hh : Forall zeros
                 (imap (fun i row =>
                          hidden_layers act train keep (mask i) 0
                            (zip (default [] layers) params) row) d)).
  { clear Ho. revert mask. induction Hd as [|row d Hr _ IH]; intros mask';
      cbn [imap]; constructor.
    - apply hidden_layers_zeros; auto.
      now apply (zip_snd_Forall (fun l => zeros (biases l))).
    - apply (IH (fun i => mask' (S i))). }
  rewrite <- (length_imap (fun i row =>
                hidden_layers act train keep (mask i) 0
                  (zip (default [] layers) params) row) d).
  induction Hh as [|h hs Hz _ IH]; [reflexivity|].
  cbn [map length repeat]. f_equal; [|exact IH].
  assert (Hrow : zeros (take (Z.to_nat 1) (dense out h))).
  { apply Forall_take. now apply dense_zeros. }
  rewrite (zeros_repeat _ Hrow). f_equal.
  rewrite length_take, length_dense. reflexivity.
Qed.

(** C5, as amended.  With a nonlinearity that maps 0 to 0 and layers
    whose biases are all zero, a regressor over two encoders with
    identical summaries has, on targets that are all 0, the training loss
    0, in training mode and outside it. *)
Theorem zero_input_zero_loss (name : string) (e0 e1 : Encoder) (data_id : string)
    (layers : option (list Z)) (act : R -> R) (keep : R) (train : bool)
    (r : SequenceRegressor) :
  act 0 = 0 ->
  Forall (fun l => zeros (biases l)) params ->
  zeros (biases out) ->
  encoded e0 = encoded e1 ->
  init_spec name [e0; e1] data_id layers act keep = Ok r ->
  train_loss r train (repeat 0 (length (encoded e0))) = Ok 0.
Proof.
  intros Ha Hp Ho He Hinit. unfold train_loss.
  destruct (init_inv _ _ _ _ _ _ _ _ _ Hinit) as (d & Hd & Hassert & _ & ->).
  destruct (mlp_input_of_inv _ _ Hd) as (e0' & e1' & rest & [= <- <- <-] & Hsub).
  unfold tf_subtract in Hsub. rewrite <- He in Hsub.
  rewrite (broadcast_mat_same Rminus (encoded e0) (encoded e0)) in Hsub
    by (apply Forall2_same_length_lookup_2; [reflexivity|]; congruence).
  injection Hsub as <-.
  pose proof (self_difference_zeros (encoded e0)) as Hz.
  assert (Hlen : length (zip_with (zip_with Rminus) (encoded e0) (encoded e0))
                 = length (encoded e0))
    by (rewrite length_zip_with; lia).
  rewrite (predicted_zero_rows _ layers act false keep Ha Hp Ho Hz) in Hassert.
  rewrite (predicted_zero_rows _ layers act train keep Ha Hp Ho Hz).
  rewrite Hlen in *.
  destruct (length (encoded e0)) as [|B] eqn:HB.
  - reflexivity.
  - assert (Hone : Nat.min 1 (Nat.min (length (weights out)) (length (biases out)))
                   = 1%nat).
    { unfold assert_shape_rows1 in Hassert. cbn [repeat forallb] in Hassert.
      rewrite repeat_length in Hassert.
      destruct (Nat.eqb_spec
                  (Nat.min 1 (Nat.min (length (weights out)) (length (biases out))))
                  1); [assumption | discriminate]. }
    rewrite Hone. exact (cost_of_zero_rows (S B)).
Qed.

End ZeroInput.

End RegressorProofs.

Section RegressorExamples.
Import Regressor.
#[local] Open Scope R_scope.

(** Three encoders: the third changes neither the input of the
    perceptron, which is the difference of the first two, nor the
    prediction and the loss. *)
Lemma regressor_input_is_difference_witness :
  exists r d,
    ex_init [ex_encoder; ex_encoder; ex_other_encoder] tanh = Ok r
    /\ mlp_input_of [ex_encoder; ex_encoder; ex_other_encoder] = Ok d
    /\ d = [[2 - 2; 3 - 3]]
    /\ exists r2, ex_init [ex_encoder; ex_encoder] tanh = Ok r2
                  /\ predicted r2 = predicted r /\ cost r2 = cost r.
Proof.
  eexists. 
  assert (H : ex_init [ex_encoder; ex_encoder; ex_other_encoder] tanh = Ok _)
    by reflexivity.
  destruct (regressor_input_is_difference _ _ _ _ _ _ _ _ _ H)
    as (e0 & e1 & rest & d & Heq & Hd & _ & Hdiff & _ & Hr2).
  injection Heq as <- <- <-.
  exists d. split; [exact H|]. split; [exact Hd|]. split; [|exact Hr2].
  apply Hdiff. repeat constructor.
Defined.

(** C5 (as stated, refuted).  With the logistic nonlinearity, two encoders
    with identical summaries and the target 0 give the loss 1/4: the
    hidden unit is 1/2 on the zero input. *)
Lemma zero_input_sigmoid_loss :
  exists r,
    ex_init [ex_encoder; ex_encoder] sigmoid = Ok r
    /\ train_loss r false [0] = Ok (1 / 4)
    /\ train_loss r false [0] <> Ok 0.
Proof.
  eexists. split; [reflexivity|].
  match goal with |- ?l = _ /\ _ => assert (E : l = Ok (1 / 4)) end.
  { cbn. change (Z.to_nat 1) with 1%nat. cbn. f_equal.
    unfold sigmoid, tf_reduce_sum, tf_square, dot, Rsum. cbn.
    replace (- ((2 - 2) * 1 + ((3 - 3) * 1 + 0) + 0)) with 0 by lra.
    rewrite exp_0. lra. }
  split; [exact E|]. rewrite E. intros [= H]. lra.
Qed.

Lemma tanh_zero : tanh 0 = 0.
Proof. unfold tanh. rewrite sinh_0. lra. Qed.

(** The amended claim on the default nonlinearity, [tanh], in training
    mode. *)
Lemma zero_input_zero_loss_witness :
  exists r,
    ex_init [ex_encoder; ex_encoder] tanh = Ok r
    /\ train_loss r true [0] = Ok 0.
Proof.
  eexists. split; [reflexivity|].
  apply (zero_input_zero_loss [ex_hidden] ex_mask ex_out "regressor"
           ex_encoder ex_encoder "target" (Some [1%Z]) tanh (1 / 2) true).
  - exact tanh_zero.
  - repeat constructor.
  - repeat constructor.
  - reflexivity.
  - reflexivity.
Defined.

End RegressorExamples.

(* ------------------------------------------------------------------ *)
(** ** Proofs: sums over lists and over indices                         *)
(* ------------------------------------------------------------------ *)

Section ListLemmas.

Context {X Y W : Type}.

Lemma list_as_seq (l : list X) (d : X) :
  l = map (fun i => nth i l d) (seq 0 (length l)).
Proof.
  induction l as [|x l IH]; [reflexivity|].
  cbn [length seq map nth]. f_equal.
  rewrite <- seq_shift, map_map. exact IH.
Qed.

Lemma zip_with_map_same (f : X -> Y -> W) {I : Type} (a : I -> X) (b : I -> Y)
    (l : list I) :
  zip_with f (map a l) (map b l) = map (fun i => f (a i) (b i)) l.
Proof. induction l as [|i l IH]; [reflexivity|]. cbn. now f_equal. Qed.

Lemma repeat_as_map (x : X) (n : nat) :
  repeat x n = map (fun _ => x) (seq 0 n).
Proof.
  generalize 0%nat. induction n as [|n IH]; intros k; [reflexivity|].
  cbn. f_equal. apply IH.
Qed.

Lemma map_ext_seq (f g : nat -> X) (n : nat) :
  (forall i, (i < n)%nat -> f i = g i) -> map f (seq 0 n) = map g (seq 0 n).
Proof.
  intros H. apply map_ext_in. intros i Hi. apply H.
  apply in_seq in Hi. lia.
Qed.

Lemma nth_zip_with (f : X -> Y -> W) (a : list X) (b : list Y) (i : nat)
    (da : X) (db : Y) (dc : W) :
  (i < length a)%nat -> (i < length b)%nat ->
  nth i (zip_with f a b) dc = f (nth i a da) (nth i b db).
Proof.
  revert b i. induction a as [|x a IH]; intros [|y b] [|i]; cbn; try lia;
    [reflexivity|]. intros. apply IH; lia.
Qed.

Lemma nth_map_in (f : X -> Y) (l : list X) (i : nat) (d : X) (d' : Y) :
  (i < length l)%nat -> nth i (map f l) d' = f (nth i l d).
Proof.
  revert i. induction l as [|x l IH]; intros [|i]; cbn; try lia;
    [reflexivity|]. intros. apply IH; lia.
Qed.

End ListLemmas.

Section SumLemmas.
Import Dual.
#[local] Open Scope R_scope.

Lemma val_dsum (v : list dual) : val (dsum v) = Rsum (map val v).
Proof.
  unfold Rsum, dsum. induction v as [|x v IH]; [reflexivity|].
  cbn [map fold_right dadd val]. now rewrite IH.
Qed.

Lemma tan_dsum (v : list dual) : tan (dsum v) = Rsum (map tan v).
Proof.
  unfold Rsum, dsum. induction v as [|x v IH]; [reflexivity|].
  cbn [map fold_right dadd tan]. now rewrite IH.
Qed.

Lemma val_dsum_upto (n : nat) (f : nat -> dual) :
  val (dsum_upto n f) = Rsum_upto n (fun i => val (f i)).
Proof. unfold dsum_upto, Rsum_upto. now rewrite val_dsum, map_map. Qed.

Lemma tan_dsum_upto (n : nat) (f : nat -> dual) :
  tan (dsum_upto n f) = Rsum_upto n (fun i => tan (f i)).
Proof. unfold dsum_upto, Rsum_upto. now rewrite tan_dsum, map_map. Qed.

Lemma Rsum_upto_ext (n : nat) (f g : nat -> R) :
  (forall i, (i < n)%nat -> f i = g i) -> Rsum_upto n f = Rsum_upto n g.
Proof. intros H. unfold Rsum_upto. now rewrite (map_ext_seq f g n H). Qed.

Lemma dsum_upto_ext (n : nat) (f g : nat -> dual) :
  (forall i, (i < n)%nat -> f i = g i) -> dsum_upto n f = dsum_upto n g.
Proof. intros H. unfold dsum_upto. now rewrite (map_ext_seq f g n H). Qed.

Lemma Rsum_repeat (c : R) (n : nat) : Rsum (repeat c n) = INR n * c.
Proof.
  induction n as [|n IH]; [cbn; lra|].
  rewrite S_INR. cbn [repeat Rsum fold_right]. fold (Rsum (repeat c n)).
  rewrite IH. lra.
Qed.

(** [tf.reduce_sum(m, axis=0)], column by column. *)
Lemma reduce_sum_axis0_columns (width : nat) (m : list (list dual)) :
  Forall (fun row => length row = width) m ->
  Tf.reduce_sum_axis0 width m
  = map (fun b => dsum (map (fun row => nth b row (const 0)) m)) (seq 0 width).
Proof.
  unfold Tf.reduce_sum_axis0.
  induction 1 as [|row m Hrow _ IH]; cbn [fold_right map].
  - cbn [dsum fold_right]. apply repeat_as_map.
  - rewrite IH.
    rewrite (list_as_seq row (const 0)) at 1. rewrite Hrow.
    apply zip_with_map_same.
Qed.

Lemma length_reduce_sum_axis0 (width : nat) (m : list (list dual)) :
  Forall (fun row => length row = width) m ->
  length (Tf.reduce_sum_axis0 width m) = width.
Proof.
  intros H. rewrite (reduce_sum_axis0_columns width m H).
  now rewrite length_map, length_seq.
Qed.

(** The same with the rows numbered. *)
Lemma reduce_sum_axis0_entries (rows width : nat) (m : list (list dual)) :
  has_shape rows width m ->
  Tf.reduce_sum_axis0 width m
  = map (fun b => dsum_upto rows (fun s => entry m s b)) (seq 0 width).
Proof.
  intros [Hlen Hrows]. rewrite (reduce_sum_axis0_columns width m Hrows).
  apply map_ext. intros b. unfold dsum_upto, entry. f_equal.
  rewrite (list_as_seq m []) at 1. rewrite map_map, Hlen. reflexivity.
Qed.

(** [tf.reduce_mean] of a vector that is given entry by entry. *)
Lemma reduce_mean_upto (n : nat) (f : nat -> dual) :
  Tf.reduce_mean (map f (seq 0 n)) = ddiv (dsum_upto n f) (const (INR n)).
Proof. unfold Tf.reduce_mean. now rewrite length_map, length_seq. Qed.

Lemma val_ddiv_const (a : dual) (k : R) : val (ddiv a (const k)) = val a / k.
Proof. reflexivity. Qed.

Lemma tan_ddiv_const (a : dual) (k : R) :
  k <> 0 -> tan (ddiv a (const k)) = tan a / k.
Proof. intros Hk. cbn. field. exact Hk. Qed.

End SumLemmas.

(* ------------------------------------------------------------------ *)
(** ** Proofs: the REINFORCE objective                                  *)
(* ------------------------------------------------------------------ *)

Section ShapeLemmas.
Import Dual.

Lemma has_shape_map {X Y : Type} (f : X -> Y) (rows cols : nat) (m : list (list X)) :
  has_shape rows cols m -> has_shape rows cols (map (map f) m).
Proof.
  intros [Hl Hr]. split; [now rewrite length_map|].
  apply Forall_map. eapply Forall_impl; [exact Hr|].
  intros row Hrow. cbn. now rewrite length_map.
Qed.

Lemma has_shape_zip_with {X Y W : Type} (f : X -> Y -> W) (rows cols : nat)
    (a : list (list X)) (b : list (list Y)) :
  has_shape rows cols a -> has_shape rows cols b ->
  has_shape rows cols (zip_with (zip_with f) a b).
Proof.
  intros [Hla Hra] [Hlb Hrb]. split; [rewrite length_zip_with; lia|].
  clear Hla Hlb. revert b Hrb.
  induction Hra as [|ra a Ha _ IH]; intros [|rb b] Hrb; cbn [zip_with];
    constructor.
  - rewrite length_zip_with. rewrite Ha, (Forall_inv Hrb). lia.
  - apply IH. exact (Forall_inv_tail Hrb).
Qed.

Lemma entry_map (f : dual -> dual) (rows cols : nat) (m : list (list dual))
    (s b : nat) :
  has_shape rows cols m -> (s < rows)%nat -> (b < cols)%nat ->
  entry (map (map f) m) s b = f (entry m s b).
Proof.
  intros [Hl Hr] Hs Hb. unfold entry.
  rewrite (nth_map_in (map f) m s [] []) by lia.
  apply nth_map_in.
  rewrite Forall_forall in Hr. rewrite (Hr (nth s m [])); [exact Hb|].
  apply list_elem_of_In, nth_In. lia.
Qed.

Lemma length_nth_row {X : Type} (rows cols : nat) (m : list (list X)) (s : nat) :
  has_shape rows cols m -> (s < rows)%nat -> length (nth s m []) = cols.
Proof.
  intros [Hl Hr] Hs. rewrite Forall_forall in Hr. apply Hr.
  apply list_elem_of_In, nth_In. lia.
Qed.

Lemma entry_zip_with (f : dual -> dual -> dual) (rows cols : nat)
    (a c : list (list dual)) (s b : nat) :
  has_shape rows cols a -> has_shape rows cols c ->
  (s < rows)%nat -> (b < cols)%nat ->
  entry (zip_with (zip_with f) a c) s b = f (entry a s b) (entry c s b).
Proof.
  intros Ha Hc Hs Hb. unfold entry.
  rewrite (nth_zip_with (zip_with f) a c s [] [] [])
    by (destruct Ha, Hc; lia).
  apply nth_zip_with.
  - now rewrite (length_nth_row rows cols a s Ha Hs).
  - now rewrite (length_nth_row rows cols c s Hc Hs).
Qed.

Lemma nth_map_seq {X : Type} (f : nat -> X) (n i : nat) (d : X) :
  (i < n)%nat -> nth i (map f (seq 0 n)) d = f i.
Proof.
  intros Hi. rewrite (nth_map_in f (seq 0 n) i 0%nat d) by now rewrite length_seq.
  now rewrite seq_nth.
Qed.

End ShapeLemmas.


Section SoftmaxLemmas.
Import Dual.
#[local] Open Scope R_scope.

Lemma Rsum_upto_scal (n : nat) (f : nat -> R) (k : R) :
  Rsum_upto n (fun i => f i * k) = Rsum_upto n f * k.
Proof.
  unfold Rsum_upto, Rsum. induction (seq 0 n) as [|i l IH]; cbn [map fold_right];
    [lra | rewrite IH; lra].
Qed.

Lemma Rsum_upto_pos (n : nat) (f : nat -> R) :
  (0 < n)%nat -> (forall i, 0 < f i) -> 0 < Rsum_upto n f.
Proof.
  intros Hn Hf. unfold Rsum_upto, Rsum.
  assert (H : forall l, 0 <= fold_right Rplus 0 (map f l)).
  { induction l as [|i l IH]; cbn [map fold_right]; [lra|].
    pose proof (Hf i). lra. }
  destruct n as [|n]; [lia|]. cbn [seq map fold_right].
  pose proof (Hf 0%nat). pose proof (H (seq 1 n)). lra.
Qed.

(** An entry of [tf.nn.softmax(m, dim=0)]: the exponential of the entry
    over the sum of the exponentials of its column. *)
Lemma softmax_dim0_entry (rows width : nat) (m : list (list dual)) (s b : nat) :
  has_shape rows width m -> (s < rows)%nat -> (b < width)%nat ->
  entry (Tf.softmax_dim0 width m) s b
  = ddiv (dexp (entry m s b))
         (dsum_upto rows (fun s' => dexp (entry m s' b))).
Proof.
  intros Hm Hs Hb. unfold Tf.softmax_dim0.
  pose proof (has_shape_map dexp rows width m Hm) as He.
  rewrite (reduce_sum_axis0_entries rows width _ He).
  unfold entry at 1.
  rewrite (nth_map_in _ (map (map dexp) m) s [] [])
    by (destruct He as [-> _]; exact Hs).
  rewrite (nth_zip_with ddiv _ _ b (const 0) (const 0) (const 0)).
  - fold (entry (map (map dexp) m) s b).
    rewrite (entry_map dexp rows width) by assumption.
    rewrite nth_map_seq by exact Hb. f_equal.
    apply dsum_upto_ext. intros s' Hs'.
    now rewrite (entry_map dexp rows width).
  - now rewrite (length_nth_row rows width _ s He Hs).
  - now rewrite length_map, length_seq.
Qed.

(** The values of a column of the softmax add up to one: the normalised
    probabilities of the samples of an example. *)
Lemma softmax_dim0_normalised (rows width : nat) (m : list (list dual)) (b : nat) :
  has_shape rows width m -> (0 < rows)%nat -> (b < width)%nat ->
  Rsum_upto rows (fun s => val (entry (Tf.softmax_dim0 width m) s b)) = 1.
Proof.
  intros Hm Hrows Hb.
  set (Z := Rsum_upto rows (fun s' => exp (val (entry m s' b)))).
  assert (HZ : 0 < Z).
  { apply Rsum_upto_pos; [exact Hrows|]. intros i. apply exp_pos. }
  rewrite (Rsum_upto_ext rows _ (fun s => exp (val (entry m s b)) * / Z)).
  - rewrite Rsum_upto_scal. fold Z. field. lra.
  - intros s Hs. rewrite (softmax_dim0_entry rows width m s b Hm Hs Hb).
    cbn [ddiv val dexp]. rewrite val_dsum_upto. reflexivity.
Qed.

End SoftmaxLemmas.

(* ------------------------------------------------------------------ *)
(** ** Proofs: rounding to [float32]                                    *)
(* ------------------------------------------------------------------ *)

Section Float32Proofs.
Import Float32.
#[local] Open Scope R_scope.

Lemma pow2_pos (e : Z) : 0 < pow2 e.
Proof. apply powerRZ_lt. lra. Qed.

Lemma pow2_add (a b : Z) : pow2 (a + b) = pow2 a * pow2 b.
Proof. apply powerRZ_add. lra. Qed.

Lemma pow2_neg (e : Z) : pow2 (- e) = / pow2 e.
Proof. apply powerRZ_neg'. Qed.

Lemma pow2_IZR (e : Z) : (0 <= e)%Z -> pow2 e = IZR (2 ^ e).
Proof.
  intros He. destruct e as [|p|p]; [reflexivity| |lia].
  unfold pow2. change (2 ^ Z.pos p)%Z with (Z.pow_pos 2 p).
  rewrite Zpower_pos_powerRZ. reflexivity.
Qed.

Lemma pow2_ge_1 (e : Z) : (0 <= e)%Z -> 1 <= pow2 e.
Proof.
  intros He. rewrite pow2_IZR by exact He. apply IZR_le.
  pose proof (Z.pow_pos_nonneg 2 e). lia.
Qed.

Lemma pow2_le (a b : Z) : (a <= b)%Z -> pow2 a <= pow2 b.
Proof.
  intros Hab. replace b with (a + (b - a))%Z by lia. rewrite pow2_add.
  pose proof (pow2_pos a). pose proof (pow2_ge_1 (b - a) ltac:(lia)). nra.
Qed.

Lemma pow2_cancel (e : Z) : pow2 (- e) * pow2 e = 1.
Proof. rewrite <- pow2_add. replace (- e + e)%Z with 0%Z by lia. reflexivity. Qed.

(** *** The exponent *)

Lemma exponent_from_found (fuel : nat) (x : R) (e0 : Z) :
  forall e : Z,
    (e <= e0)%Z -> (e0 - e <= Z.of_nat fuel)%Z ->
    (forall e', (e <= e' < e0)%Z -> pow2 (e' + 24) <= Rabs x) ->
    (Rabs x < pow2 (e0 + 24) \/ (e0 - e = Z.of_nat fuel)%Z) ->
    exponent_from fuel e x = e0.
Proof.
  induction fuel as [|fuel IH]; intros e He Hf Hlow Hup; cbn [exponent_from].
  - lia.
  - destruct (Rlt_dec (Rabs x) (pow2 (e + 24))) as [Hlt|Hge].
    + destruct (Z.eq_dec e e0) as [E|E]; [exact E|].
      specialize (Hlow e ltac:(lia)). lra.
    + destruct (Z.eq_dec e e0) as [E|E].
      * subst e0. destruct Hup as [Hup|Hup]; [contradiction|lia].
      * apply IH; try lia.
        -- intros e' He'. apply Hlow. lia.
        -- destruct Hup as [Hup|Hup]; [left; exact Hup|right; lia].
Qed.

Lemma exponent_spec (x : R) (e0 : Z) :
  (-149 <= e0 <= 104)%Z ->
  Rabs x < pow2 (e0 + 24) ->
  ((e0 = -149)%Z \/ pow2 (e0 + 23) <= Rabs x) ->
  exponent x = e0.
Proof.
  intros He Hup Hlow. unfold exponent.
  apply exponent_from_found; try lia.
  - intros e' He'. destruct Hlow as [->|Hlow]; [lia|].
    eapply Rle_trans; [|exact Hlow]. apply pow2_le. lia.
  - left. exact Hup.
Qed.

(** *** The nearest integer *)

Lemma Int_part_plus (m : Z) (f : R) : 0 <= f < 1 -> Int_part (IZR m + f) = m.
Proof.
  intros Hf. symmetry.
  exact (proj1 (Int_part_frac_part_spec (IZR m + f) m f Hf eq_refl)).
Qed.

Lemma rne_below (m : Z) (f : R) : 0 <= f < 1 / 2 -> rne (IZR m + f) = m.
Proof.
  intros Hf. unfold rne. rewrite Int_part_plus by lra.
  destruct (Rlt_dec (IZR m + f - IZR m) (1 / 2)); [reflexivity|lra].
Qed.

Lemma rne_above (m : Z) (f : R) : 1 / 2 < f < 1 -> rne (IZR m + f) = (m + 1)%Z.
Proof.
  intros Hf. unfold rne. rewrite Int_part_plus by lra.
  destruct (Rlt_dec (IZR m + f - IZR m) (1 / 2)); [lra|].
  destruct (Rlt_dec (1 / 2) (IZR m + f - IZR m)); [reflexivity|lra].
Qed.

Lemma rne_tie (m : Z) :
  rne (IZR m + 1 / 2) = if Z.even m then m else (m + 1)%Z.
Proof.
  unfold rne. rewrite Int_part_plus by lra.
  destruct (Rlt_dec (IZR m + 1 / 2 - IZR m) (1 / 2)); [lra|].
  destruct (Rlt_dec (1 / 2) (IZR m + 1 / 2 - IZR m)); [lra|reflexivity].
Qed.

Lemma rne_exact (m : Z) : rne (IZR m) = m.
Proof.
  replace (IZR m) with (IZR m + 0) by lra. apply rne_below. lra.
Qed.

(** *** Rounding *)

Lemma round_spec (x : R) (e : Z) :
  (-149 <= e <= 104)%Z ->
  Rabs x < pow2 (e + 24) ->
  ((e = -149)%Z \/ pow2 (e + 23) <= Rabs x) ->
  round x = IZR (rne (x * pow2 (- e))) * pow2 e.
Proof.
  intros He Hup Hlow. unfold round.
  rewrite (exponent_spec x e He Hup Hlow). reflexivity.
Qed.

(** A number with a significand of 24 bits is its own rounding. *)
Lemma round_representable (m e : Z) :
  (-149 <= e <= 104)%Z ->
  (2 ^ 23 <= Z.abs m < 2 ^ 24)%Z ->
  round (IZR m * pow2 e) = IZR m * pow2 e.
Proof.
  intros He Hm.
  assert (Habs : Rabs (IZR m * pow2 e) = IZR (Z.abs m) * pow2 e).
  { rewrite Rabs_mult, <- abs_IZR, (Rabs_pos_eq (pow2 e)); [reflexivity|].
    left. apply pow2_pos. }
  pose proof (pow2_pos e) as Hp.
  rewrite (round_spec _ e He).
  - rewrite Rmult_assoc, (Rmult_comm (pow2 e)), pow2_cancel, Rmult_1_r, rne_exact.
    reflexivity.
  - rewrite Habs. replace (e + 24)%Z with (24 + e)%Z by lia.
    rewrite pow2_add, (pow2_IZR 24) by lia.
    apply Rmult_lt_compat_r; [exact Hp|]. apply IZR_lt. lia.
  - right. rewrite Habs. replace (e + 23)%Z with (23 + e)%Z by lia.
    rewrite pow2_add, (pow2_IZR 23) by lia.
    apply Rmult_le_compat_r; [lra|]. apply IZR_le. lia.
Qed.

(** An integer of at most 24 bits is its own rounding. *)
Lemma round_small_int (z : Z) :
  (Z.abs z <= 2 ^ 24)%Z -> round (IZR z) = IZR z.
Proof.
  intros Hz.
  destruct (Z.eq_dec z 0%Z) as [->|Hnz].
  { rewrite (round_spec 0 (-149)); [|lia| |left; reflexivity].
    - rewrite Rmult_0_l, rne_exact. lra.
    - rewrite Rabs_R0. apply pow2_pos. }
  destruct (Z.eq_dec (Z.abs z) (2 ^ 24)%Z) as [E|E].
  { assert (Hm : z = (Z.sgn z * 2 ^ 23 * 2 ^ 1)%Z) by lia.
    rewrite Hm at 1 2. rewrite mult_IZR, <- (pow2_IZR 1) by lia.
    rewrite round_representable by lia.
    rewrite (pow2_IZR 1), <- mult_IZR by lia. reflexivity. }
  set (k := Z.log2 (Z.abs z)).
  assert (Hk : (2 ^ k <= Z.abs z < 2 ^ Z.succ k)%Z)
    by (apply Z.log2_spec; lia).
  assert (Hk0 : (0 <= k)%Z) by apply Z.log2_nonneg.
  assert (Hk23 : (k <= 23)%Z).
  { destruct (Z_le_gt_dec k 23) as [H|H]; [exact H|exfalso].
    assert (2 ^ 24 <= 2 ^ k)%Z by (apply Z.pow_le_mono_r; lia). lia. }
  assert (Hsplit : (2 ^ (23 - k) * 2 ^ k = 2 ^ 23)%Z)
    by (rewrite <- Z.pow_add_r by lia; f_equal; lia).
  assert (Hsplit' : (2 ^ (23 - k) * 2 ^ Z.succ k = 2 ^ 24)%Z)
    by (rewrite <- Z.pow_add_r by lia; f_equal; lia).
  assert (Hpos : (0 < 2 ^ (23 - k))%Z) by (apply Z.pow_pos_nonneg; lia).
  assert (Hrep : IZR z = IZR (z * 2 ^ (23 - k)) * pow2 (k - 23)).
  { rewrite mult_IZR, <- (pow2_IZR (23 - k)) by lia.
    rewrite Rmult_assoc, <- pow2_add.
    replace (23 - k + (k - 23))%Z with 0%Z by lia.
    change (pow2 0) with 1. lra. }
  rewrite Hrep at 1. rewrite round_representable; [symmetry; exact Hrep|lia|].
  rewrite Z.abs_mul, (Z.abs_eq (2 ^ (23 - k))) by lia. nia.
Qed.

(** An integer with more bits: [q * 2 ^ e + r] is rounded to [q] or
    [q + 1] times [2 ^ e], as [r] is below or above the half of
    [2 ^ e], and to the even one of the two at the half. *)
Lemma round_int_at (q e r : Z) :
  (0 <= e <= 104)%Z ->
  (2 ^ 23 <= q < 2 ^ 24)%Z ->
  (0 <= r < 2 ^ e)%Z ->
  round (IZR (q * 2 ^ e + r))
  = IZR ((q + (if (2 * r <? 2 ^ e)%Z then 0
               else if (2 ^ e <? 2 * r)%Z then 1
               else if Z.even q then 0 else 1)) * 2 ^ e).
Proof.
  intros He Hq Hr.
  assert (Hpe : (0 < 2 ^ e)%Z) by (apply Z.pow_pos_nonneg; lia).
  pose proof (pow2_pos e) as Hp.
  assert (HpI : pow2 e = IZR (2 ^ e)) by (apply pow2_IZR; lia).
  assert (Hx : IZR (q * 2 ^ e + r) = (IZR q + IZR r / pow2 e) * pow2 e).
  { rewrite plus_IZR, mult_IZR, <- HpI. field. lra. }
  assert (Hf0 : 0 <= IZR r / pow2 e).
  { apply Rmult_le_pos; [apply IZR_le; lia|]. left. apply Rinv_0_lt_compat, Hp. }
  assert (Hf1 : IZR r / pow2 e < 1).
  { apply (Rmult_lt_reg_r (pow2 e)); [exact Hp|].
    unfold Rdiv. rewrite Rmult_assoc, Rinv_l by lra.
    rewrite HpI. rewrite Rmult_1_r, Rmult_1_l. apply IZR_lt. lia. }
  assert (Hfe : IZR r / pow2 e * pow2 e = IZR r) by (field; lra).
  rewrite (round_spec _ e); [|lia| |].
  - rewrite Hx at 1. rewrite Rmult_assoc, (Rmult_comm (pow2 e)), pow2_cancel,
      Rmult_1_r.
    rewrite mult_IZR, <- HpI. f_equal. f_equal.
    set (f := IZR r / pow2 e) in *.
    destruct (Z.ltb_spec (2 * r) (2 ^ e)) as [H1|H1].
    + rewrite Z.add_0_r. apply rne_below. split; [exact Hf0|].
      apply (IZR_lt (2 * r)) in H1. rewrite mult_IZR, <- HpI in H1. nra.
    + destruct (Z.ltb_spec (2 ^ e) (2 * r)) as [H2|H2].
      * apply rne_above. split; [|exact Hf1].
        apply (IZR_lt _ (2 * r)) in H2. rewrite mult_IZR, <- HpI in H2. nra.
      * assert (Hhalf : f = 1 / 2).
        { assert (E : (2 * r = 2 ^ e)%Z) by lia.
          apply (f_equal IZR) in E. rewrite mult_IZR, <- HpI in E. nra. }
        rewrite Hhalf, rne_tie.
        destruct (Z.even q); [now rewrite Z.add_0_r|reflexivity].
  - rewrite Rabs_pos_eq by (apply IZR_le; nia).
    replace (e + 24)%Z with (24 + e)%Z by lia.
    rewrite pow2_add, (pow2_IZR 24), HpI, <- mult_IZR by lia.
    apply IZR_lt. nia.
  - right. rewrite Rabs_pos_eq by (apply IZR_le; nia).
    replace (e + 23)%Z with (23 + e)%Z by lia.
    rewrite pow2_add, (pow2_IZR 23), HpI, <- mult_IZR by lia.
    apply IZR_le. nia.
Qed.

End Float32Proofs.

Section ObjectiveProofs.
Import Dual RlTrainer.
#[local] Open Scope R_scope.

Variables END_TOKEN PAD_TOKEN : string.
Variable self : ReinforceObjective.
Variable decoder : Decoder.

Local Abbreviation B := (Z.to_nat (batch_size decoder)).
Local Abbreviation S_ := (Z.to_nat (sample_size self)).
Local Abbreviation history := (decoding_loop decoder false true (temperature self)).
Local Abbreviation score :=
  (_score_with_reward_function END_TOKEN PAD_TOKEN self decoder).
Local Abbreviation sample := (RlTrainer.sample END_TOKEN PAD_TOKEN self decoder).
Local Abbreviation stacked_samples :=
  (RlTrainer.stacked_samples END_TOKEN PAD_TOKEN self decoder).

Lemma length_transpose {X : Type} (d : X) (width : nat) (m : list (list X)) :
  length (transpose d width m) = width.
Proof. unfold transpose. now rewrite length_map, length_seq. Qed.

(** The scoring gives one reward per column of the batch. *)
Lemma score_length (references hypotheses : list (list Z)) (rs : list R) :
  score references hypotheses = Ok rs -> length rs = B.
Proof.
  unfold _score_with_reward_function. intros H.
  apply mapM_result_inv, Forall2_length in H. rewrite <- H.
  rewrite length_zip, !length_transpose. lia.
Qed.

Lemma xent_value (labels : list (list Z)) (lgs : list (list (list dual)))
    (x : list (list dual)) :
  Tf.sparse_softmax_cross_entropy_with_logits labels lgs = Ok x ->
  x = zip_with (zip_with Tf.xent1) labels lgs.
Proof.
  unfold Tf.sparse_softmax_cross_entropy_with_logits.
  destruct (Tf.all_true _); [|discriminate]. now intros [= <-].
Qed.

Lemma word_logprobs_shape (h : Histories) :
  histories_shaped B h ->
  has_shape (length (output_symbols h)) B
    (Tf.negative (zip_with (zip_with Tf.xent1) (output_symbols h) (logits h))).
Proof.
  intros (Ht & Hl & Hs). unfold Tf.negative. apply has_shape_map.
  apply has_shape_zip_with; split; auto.
Qed.

Lemma sample_inv (k : nat) (rw slp : list dual) :
  sample k = Ok (rw, slp) ->
  (exists rs, score (train_inputs decoder) (output_symbols (history k)) = Ok rs
              /\ rw = map const rs)
  /\ slp = Tf.reduce_sum_axis0 B
             (Tf.negative (zip_with (zip_with Tf.xent1)
                             (output_symbols (history k)) (logits (history k)))).
Proof.
  unfold RlTrainer.sample.
  destruct (score _ _) as [rs|e] eqn:Hs; cbn [mbind result_bind]; [|discriminate].
  destruct (Tf.sparse_softmax_cross_entropy_with_logits _ _) as [x|e] eqn:Hx;
    cbn [mbind result_bind]; [|discriminate].
  apply xent_value in Hx. subst x. intros [= <- <-]. eauto.
Qed.

Lemma sample_shape (k : nat) (rw slp : list dual) :
  histories_shaped B (history k) ->
  sample k = Ok (rw, slp) -> length rw = B /\ length slp = B.
Proof.
  intros Hh Hk. destruct (sample_inv k rw slp Hk) as ((rs & Hrs & ->) & ->).
  split.
  - rewrite length_map. exact (score_length _ _ _ Hrs).
  - apply length_reduce_sum_axis0. exact (proj2 (word_logprobs_shape _ Hh)).
Qed.

(** C6.  The sentence log-probability of a sampled sequence is, for
    every column of the batch, the sum over all positions of the time
    axis of the negated cross-entropy of the sampled symbol under the
    logits of that position, that is of the log-softmax of the symbol;
    neither a length nor an end symbol enters, so the positions after the
    end of a sequence are summed like the others. *)
Theorem sentence_logprob_unmasked (k : nat) (rw slp : list dual) :
  histories_shaped B (history k) ->
  sample k = Ok (rw, slp) ->
  let T := length (output_symbols (history k)) in
  let symbol := fun t b => nth b (nth t (output_symbols (history k)) []) 0%Z in
  let logit := fun t b => nth b (nth t (logits (history k)) []) [] in
  length slp = B
  /\ forall b, (b < B)%nat ->
       nth b slp (const 0)
       = dsum_upto T (fun t => dneg (Tf.xent1 (symbol t b) (logit t b)))
       /\ val (nth b slp (const 0))
          = Rsum_upto T (fun t =>
              val (nth (Z.to_nat (symbol t b)) (logit t b) (const 0))
              - ln (Rsum (map (fun x => exp (val x)) (logit t b)))).
Proof.
  intros Hh Hk T symbol logit.
  split; [exact (proj2 (sample_shape k rw slp Hh Hk))|].
  destruct (sample_inv k rw slp Hk) as (_ & ->).
  pose proof (word_logprobs_shape _ Hh) as Hw.
  intros b Hb.
  assert (E : nth b (Tf.reduce_sum_axis0 B
                       (Tf.negative (zip_with (zip_with Tf.xent1)
                          (output_symbols (history k)) (logits (history k)))))
                  (const 0)
              = dsum_upto T (fun t => dneg (Tf.xent1 (symbol t b) (logit t b)))).
  { rewrite (reduce_sum_axis0_entries _ _ _ Hw).
    rewrite nth_map_seq by exact Hb.
    apply dsum_upto_ext. intros t Ht.
    destruct Hh as (HT & Hl & Hs).
    unfold Tf.negative.
    rewrite (entry_map dneg T B) by
      (try apply has_shape_zip_with; try split; auto).
    f_equal. unfold entry.
    rewrite (nth_zip_with (zip_with Tf.xent1) _ _ t [] [] []) by (fold T; lia).
    apply nth_zip_with.
    - rewrite (length_nth_row T B); [exact Hb | split; auto | exact Ht].
    - rewrite (length_nth_row T B); [exact Hb | split; auto | exact Ht]. }
  split; [exact E|].
  rewrite E, val_dsum_upto. apply Rsum_upto_ext. intros t Ht.
  unfold Tf.xent1. cbn [dneg dsub dln val]. rewrite val_dsum, map_map.
  cbn [dexp val]. lra.
Qed.

Lemma stacked_samples_inv (r0 lp0 : list (list dual)) :
  stacked_samples = Ok (r0, lp0) ->
  exists samples,
    Forall2 (fun k y => sample k = Ok y) (seq 0 S_) samples
    /\ r0 = map fst samples /\ lp0 = map snd samples.
Proof.
  unfold RlTrainer.stacked_samples.
  destruct (mapM _ _) as [samples|e] eqn:Hm; cbn [mbind result_bind]; [|discriminate].
  apply mapM_result_inv in Hm. unfold Tf.stack.
  intros [= <- <-]. exists samples. repeat split; auto.
Qed.

(** The two stacked arrays have one row per sample and one column per
    example of the batch. *)
Lemma stacked_samples_shape (r0 lp0 : list (list dual)) :
  decoder_shaped self decoder ->
  stacked_samples = Ok (r0, lp0) ->
  has_shape S_ B r0 /\ has_shape S_ B lp0.
Proof.
  intros Hd H. destruct (stacked_samples_inv r0 lp0 H) as (samples & HF & -> & ->).
  pose proof (Forall2_length _ _ _ HF) as Hlen. rewrite length_seq in Hlen.
  assert (Hrows : Forall (fun y : list dual * list dual =>
                            length (fst y) = B /\ length (snd y) = B) samples).
  { apply Forall_forall. intros [rw slp] Hin.
    apply list_elem_of_lookup in Hin as (i & Hi).
    destruct (Forall2_lookup_r _ _ _ _ _ HF Hi) as (k & _ & Hk).
    exact (sample_shape k rw slp (Hd k) Hk). }
  repeat split.
  - now rewrite length_map.
  - apply Forall_map. eapply Forall_impl; [exact Hrows|]. now intros y [].
  - now rewrite length_map.
  - apply Forall_map. eapply Forall_impl; [exact Hrows|]. now intros y [].
Qed.

Lemma softmax_dim0_shape (rows : nat) (m : list (list dual)) :
  has_shape rows B m -> has_shape rows B (Tf.softmax_dim0 B m).
Proof.
  intros Hm. unfold Tf.softmax_dim0.
  pose proof (has_shape_map dexp rows B m Hm) as [Hl Hr].
  split; [now rewrite length_map|].
  apply Forall_map. eapply Forall_impl; [exact Hr|].
  intros row Hrow. cbn beta.
  rewrite length_zip_with, Hrow, (length_reduce_sum_axis0 B _ Hr). lia.
Qed.

(** The batch loss as a sum over the batch of sums over the samples. *)
Lemma batch_loss_sum (rewards probs : list (list dual)) :
  has_shape S_ B rewards -> has_shape S_ B probs ->
  batch_loss self decoder rewards probs
  = let surrogate :=
      ddiv (dsum_upto B (fun b =>
              dsum_upto S_ (fun s =>
                dmul (stop_gradient (dneg (entry rewards s b)))
                     (entry probs s b))))
           (const (INR B)) in
    if Rlt_dec 0 (ce_smoothing self)
    then dadd surrogate (dmul (const (ce_smoothing self)) (cost decoder))
    else surrogate.
Proof.
  intros Hr Hp. unfold batch_loss. cbn zeta.
  assert (Hsr : has_shape S_ B (Tf.stop_gradient (Tf.negative rewards))).
  { unfold Tf.stop_gradient, Tf.negative. now do 2 apply has_shape_map. }
  assert (Hsc : has_shape S_ B
                  (Tf.multiply (Tf.stop_gradient (Tf.negative rewards)) probs)).
  { unfold Tf.multiply. now apply has_shape_zip_with. }
  rewrite (reduce_sum_axis0_entries S_ B _ Hsc), reduce_mean_upto.
  assert (E : dsum_upto B (fun b =>
                dsum_upto S_ (fun s =>
                  entry (Tf.multiply (Tf.stop_gradient (Tf.negative rewards)) probs)
                        s b))
              = dsum_upto B (fun b =>
                  dsum_upto S_ (fun s =>
                    dmul (stop_gradient (dneg (entry rewards s b)))
                         (entry probs s b)))).
  { apply dsum_upto_ext. intros b Hb. apply dsum_upto_ext. intros s Hs.
    unfold Tf.multiply.
    rewrite (entry_zip_with dmul S_ B) by assumption.
    unfold Tf.stop_gradient, Tf.negative.
    rewrite (entry_map stop_gradient S_ B) by (try apply has_shape_map; assumption).
    rewrite (entry_map dneg S_ B) by assumption. reflexivity. }
  rewrite E. reflexivity.
Qed.

Lemma loss_inv (vars vars' : Baseline) (l : dual) (summ : Summaries) :
  loss END_TOKEN PAD_TOKEN self decoder vars = Ok (l, summ, vars') ->
  exists r0 lp0,
    stacked_samples = Ok (r0, lp0)
    /\ l = batch_loss self decoder
             (if subtract_baseline self
              then fst (fst (subtract_running_baseline self decoder vars r0))
              else r0)
             (if normalize self
              then Tf.softmax_dim0 B (Tf.scale lp0 (alpha self))
              else lp0)
    /\ summ = mkSummaries
                (if subtract_baseline self
                 then Some (snd (fst (subtract_running_baseline self decoder vars r0)))
                 else None)
                (val l)
    /\ vars' = (if subtract_baseline self
               then snd (subtract_running_baseline self decoder vars r0)
               else vars).
Proof.
  unfold loss.
  destruct stacked_samples as [[r0 lp0]|e]; cbn [mbind result_bind]; [|discriminate].
  intros H. exists r0, lp0. split; [reflexivity|].
  destruct (subtract_baseline self); cbn in H; injection H as <- <- <-; auto.
Qed.

(** C1.  The loss of a batch with at least one example is the mean over
    the batch of the sum over the samples of the product of the negated
    reward, with its gradient stopped, and the log-probability, or the
    normalised probability when [normalize] is set; the rewards are the
    ones left by the baseline when [subtract_baseline] is set.  For
    [ce_smoothing > 0] the cross-entropy loss of the decoder times
    [ce_smoothing] is added.  So the value of the loss is the mean of the
    sums of [- reward * probability], and its tangent is the same with
    the tangent of the probability: no gradient passes through the
    reward.  The normalised probabilities of the samples of an example
    add up to one, when there is a sample at all.  With one sample, no normalisation and [ce_smoothing = 0] the
    value is the mean over the batch of [- reward * logprob]. *)
Theorem reinforce_loss_formula (vars vars' : Baseline) (l : dual) (summ : Summaries) :
  (0 < B)%nat ->
  decoder_shaped self decoder ->
  loss END_TOKEN PAD_TOKEN self decoder vars = Ok (l, summ, vars') ->
  exists r0 lp0 rewards probs : list (list dual),
    stacked_samples = Ok (r0, lp0)
    /\ rewards = (if subtract_baseline self
                  then fst (fst (subtract_running_baseline self decoder vars r0))
                  else r0)
    /\ probs = (if normalize self
                then Tf.softmax_dim0 B (Tf.scale lp0 (alpha self))
                else lp0)
    /\ l = (let surrogate :=
              ddiv (dsum_upto B (fun b =>
                      dsum_upto S_ (fun s =>
                        dmul (stop_gradient (dneg (entry rewards s b)))
                             (entry probs s b))))
                   (const (INR B)) in
            if Rlt_dec 0 (ce_smoothing self)
            then dadd surrogate (dmul (const (ce_smoothing self)) (cost decoder))
            else surrogate)
    /\ val l
       = Rsum_upto B (fun b =>
           Rsum_upto S_ (fun s =>
             - val (entry rewards s b) * val (entry probs s b))) / INR B
         + (if Rlt_dec 0 (ce_smoothing self)
            then ce_smoothing self * val (cost decoder) else 0)
    /\ tan l
       = Rsum_upto B (fun b =>
           Rsum_upto S_ (fun s =>
             - val (entry rewards s b) * tan (entry probs s b))) / INR B
         + (if Rlt_dec 0 (ce_smoothing self)
            then ce_smoothing self * tan (cost decoder) else 0)
    /\ (normalize self = true -> (0 < S_)%nat ->
        forall b, (b < B)%nat ->
          Rsum_upto S_ (fun s => val (entry probs s b)) = 1)
    /\ (sample_size self = 1%Z -> normalize self = false ->
        ce_smoothing self = 0 ->
        val l = Rsum_upto B (fun b =>
                  - val (entry rewards 0 b) * val (entry lp0 0 b)) / INR B).
Proof.
  intros HB Hd Hloss.
  destruct (loss_inv _ _ _ _ Hloss) as (r0 & lp0 & Hst & Hl & _ & _).
  destruct (stacked_samples_shape r0 lp0 Hd Hst) as (Hr0 & Hlp0).
  set (rewards := if subtract_baseline self
                  then fst (fst (subtract_running_baseline self decoder vars r0))
                  else r0) in *.
  set (probs := if normalize self
                then Tf.softmax_dim0 B (Tf.scale lp0 (alpha self))
                else lp0) in *.
  assert (Hr : has_shape S_ B rewards).
  { unfold rewards. destruct (subtract_baseline self); [|exact Hr0].
    cbn [subtract_running_baseline fst]. unfold Tf.sub_scalar.
    now apply has_shape_map. }
  assert (Hp : has_shape S_ B probs).
  { unfold probs. destruct (normalize self); [|exact Hlp0].
    apply softmax_dim0_shape. unfold Tf.scale. now apply has_shape_map. }
  rewrite (batch_loss_sum rewards probs Hr Hp) in Hl. cbn zeta in Hl.
  assert (HBne : INR B <> 0) by (apply not_0_INR; lia).
  assert (Hval : val l
       = Rsum_upto B (fun b =>
           Rsum_upto S_ (fun s =>
             - val (entry rewards s b) * val (entry probs s b))) / INR B
         + (if Rlt_dec 0 (ce_smoothing self)
            then ce_smoothing self * val (cost decoder) else 0)).
  { rewrite Hl.
    assert (E : forall x, val (ddiv (dsum_upto B (fun b =>
                      dsum_upto S_ (fun s =>
                        dmul (stop_gradient (dneg (entry rewards s b)))
                             (entry probs s b)))) (const (INR B))) + x
                = Rsum_upto B (fun b =>
                    Rsum_upto S_ (fun s =>
                      - val (entry rewards s b) * val (entry probs s b))) / INR B + x).
    { intros x. rewrite val_ddiv_const, val_dsum_upto. do 2 f_equal.
      apply Rsum_upto_ext. intros b _. rewrite val_dsum_upto.
      apply Rsum_upto_ext. intros s _. reflexivity. }
    destruct (Rlt_dec 0 (ce_smoothing self)).
    - cbn [dadd val]. rewrite E. reflexivity.
    - rewrite <- E. lra. }
  exists r0, lp0, rewards, probs.
  split; [exact Hst|]. split; [reflexivity|]. split; [reflexivity|].
  split; [exact Hl|]. split; [exact Hval|]. split; [|split].
  - rewrite Hl.
    assert (E : forall x, tan (ddiv (dsum_upto B (fun b =>
                      dsum_upto S_ (fun s =>
                        dmul (stop_gradient (dneg (entry rewards s b)))
                             (entry probs s b)))) (const (INR B))) + x
                = Rsum_upto B (fun b =>
                    Rsum_upto S_ (fun s =>
                      - val (entry rewards s b) * tan (entry probs s b))) / INR B + x).
    { intros x. rewrite (tan_ddiv_const _ _ HBne), tan_dsum_upto. do 2 f_equal.
      apply Rsum_upto_ext. intros b _. rewrite tan_dsum_upto.
      apply Rsum_upto_ext. intros s _. cbn. lra. }
    destruct (Rlt_dec 0 (ce_smoothing self)).
    + cbn [dadd tan]. rewrite E. cbn. lra.
    + rewrite <- E. lra.
  - intros Hn HS b Hb. unfold probs. rewrite Hn.
    apply softmax_dim0_normalised; [|exact HS|exact Hb].
    unfold Tf.scale. now apply has_shape_map.
  - intros HS1 Hn Hce. rewrite Hval.
    destruct (Rlt_dec 0 (ce_smoothing self)) as [Hlt|_]; [lra|].
    rewrite HS1. change (Z.to_nat 1) with 1%nat.
    assert (Hpl : probs = lp0) by (unfold probs; now rewrite Hn).
    rewrite Hpl. rewrite Rplus_0_r. f_equal.
    apply Rsum_upto_ext. intros b _. unfold Rsum_upto, Rsum. cbn. lra.
Qed.

End ObjectiveProofs.

Section BaselineProofs.
Import Dual RlTrainer.
#[local] Open Scope R_scope.

Variables END_TOKEN PAD_TOKEN : string.
Variable self : ReinforceObjective.

Local Abbreviation loss := (RlTrainer.loss END_TOKEN PAD_TOKEN self).
Local Abbreviation train := (RlTrainer.train END_TOKEN PAD_TOKEN self).
Local Abbreviation stacked := (RlTrainer.stacked_samples END_TOKEN PAD_TOKEN self).
Local Abbreviation constant := (constant_rewards END_TOKEN PAD_TOKEN self).

(** [tf.reduce_sum] of a matrix, entry by entry. *)
Lemma val_reduce_sum_entries (rows cols : nat) (m : list (list dual)) :
  has_shape rows cols m ->
  val (Tf.reduce_sum m)
  = Rsum_upto rows (fun s => Rsum_upto cols (fun b => val (entry m s b))).
Proof.
  intros [Hl Hr]. unfold Tf.reduce_sum. rewrite val_dsum, map_map.
  unfold Rsum_upto at 1. rewrite (list_as_seq m []) at 1. rewrite map_map, Hl.
  f_equal. apply map_ext_seq. intros s Hs.
  rewrite val_dsum. unfold Rsum_upto, entry. f_equal.
  rewrite (list_as_seq (nth s m []) (const 0)) at 1. rewrite map_map.
  rewrite (length_nth_row rows cols m s); [reflexivity | split; auto | exact Hs].
Qed.

Lemma val_reduce_sum_repeat (c : R) (rows cols : nat) :
  val (Tf.reduce_sum (repeat (repeat (const c) cols) rows))
  = INR rows * (INR cols * c).
Proof.
  unfold Tf.reduce_sum. rewrite val_dsum, map_map, map_repeat, Rsum_repeat.
  f_equal. rewrite val_dsum, map_repeat. apply Rsum_repeat.
Qed.

Lemma entry_sub_scalar (rows cols : nat) (m : list (list dual)) (x : dual)
    (s b : nat) :
  has_shape rows cols m -> (s < rows)%nat -> (b < cols)%nat ->
  entry (Tf.sub_scalar m x) s b = dsub (entry m s b) x.
Proof.
  intros Hm Hs Hb. unfold Tf.sub_scalar.
  now rewrite (entry_map (fun v => dsub v x) rows cols).
Qed.

(** One step on a batch whose rewards are all [c]: what the two
    variables hold after it, and the baseline that is recorded. *)
Lemma loss_constant (decoder : Decoder) (c : R) (vars : Baseline) :
  subtract_baseline self = true ->
  constant decoder c ->
  let n := IZR (batch_size decoder * sample_size self) in
  let total :=
    INR (Z.to_nat (sample_size self)) * (INR (Z.to_nat (batch_size decoder)) * c) in
  let counter' := Float32.round (reward_counter vars + Float32.round n) in
  let sum' := Float32.round (reward_sum vars + total) in
  exists l,
    loss decoder vars
    = Ok (l, mkSummaries (Some (sum' / Rmax counter' 1)) (val l),
          mkBaseline counter' sum').
Proof.
  intros Hsb (lp0 & Hst) n total counter' sum'.
  unfold RlTrainer.loss. rewrite Hst. cbn [mbind result_bind]. rewrite Hsb.
  cbn [subtract_running_baseline]. rewrite val_reduce_sum_repeat.
  eexists. reflexivity.
Qed.

(** *** Steps of reward 3 *)

Lemma round_one : Float32.round 1 = 1.
Proof. apply (round_small_int 1). cbn. lia. Qed.

Lemma threes_counter_step (n : Z) :
  (0 <= n)%Z ->
  Float32.round (IZR (threes_counter n) + Float32.round 1)
  = IZR (threes_counter (n + 1)).
Proof.
  intros Hn. rewrite round_one. unfold threes_counter.
  change 1 with (IZR 1). rewrite <- plus_IZR.
  destruct (Z_lt_le_dec n 16777216) as [H|H].
  - rewrite !Z.min_l by lia. apply round_small_int.
    change (2 ^ 24)%Z with 16777216%Z. lia.
  - rewrite !Z.min_r by lia.
    change (16777216 + 1)%Z with (8388608 * 2 ^ 1 + 1)%Z.
    rewrite round_int_at; [reflexivity|lia| |];
      change (2 ^ 23)%Z with 8388608%Z; change (2 ^ 24)%Z with 16777216%Z;
      change (2 ^ 1)%Z with 2%Z; lia.
Qed.

Lemma threes_sum_step (n : Z) :
  (0 <= n)%Z ->
  Float32.round (IZR (threes_sum n) + 3) = IZR (threes_sum (n + 1)).
Proof.
  intros Hn. change 3 with (IZR 3). rewrite <- plus_IZR. unfold threes_sum.
  assert (P23 : (2 ^ 23 = 8388608)%Z) by reflexivity.
  assert (P24 : (2 ^ 24 = 16777216)%Z) by reflexivity.
  assert (P1 : (2 ^ 1 = 2)%Z) by reflexivity.
  assert (P2 : (2 ^ 2 = 4)%Z) by reflexivity.
  assert (P3 : (2 ^ 3 = 8)%Z) by reflexivity.
  destruct (Z.leb_spec n 5592405) as [H1|H1].
  - destruct (Z.leb_spec (n + 1) 5592405) as [H2|H2].
    + replace (3 * n + 3)%Z with (3 * (n + 1))%Z by lia.
      apply round_small_int. lia.
    + assert (n = 5592405%Z) as -> by lia.
      change (3 * 5592405 + 3)%Z with (8388609 * 2 ^ 1 + 0)%Z.
      rewrite round_int_at; [reflexivity|lia|lia|lia].
  - destruct (Z.eqb_spec n 5592406) as [->|H2].
    + change (16777218 + 3)%Z with (8388610 * 2 ^ 1 + 1)%Z.
      rewrite round_int_at; [reflexivity|lia|lia|lia].
    + destruct (Z.leb_spec (n + 1) 5592405) as [H3|_]; [lia|].
      destruct (Z.eqb_spec (n + 1) 5592406) as [H3|_]; [lia|].
      destruct (Z.leb_spec n 18175318) as [H3|H3].
      * set (k := (n - 5592407)%Z).
        assert (Hk : (0 <= k <= 12582911)%Z) by (unfold k; lia).
        destruct (Z.leb_spec (n + 1) 18175318) as [H4|H4].
        -- replace (16777220 + 4 * (n + 1 - 5592407))%Z
             with (16777224 + 4 * k)%Z by (unfold k; lia).
           destruct (Z_lt_le_dec k 4194303) as [Hlow|Hhigh].
           ++ (* below 2 ^ 25: a tie, rounded to the even significand *)
              replace (16777220 + 4 * k + 3)%Z
                with ((8388611 + 2 * k) * 2 ^ 1 + 1)%Z by lia.
              rewrite round_int_at; [|lia|lia|lia].
              change (2 * 1 <? 2 ^ 1)%Z with false.
              change (2 ^ 1 <? 2 * 1)%Z with false. cbv iota.
              replace (Z.even (8388611 + 2 * k)) with false
                by (rewrite Z.even_add, Z.even_mul; reflexivity).
              f_equal. lia.
           ++ (* from 2 ^ 25 on: above the half of the last place *)
              replace (16777220 + 4 * k + 3)%Z
                with ((4194305 + k) * 2 ^ 2 + 3)%Z by lia.
              rewrite round_int_at; [|lia|lia|lia].
              change (2 * 3 <? 2 ^ 2)%Z with false.
              change (2 ^ 2 <? 2 * 3)%Z with true. cbv iota.
              f_equal. lia.
        -- replace (16777220 + 4 * k + 3)%Z with (8388608 * 2 ^ 3 + 3)%Z
             by (unfold k; lia).
           rewrite round_int_at; [reflexivity|lia|lia|lia].
      * destruct (Z.leb_spec (n + 1) 18175318) as [H4|_]; [lia|].
        change (67108864 + 3)%Z with (8388608 * 2 ^ 3 + 3)%Z.
        rewrite round_int_at; [reflexivity|lia|lia|lia].
Qed.

(** Steps on batches of one example with one sample of reward 3, from
    the variables of the closed form after [n] such steps. *)
Lemma train_threes (batches : list Decoder) :
  subtract_baseline self = true ->
  sample_size self = 1%Z ->
  Forall (fun d => batch_size d = 1%Z /\ constant d 3) batches ->
  forall n : Z, (0 <= n)%Z ->
    exists out vars',
      train batches (mkBaseline (IZR (threes_counter n)) (IZR (threes_sum n)))
      = Ok (out, vars')
      /\ length out = length batches
      /\ vars' = mkBaseline
                   (IZR (threes_counter (n + Z.of_nat (length batches))))
                   (IZR (threes_sum (n + Z.of_nat (length batches))))
      /\ forall i ob, baselines out !! i = Some ob ->
           ob = Some (IZR (threes_sum (n + Z.of_nat (S i)))
                      / Rmax (IZR (threes_counter (n + Z.of_nat (S i)))) 1).
Proof.
  intros Hsb HS HF. induction HF as [|d batches [HB Hc] _ IH]; intros n Hn.
  - exists [], (mkBaseline (IZR (threes_counter n)) (IZR (threes_sum n))).
    cbn [RlTrainer.train length Z.of_nat]. rewrite Z.add_0_r.
    repeat split. intros i ob Hi. discriminate.
  - destruct (loss_constant d 3 (mkBaseline (IZR (threes_counter n))
                                            (IZR (threes_sum n))) Hsb Hc)
      as (l & Hl).
    cbn zeta in Hl. cbn [reward_counter reward_sum] in Hl.
    rewrite HB, HS in Hl. change (1 * 1)%Z with 1%Z in Hl.
    change (Z.to_nat 1) with 1%nat in Hl. cbn [INR] in Hl.
    replace (1 * (1 * 3)) with 3 in Hl by lra.
    rewrite (threes_counter_step n Hn), (threes_sum_step n Hn) in Hl.
    destruct (IH (n + 1)%Z ltac:(lia)) as (out & vars' & Ht & Hlen & Hv & Hbl).
    eexists. exists vars'. cbn [RlTrainer.train]. rewrite Hl.
    cbn [mbind result_bind]. rewrite Ht. cbn [mbind result_bind].
    split; [reflexivity|]. split; [cbn [length]; now rewrite Hlen|].
    split.
    { rewrite Hv. cbn [length]. rewrite Nat2Z.inj_succ.
      replace (n + 1 + Z.of_nat (length batches))%Z
        with (n + Z.succ (Z.of_nat (length batches)))%Z by lia.
      reflexivity. }
    intros [|i] ob; cbn [baselines map lookup list_lookup snd rl_reward_baseline].
    + intros [= <-]. reflexivity.
    + intros Hi. rewrite (Hbl i ob Hi).
      replace (n + 1 + Z.of_nat (S i))%Z with (n + Z.of_nat (S (S i)))%Z by lia.
      reflexivity.
Qed.

(** C2 (not met by the code).  The two variables are [float32]
    variables, and an increment that is less than half of the last place
    of what a variable holds is rounded away.  On batches of one example
    with one sample whose reward is always 3, from the initial variables,
    a run of at least 18175318 steps ends with the counter at [2 ^ 24],
    although more steps have been made, with the sum at [2 ^ 26], and
    with the baseline 4 at its last step: the baseline is not the mean
    reward 3, and the adjusted reward [3 - 4] does not tend to 0. *)
Theorem running_baseline_saturates (batches : list Decoder) :
  subtract_baseline self = true ->
  sample_size self = 1%Z ->
  Forall (fun d => batch_size d = 1%Z /\ constant d 3) batches ->
  (18175318 <= Z.of_nat (length batches))%Z ->
  exists out vars',
    train batches Baseline_initial = Ok (out, vars')
    /\ reward_counter vars' = 16777216
    /\ reward_sum vars' = 67108864
    /\ last (baselines out) = Some (Some 4).
Proof.
  intros Hsb HS HF HN.
  destruct (train_threes batches Hsb HS HF 0%Z ltac:(lia))
    as (out & vars' & Ht & Hlen & Hv & Hbl).
  assert (Hend : forall m : Z, (18175318 <= m)%Z ->
             threes_counter m = 16777216%Z /\ threes_sum m = 67108864%Z).
  { intros m Hm. unfold threes_counter, threes_sum. split; [lia|].
    destruct (Z.leb_spec m 5592405); [lia|].
    destruct (Z.eqb_spec m 5592406); [lia|].
    destruct (Z.leb_spec m 18175318); [|reflexivity].
    assert (m = 18175318%Z) as -> by lia. reflexivity. }
  exists out, vars'. split; [exact Ht|].
  destruct (Hend (0 + Z.of_nat (length batches))%Z ltac:(lia)) as [Hc Hs].
  rewrite Hv, Hc, Hs. cbn [reward_counter reward_sum].
  split; [reflexivity|]. split; [reflexivity|].
  assert (Hlast : last (baselines out) = baselines out !! pred (length batches)).
  { rewrite last_lookup. unfold baselines. now rewrite length_map, Hlen. }
  rewrite Hlast.
  destruct (baselines out !! pred (length batches)) as [ob|] eqn:Hlk.
  2: { apply lookup_ge_None in Hlk. unfold baselines in Hlk.
       rewrite length_map, Hlen in Hlk. lia. }
  rewrite (Hbl _ ob Hlk).
  destruct (Hend (0 + Z.of_nat (S (pred (length batches))))%Z ltac:(lia))
    as [-> ->].
  do 2 f_equal. rewrite Rmax_left by lra. lra.
Qed.

End BaselineProofs.

Section ObjectiveExamples.
Import Dual RlTrainer.
#[local] Open Scope R_scope.

Lemma ex_decoder_shaped (c : R) : decoder_shaped (ex_objective c) ex_decoder.
Proof. intros k. repeat constructor. Qed.

(** The sampled sequence of the example ends at its first position; the
    second position is summed all the same: the log-probability of the
    sentence is [2 * ln (1/2)]. *)
Lemma sentence_logprob_unmasked_witness :
  exists rw slp,
    sample "</s>" "<pad>" (ex_objective 1) ex_decoder 0 = Ok (rw, slp)
    /\ val (nth 0 slp (const 0)) = - (2 * ln 2).
Proof.
  eexists. eexists. split; [reflexivity|].
  pose proof (sentence_logprob_unmasked "</s>" "<pad>" (ex_objective 1) ex_decoder
                0%nat _ _ (ex_decoder_shaped 1 0%nat) eq_refl) as H.
  cbn zeta in H. destruct H as [_ H].
  destruct (H 0%nat ltac:(cbn; lia)) as [_ Hv].
  etransitivity; [exact Hv|].
  unfold Rsum_upto, Rsum. cbn. rewrite exp_0.
  change (Z.to_nat 0) with 0%nat. change (Z.to_nat 1) with 1%nat. cbn.
  replace (1 + (1 + 0)) with 2 by lra. lra.
Defined.

Lemma ex_bandit_decoder_shaped (c : R) :
  decoder_shaped (ex_bandit_objective c) ex_decoder.
Proof. intros k. repeat constructor. Qed.

(** The bandit objective on the example: the reward is 1 and the
    log-probability of the sample is [- 2 ln 2], so the loss is [2 ln 2]. *)
Lemma reinforce_loss_formula_witness :
  exists l summ vars',
    loss "</s>" "<pad>" (ex_bandit_objective 1) ex_decoder Baseline_initial
    = Ok (l, summ, vars')
    /\ val l = 2 * ln 2.
Proof.
  eexists. eexists. eexists. split; [reflexivity|].
  destruct (reinforce_loss_formula "</s>" "<pad>" (ex_bandit_objective 1) ex_decoder
              Baseline_initial _ _ _ ltac:(cbn; lia)
              (ex_bandit_decoder_shaped 1) eq_refl)
    as (r0 & lp0 & rewards & probs & Hst & -> & -> & _ & _ & _ & _ & Hsp).
  specialize (Hsp eq_refl eq_refl eq_refl).
  injection Hst as <- <-.
  etransitivity; [exact Hsp|].
  unfold Rsum_upto, Rsum, entry. cbn.
  unfold Tf.xent1.
  change (Z.to_nat 0) with 0%nat. change (Z.to_nat 1) with 1%nat.
  cbn. rewrite exp_0.
  replace (1 + (1 + 0)) with 2 by lra. lra.
Defined.

(** 18175318 steps on the example with reward 3: the counter has
    stopped at [2 ^ 24] and the last baseline is 4. *)
Lemma running_baseline_saturates_witness :
  exists out vars',
    train "</s>" "<pad>" (ex_objective 3)
      (repeat ex_decoder (Z.to_nat 18175318)) Baseline_initial
    = Ok (out, vars')
    /\ reward_counter vars' = 16777216
    /\ reward_sum vars' = 67108864
    /\ last (baselines out) = Some (Some 4).
Proof.
  apply (running_baseline_saturates "</s>" "<pad>" (ex_objective 3)
           (repeat ex_decoder (Z.to_nat 18175318)) eq_refl eq_refl).
  - apply List.Forall_forall. intros d Hd. apply repeat_spec in Hd. subst d.
    split; [reflexivity|]. eexists. reflexivity.
  - rewrite repeat_length. lia.
Defined.

End ObjectiveExamples.

(* ------------------------------------------------------------------ *)
(** ** More on the numpy readers                                        *)
(* ------------------------------------------------------------------ *)

Section RstripProofs.
Import NumpyReader NumpyShapes.

Lemma rstrip_whitespace (w : string) : whitespace w = true -> rstrip w = "".
Proof.
  induction w as [|c w IH]; cbn [whitespace rstrip]; [reflexivity|].
  intros [Hc Hw]%andb_true_iff. rewrite (IH Hw), Hc. reflexivity.
Qed.

(** Stripping a line that is followed by white space, such as the line
    end, gives what stripping the line gives, and stripping twice changes
    nothing. *)
Lemma rstrip_trailing (s w : string) :
  whitespace w = true ->
  rstrip (s ++ w) = rstrip s /\ rstrip (rstrip s) = rstrip s.
Proof.
  intros Hw. split.
  - induction s as [|c s IH]; simpl.
    + now apply rstrip_whitespace.
    + now rewrite IH.
  - clear w Hw. induction s as [|c s IH]; cbn [rstrip]; [reflexivity|].
    destruct (rstrip s) as [|c' t] eqn:E.
    + destruct (is_space c) eqn:Hc; cbn [rstrip]; [reflexivity|].
      now rewrite Hc.
    + change (rstrip (String c (String c' t))) with
        (match rstrip (String c' t) with
         | EmptyString => if is_space c then EmptyString else String c EmptyString
         | String a s0 => String c (String a s0)
         end).
      now rewrite IH.
Qed.

End RstripProofs.


Section ReaderRunProofs.
Import NumpyReader NumpyShapes.

Context {A : Type}.
Variable fs : gmap string (file A).
Variables (prefix : string) (expected : list Z)
          (suffix default_tensor_name : string).

Local Abbreviation load_entry := (load_entry fs prefix suffix default_tensor_name).
Local Abbreviation load_lines := (load_lines fs prefix expected suffix default_tensor_name).
Local Abbreviation load := (load fs prefix expected suffix default_tensor_name).

(** X1.  White space at the end of a line of a list file, the line end
    included, does not reach the path: the run is the same with and
    without it. *)
Theorem load_ignores_trailing_whitespace (line w : string) (rest : list string) :
  whitespace w = true ->
  load_lines ((line ++ w) :: rest) = load_lines (line :: rest).
Proof.
  intros Hw. cbn [NumpyReader.load_lines]. unfold NumpyReader.load_entry.
  now rewrite (proj1 (rstrip_trailing line w Hw)).
Qed.

Lemma load_files_app (files1 files2 : list string) :
  load (files1 ++ files2) = and_then (load files1) (load files2).
Proof.
  induction files1 as [|f files1 IH]; cbn [app NumpyReader.load].
  - now rewrite and_then_nil_l.
  - destruct (read_lines fs f) as [lines|e].
    + now rewrite IH, and_then_assoc.
    + reflexivity.
Qed.

(** X2.  A run over two file lists, one after the other, is the run over
    the first followed, unless that one raised, by the run over the
    second; the same holds of the lines of one list file. *)
Theorem load_app (files1 files2 lines1 lines2 : list string) :
  load (files1 ++ files2) = and_then (load files1) (load files2)
  /\ load_lines (lines1 ++ lines2)
     = and_then (load_lines lines1) (load_lines lines2).
Proof. split; [apply load_files_app | apply load_lines_app]. Qed.

Lemma load_lines_all (lines : list string) (arrs : list (ndarray A)) :
  Forall2 (fun line arr => load_entry line = Ok arr /\ shape arr = expected)
          lines arrs ->
  load_lines lines = (arrs, None).
Proof.
  induction 1 as [|line arr lines arrs [Hl Hs] _ IH]; cbn [NumpyReader.load_lines];
    [reflexivity|].
  rewrite Hl. cbn [mbind result_bind].
  rewrite (check_shape_match expected arr Hs), IH. reflexivity.
Qed.

(** X3.  When every list file can be read and every line names an entry
    of the expected shape, the run yields exactly these arrays, in the
    order of the files and of the lines, and ends without an exception. *)
Theorem load_complete (files : list string) (liness : list (list string))
    (arrs : list (ndarray A)) :
  Forall2 (fun f lines => read_lines fs f = Ok lines) files liness ->
  Forall2 (fun line arr => load_entry line = Ok arr /\ shape arr = expected)
          (concat liness) arrs ->
  from_file_list fs prefix expected suffix default_tensor_name files
  = (arrs, None).
Proof.
  unfold from_file_list. intros Hf. revert arrs.
  induction Hf as [|f lines files liness Hr _ IH]; intros arrs Ha;
    cbn [NumpyReader.load concat] in *.
  - inversion Ha. reflexivity.
  - apply Forall2_app_inv_l in Ha as (a1 & a2 & H1 & H2 & ->).
    rewrite Hr, (load_lines_all lines a1 H1), (IH a2 H2). reflexivity.
Qed.

(** X4.  A run ends at the first failure.  After lines that load with
    the expected shape, a line whose entry cannot be loaded or has
    another shape ends the run with its exception; a list file that does
    not exist ends it with [FileNotFoundError].  What was yielded before
    stays yielded, and nothing that comes later is read. *)
Theorem load_stops_at_first_failure :
  (forall (good : list string) (arrs : list (ndarray A)) (bad : string)
          (rest : list string) (e : exn),
      Forall2 (fun line arr => load_entry line = Ok arr /\ shape arr = expected)
              good arrs ->
      (load_entry bad = Raise e
       \/ exists arr, load_entry bad = Ok arr /\ shape arr <> expected
                      /\ e = ValueError (shape_mismatch expected (shape arr))) ->
      load_lines (good ++ bad :: rest) = (arrs, Some e))
  /\ (forall (files : list string) (ys : list (ndarray A)) (missing : string)
             (rest : list string),
        load files = (ys, None) ->
        fs !! missing = None ->
        load (files ++ missing :: rest) = (ys, Some (FileNotFoundError missing))).
Proof.
  split.
  - intros good arrs bad rest e Hgood Hbad.
    rewrite load_lines_app, (load_lines_all good arrs Hgood).
    cbn [NumpyReader.load_lines].
    destruct Hbad as [Hbad | (arr & Hbad & Hs & ->)]; rewrite Hbad;
      cbn [mbind result_bind].
    + unfold and_then. cbn. now rewrite app_nil_r.
    + rewrite (check_shape_mismatch expected arr Hs).
      unfold and_then. cbn. now rewrite app_nil_r.
  - intros files ys missing rest Hrun Hmiss.
    rewrite load_files_app, Hrun. cbn [NumpyReader.load]. unfold read_lines.
    rewrite Hmiss. unfold and_then. cbn. now rewrite app_nil_r.
Qed.

(** *** Concatenation *)

Lemma size_of_nonneg (sh : list Z) :
  Forall (fun d => (0 <= d)%Z) sh -> (0 <= size_of sh)%Z.
Proof.
  induction 1 as [|d sh Hd _ IH]; cbn [size_of fold_right]; [lia|].
  fold (size_of sh). nia.
Qed.

(** [np.concatenate] succeeds exactly on a list that is not empty, of
    arrays that have a first dimension and agree on the others. *)
Lemma np_concatenate0_ok_iff (arrays : list (ndarray A)) :
  is_ok (np_concatenate0 arrays) = true
  <-> arrays <> []
      /\ exists trailing, Forall (fun a => exists d, shape a = d :: trailing) arrays.
Proof.
  split.
  - unfold np_concatenate0. destruct arrays as [|first rest]; [discriminate|].
    destruct (shape first) as [|d0 trailing] eqn:Hs; [discriminate|].
    destruct (forallb _ _) eqn:Hc; [|discriminate]. intros _.
    split; [discriminate|]. exists trailing.
    rewrite forallb_forall in Hc. apply Forall_forall. intros a Hin.
    apply list_elem_of_In, Hc, bool_decide_eq_true in Hin as [Ht Hne].
    destruct (shape a) as [|d t]; [congruence|]. cbn in Ht. subst t. eauto.
  - intros (Hne & trailing & Hall).
    now rewrite (np_concatenate0_compatible arrays trailing Hne Hall).
Qed.

Lemma np_concatenate0_keeps_well_formed (arrays : list (ndarray A)) (r : ndarray A) :
  Forall well_formed arrays ->
  np_concatenate0 arrays = Ok r ->
  well_formed r.
Proof.
  intros Hwf Hr.
  assert (Hok : is_ok (np_concatenate0 arrays) = true) by now rewrite Hr.
  apply np_concatenate0_ok_iff in Hok as (Hne & trailing & Hall).
  rewrite (np_concatenate0_compatible arrays trailing Hne Hall) in Hr.
  injection Hr as <-.
  assert (Htr : Forall (fun d => (0 <= d)%Z) trailing).
  { destruct arrays as [|a rest]; [congruence|].
    destruct (Forall_inv Hall) as (d & Hd).
    destruct (Forall_inv Hwf) as [Hdims _]. rewrite Hd in Hdims.
    exact (Forall_inv_tail Hdims). }
  clear Hne.
  assert (H : (0 <= fold_right Z.add 0 (map leading arrays))%Z
              /\ Z.of_nat (length (concat (map data arrays)))
                 = (fold_right Z.add 0 (map leading arrays) * size_of trailing)%Z).
  { induction arrays as [|a arrays IH]; cbn [map concat fold_right length];
      [split; lia|].
    destruct (Forall_inv Hall) as (d & Hd).
    destruct (Forall_inv Hwf) as [Hdims Hlen]. rewrite Hd in Hdims, Hlen.
    destruct (IH (Forall_inv_tail Hwf) (Forall_inv_tail Hall)) as [IH1 IH2].
    unfold leading at 1 3. rewrite Hd. cbn [hd].
    pose proof (Forall_inv Hdims) as Hd0. cbn beta in Hd0.
    split; [lia|].
    rewrite length_app, Nat2Z.inj_add, IH2, Hlen. cbn [size_of fold_right].
    fold (size_of trailing). lia. }
  destruct H as [H1 H2]. split; cbn [shape data].
  - constructor; assumption.
  - rewrite H2. reflexivity.
Qed.

(** X5.  The concatenation of arrays that numpy can store is one: no
    dimension is negative and the number of entries is the product of
    the dimensions.  So the array that [single_tensor] returns for
    several paths of such arrays is one that numpy can store. *)
Theorem np_concatenate0_well_formed :
  (forall (arrays : list (ndarray A)) (r : ndarray A),
      Forall well_formed arrays ->
      np_concatenate0 arrays = Ok r ->
      well_formed r)
  /\ (forall (files : list string) (arrs : list (ndarray A)) (r : ndarray A),
        length files <> 1%nat ->
        Forall2 (fun f a => fs !! f = Some (Npy a)) files arrs ->
        Forall well_formed arrs ->
        single_tensor fs files = Ok (Array r) ->
        well_formed r).
Proof.
  split; [exact np_concatenate0_keeps_well_formed|].
  intros files arrs r Hlen Hload Hwf. unfold single_tensor.
  destruct (Nat.eqb_spec (length files) 1); [contradiction|].
  rewrite (mapM_result_Ok (np_load fs) files (map Array arrs)).
  - cbn [mbind result_bind].
    rewrite (mapM_result_Ok as_array (map Array arrs) arrs).
    + cbn [mbind result_bind].
      destruct (np_concatenate0 arrs) as [r'|e] eqn:Hc; [|discriminate].
      intros [= <-]. exact (np_concatenate0_keeps_well_formed arrs r' Hwf Hc).
    + clear. induction arrs; cbn [map]; constructor; auto.
  - apply Forall2_fmap_r. eapply Forall2_impl; [exact Hload|].
    intros f a Hf. cbn beta. unfold np_load. now rewrite Hf.
Qed.


(** X7.  [single_tensor] of several paths that hold arrays succeeds
    exactly when the arrays have a first dimension and agree on the
    dimensions after it; for arrays of other shapes it raises. *)
Theorem single_tensor_ok_iff (files : list string) (arrs : list (ndarray A)) :
  length files <> 1%nat ->
  Forall2 (fun f a => fs !! f = Some (Npy a)) files arrs ->
  is_ok (single_tensor fs files) = true
  <-> arrs <> []
      /\ exists trailing, Forall (fun a => exists d, shape a = d :: trailing) arrs.
Proof.
  intros Hlen Hload. rewrite <- np_concatenate0_ok_iff.
  unfold single_tensor.
  destruct (Nat.eqb_spec (length files) 1); [contradiction|].
  rewrite (mapM_result_Ok (np_load fs) files (map Array arrs)).
  - cbn [mbind result_bind].
    rewrite (mapM_result_Ok as_array (map Array arrs) arrs).
    + cbn [mbind result_bind]. now destruct (np_concatenate0 arrs).
    + clear. induction arrs; cbn [map]; constructor; auto.
  - apply Forall2_fmap_r. eapply Forall2_impl; [exact Hload|].
    intros f a Hf. cbn beta. unfold np_load. now rewrite Hf.
Qed.

End ReaderRunProofs.

Section ReaderRunExamples.
Import NumpyReader NumpyShapes.

Lemma load_ignores_trailing_whitespace_witness :
  load_lines ex_fs "data" [2; 2]%Z "" "arr_0" ["a.npz" ++ newline]
  = load_lines ex_fs "data" [2; 2]%Z "" "arr_0" ["a.npz"].
Proof.
  apply (load_ignores_trailing_whitespace ex_fs "data" [2; 2]%Z "" "arr_0"
           "a.npz" newline []).
  reflexivity.
Defined.

(** A list file with one line, read twice. *)
Lemma load_complete_witness :
  from_file_list (<["one.list" := Text ["a.npz" ++ newline]]> ex_fs)
    "data" [2; 2]%Z "" "arr_0" ["one.list"; "one.list"]
  = ([ex_a; ex_a], None).
Proof.
  apply (load_complete (<["one.list" := Text ["a.npz" ++ newline]]> ex_fs)
           "data" [2; 2]%Z "" "arr_0" ["one.list"; "one.list"]
           [["a.npz" ++ newline]; ["a.npz" ++ newline]] [ex_a; ex_a]).
  - repeat constructor.
  - repeat constructor.
Defined.

Lemma load_stops_at_first_failure_witness :
  load_lines ex_fs "data" [2; 2]%Z "" "arr_0"
    (["a.npz" ++ newline] ++ ("b.npz" ++ newline) :: ["a.npz" ++ newline])
  = ([ex_a],
     Some (ValueError "Shapes do not match: expected [2, 2], found [1, 2]"))
  /\ load ex_fs "data" [2; 2]%Z "" "arr_0" ([] ++ "dev.list" :: ["train.list"])
     = ([], Some (FileNotFoundError "dev.list")).
Proof.
  pose proof (load_stops_at_first_failure ex_fs "data" [2; 2]%Z "" "arr_0")
    as [H1 H2].
  split.
  - apply (H1 ["a.npz" ++ newline] [ex_a] ("b.npz" ++ newline)
              ["a.npz" ++ newline]).
    + repeat constructor.
    + right. exists ex_b. repeat split. discriminate.
  - apply (H2 [] [] "dev.list" ["train.list"]); reflexivity.
Defined.

Lemma np_concatenate0_well_formed_witness :
  well_formed (mkNdarray [3; 2]%Z [1; 2; 3; 4; 5; 6]%Z).
Proof.
  apply (proj2 (np_concatenate0_well_formed ex_fs) ["a.npy"; "b.npy"]
           [ex_a; ex_b]).
  - cbn. lia.
  - repeat constructor.
  - repeat constructor; cbn; lia.
  - reflexivity.
Defined.


(** The arrays of shapes (2, 2) and (1, 2) can be concatenated. *)
Lemma single_tensor_ok_iff_witness :
  is_ok (single_tensor ex_fs ["a.npy"; "b.npy"]) = true
  <-> [ex_a; ex_b] <> []
      /\ exists trailing,
           Forall (fun a => exists d, shape a = d :: trailing) [ex_a; ex_b].
Proof.
  apply (single_tensor_ok_iff ex_fs ["a.npy"; "b.npy"] [ex_a; ex_b]).
  - cbn. lia.
  - repeat constructor.
Defined.

End ReaderRunExamples.

(* ------------------------------------------------------------------ *)
(** ** More on the sequence regressor                                   *)
(* ------------------------------------------------------------------ *)

Section RegressorMoreProofs.
Import Regressor.
#[local] Open Scope R_scope.

Variable multilayer_projection :
  list (list R) -> option (list Z) -> (R -> R) -> bool -> R -> list (list R).
Variable linear : list (list R) -> Z -> list (list R).

Local Abbreviation init := (SequenceRegressor_init multilayer_projection linear).

(** X8.  The constructor needs two encoders: with none the concatenation
    is refused, with one the second encoder is missing and [IndexError]
    is raised; no regressor is constructed. *)
Theorem init_needs_two_encoders (name data_id : string)
    (layers : option (list Z)) (act : R -> R) (keep : R) :
  init name [] data_id layers act keep
  = Raise (LibraryError "concat of an empty list")
  /\ forall e : Encoder,
       init name [e] data_id layers act keep = Raise IndexError.
Proof. split; [reflexivity|]. intros e. reflexivity. Qed.

Lemma Rsum_squares_nonneg (ps ts : list R) :
  0 <= Rsum (zip_with (fun p t => (p - t) * (p - t)) ps ts).
Proof.
  unfold Rsum. revert ts.
  induction ps as [|p ps IH]; intros [|t ts]; cbn [zip_with fold_right]; try lra.
  specialize (IH ts). pose proof (Rle_0_sqr (p - t)) as Hsq. unfold Rsqr in Hsq.
  lra.
Qed.

Lemma Rsum_squares_zero (ps ts : list R) :
  length ps = length ts ->
  Rsum (zip_with (fun p t => (p - t) * (p - t)) ps ts) = 0 -> ps = ts.
Proof.
  revert ts. induction ps as [|p ps IH]; intros [|t ts] Hlen; try discriminate;
    [reflexivity|].
  cbn [zip_with]. unfold Rsum at 1. cbn [fold_right].
  fold (Rsum (zip_with (fun p t => (p - t) * (p - t)) ps ts)).
  intros H. pose proof (Rsum_squares_nonneg ps ts) as Hn.
  pose proof (Rle_0_sqr (p - t)) as Hsq. unfold Rsqr in Hsq.
  assert (Hp : (p - t) * (p - t) = 0) by lra.
  assert (Hs : Rsum (zip_with (fun p t => (p - t) * (p - t)) ps ts) = 0) by lra.
  f_equal; [|apply IH; [simpl in Hlen; lia | exact Hs]].
  apply Rmult_integral in Hp. lra.
Qed.

Lemma squared_error_rows (ps ts : list R) :
  length ps = length ts ->
  (diff ← broadcast_mat Rminus (expand_dims1 ps) (expand_dims1 ts);
   Ok (tf_reduce_sum (tf_square diff)))
  = Ok (Rsum (zip_with (fun p t => (p - t) * (p - t)) ps ts)).
Proof.
  intros Hlen.
  rewrite (broadcast_mat_same Rminus (expand_dims1 ps) (expand_dims1 ts)).
  - cbn [mbind result_bind]. f_equal. revert ts Hlen.
    induction ps as [|p ps IH]; intros [|t ts] Hlen; try discriminate;
      [reflexivity|].
    unfold tf_reduce_sum, tf_square, expand_dims1, Rsum in *.
    cbn [map zip_with fold_right]. rewrite IH by (simpl in Hlen; lia). lra.
  - revert ts Hlen. induction ps as [|p ps IH]; intros [|t ts] Hlen;
      try discriminate; cbn [expand_dims1 map]; constructor;
      [reflexivity | apply IH; simpl in Hlen; lia].
Qed.

(** X9.  For predictions [ps], one per example, and as many targets
    [ts], the loss is the sum of the squares of [p - t]; it is never
    negative, and it is 0 exactly when every prediction equals its
    target. *)
Theorem cost_squared_error (name : string) (encoders : list Encoder)
    (data_id : string) (layers : option (list Z)) (act : R -> R) (keep : R)
    (r : SequenceRegressor) (train : bool) (ps ts : list R) :
  init name encoders data_id layers act keep = Ok r ->
  predicted r train = expand_dims1 ps ->
  length ps = length ts ->
  exists v,
    train_loss r train ts = Ok v
    /\ v = Rsum (zip_with (fun p t => (p - t) * (p - t)) ps ts)
    /\ 0 <= v
    /\ (v = 0 <-> ps = ts).
Proof.
  intros Hinit Hp Hlen.
  destruct (init_inv _ _ _ _ _ _ _ _ _ Hinit) as (d & _ & _ & Hpred & Hcost).
  exists (Rsum (zip_with (fun p t => (p - t) * (p - t)) ps ts)).
  split.
  - unfold train_loss. rewrite Hcost. rewrite Hpred in Hp.
    cbn beta in Hp. rewrite Hp. now apply squared_error_rows.
  - split; [reflexivity|]. split; [apply Rsum_squares_nonneg|]. split.
    + now apply Rsum_squares_zero.
    + intros ->. clear. induction ts as [|t ts IH]; [reflexivity|].
      cbn [zip_with]. unfold Rsum in *. cbn [fold_right]. rewrite IH. lra.
Qed.

End RegressorMoreProofs.

Section FeedDictMoreProofs.
Import Regressor.

Context {A : Type}.

Lemma mapM_head_ext (rows1 rows2 : list (list A)) :
  map head rows1 = map head rows2 -> mapM head rows1 = mapM head rows2.
Proof.
  revert rows2. induction rows1 as [|r1 rows1 IH]; intros [|r2 rows2] H;
    try discriminate; [reflexivity|].
  injection H as Hh Ht. cbn [mapM]. rewrite Hh, (IH rows2 Ht). reflexivity.
Qed.

Lemma mapM_head_None_inv (rows : list (list A)) :
  mapM head rows = None -> [] ∈ rows.
Proof.
  induction rows as [|row rows IH]; cbn [mapM]; [discriminate|].
  destruct row as [|x row]; [left|]. cbn [head mbind option_bind].
  destruct (mapM head rows); [discriminate|]. intros _. right. now apply IH.
Qed.

Lemma first_tuple (rows : list (list A)) :
  py_index (zip_star rows) 0
  = match rows with
    | [] => Raise IndexError
    | _ => match mapM head rows with
           | Some tuple => Ok tuple
           | None => Raise IndexError
           end
    end.
Proof.
  destruct rows as [|row rows']; [reflexivity|].
  destruct (mapM head (row :: rows')) as [tuple|] eqn:E.
  - destruct (zip_star_first (row :: rows') tuple) as (rest & ->);
      [discriminate | exact E |]. apply py_index_0.
  - rewrite zip_star_empty; [reflexivity|]. right.
    now apply mapM_head_None_inv.
Qed.

(** X10.  Only the series under [data_id] and only the first entry of
    each of its rows reach the feed dictionary: two datasets whose series
    have the same first entries, row by row, give the same result,
    whatever else the rows and the datasets hold. *)
Theorem feed_dict_first_entries_only (data_id : string)
    (dataset1 dataset2 : gmap string (list (list A))) (train : bool)
    (rows1 rows2 : list (list A)) :
  dataset1 !! data_id = Some rows1 ->
  dataset2 !! data_id = Some rows2 ->
  map head rows1 = map head rows2 ->
  feed_dict data_id dataset1 train = feed_dict data_id dataset2 train.
Proof.
  intros H1 H2 Hh. unfold feed_dict, get_series. rewrite H1, H2.
  rewrite !first_tuple, (mapM_head_ext rows1 rows2 Hh).
  destruct rows1, rows2; try discriminate; reflexivity.
Qed.

End FeedDictMoreProofs.

Section RegressorMoreExamples.
Import Regressor.
#[local] Open Scope R_scope.

(** The example regressor on the target 5: its loss is not negative. *)
Lemma cost_squared_error_witness :
  exists r v,
    ex_init [ex_encoder; ex_encoder] tanh = Ok r
    /\ train_loss r false [5] = Ok v
    /\ 0 <= v.
Proof.
  eexists.
  destruct (cost_squared_error
              (spec_multilayer_projection [ex_hidden] ex_mask) (spec_linear ex_out)
              "regressor" [ex_encoder; ex_encoder] "target" (Some [1%Z]) tanh
              (1 / 2) _ false
              [tanh ((2 - 2) * 1 + ((3 - 3) * 1 + 0) + 0) * 1 + 0 + 0] [5]
              eq_refl eq_refl eq_refl)
    as (v & Hv & _ & Hpos & _).
  exists v. split; [reflexivity|]. split; [exact Hv | exact Hpos].
Defined.

(** Two datasets whose target series agree on the first entries. *)
Lemma feed_dict_first_entries_only_witness :
  feed_dict "target" (<["target" := [[3%Z; 9%Z]; [4%Z]]]> ∅) true
  = feed_dict "target"
      (<["target" := [[3%Z]; [4%Z; 1%Z]]]> (<["source" := [[7%Z]]]> ∅)) true.
Proof.
  apply (feed_dict_first_entries_only "target" _ _ true
           [[3%Z; 9%Z]; [4%Z]] [[3%Z]; [4%Z; 1%Z]]); reflexivity.
Defined.

End RegressorMoreExamples.

(* ------------------------------------------------------------------ *)
(** ** More on the REINFORCE objective                                  *)
(* ------------------------------------------------------------------ *)

Section ScoringProofs.
Import Dual RlTrainer.

Variables END_TOKEN PAD_TOKEN : string.
Variable self : ReinforceObjective.
Variable decoder : Decoder.

Local Abbreviation words := (words_until_end END_TOKEN PAD_TOKEN decoder).
Local Abbreviation score :=
  (_score_with_reward_function END_TOKEN PAD_TOKEN self decoder).

Lemma py_index_error {X : Type} (l : list X) (i : Z) (e : exn) :
  py_index l i = Raise e -> e = IndexError.
Proof.
  unfold py_index. destruct (_ && _)%bool; [|now intros [= <-]].
  destruct (nth_error _ _); [discriminate | now intros [= <-]].
Qed.

Local Abbreviation reads :=
  (RlVariants.reads_as END_TOKEN PAD_TOKEN (index_to_word decoder)).

(** The words that the inner loop returns are the words of the tokens
    before the first end or padding token. *)
Lemma words_until_end_reads (tokens : list Z) (ws : list string) :
  words tokens = Ok ws <-> reads tokens ws.
Proof.
  split.
  - revert ws. induction tokens as [|x tokens IH]; intros ws; cbn [words_until_end].
    + intros [= <-]. exists [], []. repeat split; [constructor|left; reflexivity].
    + destruct (py_index (index_to_word decoder) x) as [w0|e] eqn:Hx;
        cbn [mbind result_bind]; [|discriminate].
      destruct (String.eqb w0 END_TOKEN || String.eqb w0 PAD_TOKEN)%bool eqn:Hs.
      * intros [= <-]. exists [], (x :: tokens). repeat split; [constructor|].
        right. exists x, tokens, w0. repeat split; [exact Hx|].
        apply orb_true_iff in Hs as [Hs|Hs]; apply String.eqb_eq in Hs; auto.
      * destruct (words tokens) as [ws'|e]; cbn [mbind result_bind];
          [|discriminate].
        intros [= <-].
        destruct (IH ws' eq_refl) as (before & rest & -> & Hb & Hr).
        apply orb_false_iff in Hs as [Hs1 Hs2].
        apply String.eqb_neq in Hs1, Hs2.
        exists (x :: before), rest. repeat split; [|exact Hr].
        constructor; [auto|exact Hb].
  - intros (before & rest & -> & Hb & Hr).
    induction Hb as [|t w before ws (Ht & Hn1 & Hn2) _ IH]; cbn [app].
    + destruct Hr as [->|(t & rest' & w & -> & Ht & Hw)]; [reflexivity|].
      cbn [words_until_end]. rewrite Ht. cbn [mbind result_bind].
      replace (String.eqb w END_TOKEN || String.eqb w PAD_TOKEN)%bool with true;
        [reflexivity|].
      symmetry. apply orb_true_iff.
      destruct Hw as [-> | ->]; [left|right]; apply String.eqb_refl.
    + cbn [words_until_end]. rewrite Ht. cbn [mbind result_bind].
      apply String.eqb_neq in Hn1, Hn2. rewrite Hn1, Hn2. cbn [orb].
      rewrite IH. reflexivity.
Qed.

(** X11.  The inner loop of the scoring returns exactly the words of the
    tokens of a column before its first end or padding token, in their
    order: what follows that token is not read.  Its only failure is the
    [IndexError] of a token that is not in the vocabulary and comes
    before any end or padding token. *)
Theorem words_until_end_truncates :
  (forall (tokens : list Z) (ws : list string),
      words tokens = Ok ws <-> reads tokens ws)
  /\ (forall (tokens : list Z) (e : exn),
        words tokens = Raise e ->
        e = IndexError
        /\ exists before t rest,
             tokens = (before ++ t :: rest)%list
             /\ py_index (index_to_word decoder) t = Raise IndexError
             /\ Forall (fun t' => exists w,
                           py_index (index_to_word decoder) t' = Ok w
                           /\ w <> END_TOKEN /\ w <> PAD_TOKEN) before).
Proof.
  split; [exact words_until_end_reads|].
  induction tokens as [|x tokens IH]; intros e; cbn [words_until_end];
    [discriminate|].
  destruct (py_index (index_to_word decoder) x) as [w0|e0] eqn:Hx;
    cbn [mbind result_bind].
  - destruct (String.eqb w0 END_TOKEN || String.eqb w0 PAD_TOKEN)%bool eqn:Hs;
      [discriminate|].
    destruct (words tokens) as [ws'|e1]; cbn [mbind result_bind];
      [discriminate|].
    intros [= <-]. destruct (IH e1 eq_refl) as (-> & before & t & rest & -> & Ht & Hb).
    split; [reflexivity|]. exists (x :: before), t, rest.
    repeat split; [exact Ht|].
    apply orb_false_iff in Hs as [Hs1 Hs2]. apply String.eqb_neq in Hs1, Hs2.
    constructor; [eauto|exact Hb].
  - intros [= <-]. pose proof (py_index_error _ _ _ Hx) as ->.
    split; [reflexivity|]. exists [], x, tokens. repeat split; [exact Hx|constructor].
Qed.

(** X12.  The scoring returns one reward for every example of the batch:
    the reward of example [i] is the evaluator applied to the hypothesis,
    as its first argument, and to the reference, as its second, each the
    one-element list of the joined words that column [i] holds before
    its first end or padding token. *)
Theorem score_one_reward_per_example (references hypotheses : list (list Z))
    (rs : list R) :
  score references hypotheses = Ok rs ->
  length rs = Z.to_nat (batch_size decoder)
  /\ forall i, (i < Z.to_nat (batch_size decoder))%nat ->
       exists ref_seq hyp_seq,
         reads (map (fun row => nth i row 0%Z) references) ref_seq
         /\ reads (map (fun row => nth i row 0%Z) hypotheses) hyp_seq
         /\ nth i rs 0%R
            = reward_function self [bpe_tokens hyp_seq] [bpe_tokens ref_seq].
Proof.
  intros H. split; [exact (score_length _ _ _ _ _ _ _ H)|].
  intros i Hi. unfold _score_with_reward_function in H.
  apply mapM_result_inv in H.
  set (B := Z.to_nat (batch_size decoder)) in *.
  assert (Hl : zip (transpose 0%Z B references) (transpose 0%Z B hypotheses) !! i
               = Some (map (fun row => nth i row 0%Z) references,
                       map (fun row => nth i row 0%Z) hypotheses)).
  { unfold transpose. rewrite zip_with_map_same, list_lookup_fmap.
    rewrite lookup_seq_lt by exact Hi. reflexivity. }
  destruct (Forall2_lookup_l _ _ _ _ _ H Hl) as (r & Hr & Hf).
  cbn [fst snd] in Hf.
  destruct (words (map (fun row => nth i row 0%Z) references)) as [ref_seq|e] eqn:E1;
    cbn [mbind result_bind] in Hf; [|discriminate].
  destruct (words (map (fun row => nth i row 0%Z) hypotheses)) as [hyp_seq|e] eqn:E2;
    cbn [mbind result_bind] in Hf; [|discriminate].
  injection Hf as <-. exists ref_seq, hyp_seq.
  split; [apply words_until_end_reads, E1|].
  split; [apply words_until_end_reads, E2|].
  rewrite (nth_lookup_Some _ _ _ _ Hr). reflexivity.
Qed.

End ScoringProofs.

Section LossMoreProofs.
Import Dual RlTrainer.
#[local] Open Scope R_scope.

Variables END_TOKEN PAD_TOKEN : string.
Variable self : ReinforceObjective.

Local Abbreviation loss := (RlTrainer.loss END_TOKEN PAD_TOKEN self).
Local Abbreviation train := (RlTrainer.train END_TOKEN PAD_TOKEN self).
Local Abbreviation stacked := (RlTrainer.stacked_samples END_TOKEN PAD_TOKEN self).

(** X13.  Without [subtract_baseline] the two variables are never
    written and no baseline is recorded, over any number of steps. *)
Theorem no_baseline_no_update (batches : list Decoder) (vars vars' : Baseline)
    (out : list (dual * Summaries)) :
  subtract_baseline self = false ->
  train batches vars = Ok (out, vars') ->
  vars' = vars /\ baselines out = repeat None (length batches).
Proof.
  intros Hsb. revert vars out.
  induction batches as [|d batches IH]; intros vars out; cbn [RlTrainer.train].
  - intros [= <- <-]. split; reflexivity.
  - destruct (loss d vars) as [[[l s] vars1]|e] eqn:Hl; cbn [mbind result_bind];
      [|discriminate].
    destruct (loss_inv _ _ _ _ _ _ _ _ Hl) as (r0 & lp0 & _ & _ & Hs & Hv).
    rewrite Hsb in Hs, Hv. subst vars1.
    destruct (train batches vars) as [[out' vars2]|e] eqn:Ht;
      cbn [mbind result_bind]; [|discriminate].
    intros [= <- <-]. destruct (IH _ _ Ht) as [-> Hb].
    split; [reflexivity|]. cbn [baselines map length repeat snd].
    rewrite Hs. cbn [rl_reward_baseline]. f_equal. exact Hb.
Qed.

(** X14.  A sample size that is not positive leaves the sampling loop
    without a turn, and the loss is evaluated on empty arrays: without
    normalisation it raises nothing, and its value and its gradient are
    those of the cross-entropy term alone, 0 when there is none. *)
Theorem loss_without_samples (decoder : Decoder) (vars : Baseline) :
  (sample_size self <= 0)%Z ->
  normalize self = false ->
  exists l summ vars',
    loss decoder vars = Ok (l, summ, vars')
    /\ val l = (if Rlt_dec 0 (ce_smoothing self)
                then ce_smoothing self * val (cost decoder) else 0)
    /\ tan l = (if Rlt_dec 0 (ce_smoothing self)
                then ce_smoothing self * tan (cost decoder) else 0).
Proof.
  intros HS Hn. unfold RlTrainer.loss, RlTrainer.stacked_samples.
  replace (Z.to_nat (sample_size self)) with 0%nat by lia.
  cbn [seq mapM mbind result_bind mret result_ret map Tf.stack]. rewrite Hn.
  assert (Hzero : forall rewards : list (list dual),
             rewards = [] ->
             let l := batch_loss self decoder rewards [] in
             val l = (if Rlt_dec 0 (ce_smoothing self)
                      then ce_smoothing self * val (cost decoder) else 0)
             /\ tan l = (if Rlt_dec 0 (ce_smoothing self)
                         then ce_smoothing self * tan (cost decoder) else 0)).
  { intros rewards ->. unfold batch_loss. cbn zeta.
    set (B := Z.to_nat (batch_size decoder)).
    assert (Hm : Tf.reduce_mean
                   (Tf.reduce_sum_axis0 B
                      (Tf.multiply (Tf.stop_gradient (Tf.negative [])) []))
                 = ddiv (dsum (repeat (const 0) B)) (const (INR B))).
    { unfold Tf.reduce_mean. cbn. now rewrite repeat_length. }
    rewrite Hm.
    assert (Hv : val (dsum (repeat (const 0) B)) = 0
                 /\ tan (dsum (repeat (const 0) B)) = 0).
    { rewrite val_dsum, tan_dsum, !map_repeat, !Rsum_repeat. cbn. split; lra. }
    destruct Hv as [Hv Ht].
    destruct (Rlt_dec 0 (ce_smoothing self)); cbn; rewrite Hv, Ht; split;
      unfold Rdiv; lra. }
  destruct (subtract_baseline self).
  - cbn [subtract_running_baseline Tf.sub_scalar map].
    eexists. eexists. eexists. split; [reflexivity|]. apply Hzero. reflexivity.
  - eexists. eexists. eexists. split; [reflexivity|]. apply Hzero. reflexivity.
Qed.

(** X16.  With [subtract_baseline], while the number of samples stays
    within [2 ^ 24], up to where [float32] holds every integer, the
    counter counts them: from a counter that holds the integer [k], after
    any steps that ran it holds [k] plus [batch_size * sample_size] of
    every step, whatever the rewards were.  Every step has recorded a
    baseline. *)
Theorem reward_counter_counts_samples (batches : list Decoder)
    (vars vars' : Baseline) (out : list (dual * Summaries)) (k : Z) :
  subtract_baseline self = true ->
  reward_counter vars = IZR k -> (0 <= k)%Z ->
  Forall (fun d => (0 <= batch_size d * sample_size self)%Z) batches ->
  (k + RlVariants.samples_seen self batches <= 2 ^ 24)%Z ->
  train batches vars = Ok (out, vars') ->
  reward_counter vars' = IZR (k + RlVariants.samples_seen self batches)
  /\ length out = length batches
  /\ Forall (fun b => is_Some b) (baselines out).
Proof.
  intros Hsb Hk Hk0 Hpos. revert vars out k Hk Hk0.
  induction Hpos as [|d batches Hd Hpos IH]; intros vars out k Hk Hk0 Hle;
    cbn [RlTrainer.train].
  - intros [= <- <-]. cbn. rewrite Z.add_0_r. repeat split; [exact Hk|constructor].
  - unfold RlVariants.samples_seen in Hle |- *. cbn [map fold_right] in Hle |- *.
    fold (RlVariants.samples_seen self batches) in Hle |- *.
    assert (Hrest : (0 <= RlVariants.samples_seen self batches)%Z).
    { clear -Hpos. unfold RlVariants.samples_seen.
      induction Hpos; cbn [map fold_right]; lia. }
    destruct (loss d vars) as [[[l s] vars1]|e] eqn:Hl; cbn [mbind result_bind];
      [|discriminate].
    destruct (loss_inv _ _ _ _ _ _ _ _ Hl) as (r0 & lp0 & _ & _ & Hs & Hv).
    rewrite Hsb in Hs, Hv. cbn [subtract_running_baseline fst snd] in Hs, Hv.
    destruct (train batches vars1) as [[out' vars2]|e] eqn:Ht;
      cbn [mbind result_bind]; [|discriminate].
    intros [= <- <-].
    assert (Hc1 : reward_counter vars1
                  = IZR (k + batch_size d * sample_size self)).
    { rewrite Hv. cbn [reward_counter]. rewrite Hk.
      rewrite (round_small_int (batch_size d * sample_size self)) by lia.
      rewrite <- plus_IZR. apply round_small_int. lia. }
    destruct (IH vars1 out' _ Hc1 ltac:(lia) ltac:(lia) Ht) as (Hc & Hlen & Hb).
    repeat split.
    + rewrite Hc. f_equal. lia.
    + cbn [length]. now rewrite Hlen.
    + cbn [baselines map snd]. constructor; [|exact Hb].
      rewrite Hs. cbn [rl_reward_baseline]. eauto.
Qed.


End LossMoreProofs.

Section SumMoreLemmas.
Import Dual.
#[local] Open Scope R_scope.

Lemma Rsum_upto_plus (n : nat) (f g : nat -> R) :
  Rsum_upto n (fun i => f i + g i) = Rsum_upto n f + Rsum_upto n g.
Proof.
  unfold Rsum_upto, Rsum. induction (seq 0 n) as [|i l IH]; cbn [map fold_right];
    [lra | rewrite IH; lra].
Qed.

Lemma Rsum_upto_const (n : nat) (c : R) : Rsum_upto n (fun _ => c) = INR n * c.
Proof.
  unfold Rsum_upto. rewrite <- repeat_as_map. apply Rsum_repeat.
Qed.

(** The tangents of a column of the softmax add up to zero, as the
    values add up to one. *)
Lemma softmax_dim0_tangents (rows width : nat) (m : list (list dual)) (b : nat) :
  has_shape rows width m -> (0 < rows)%nat -> (b < width)%nat ->
  Rsum_upto rows (fun s => tan (entry (Tf.softmax_dim0 width m) s b)) = 0.
Proof.
  intros Hm Hrows Hb.
  set (Z := Rsum_upto rows (fun s' => exp (val (entry m s' b)))).
  set (T := Rsum_upto rows (fun s' => tan (entry m s' b) * exp (val (entry m s' b)))).
  assert (HZ : 0 < Z).
  { apply Rsum_upto_pos; [exact Hrows|]. intros i. apply exp_pos. }
  rewrite (Rsum_upto_ext rows _
             (fun s => tan (entry m s b) * exp (val (entry m s b)) * (Z * / (Z * Z))
                       + exp (val (entry m s b)) * (- T * / (Z * Z)))).
  - rewrite Rsum_upto_plus, !Rsum_upto_scal. fold Z T. field. lra.
  - intros s Hs. rewrite (softmax_dim0_entry rows width m s b Hm Hs Hb).
    cbn [ddiv tan val dexp]. rewrite val_dsum_upto, tan_dsum_upto.
    cbn [dexp val tan]. fold Z T. field. lra.
Qed.

(** Value and tangent of the mean over the batch of the sums over the
    samples. *)
Lemma surrogate_projections (rows width : nat) (r p : list (list dual)) :
  INR width <> 0 ->
  let surrogate :=
    ddiv (dsum_upto width (fun b =>
            dsum_upto rows (fun s =>
              dmul (stop_gradient (dneg (entry r s b))) (entry p s b))))
         (const (INR width)) in
  val surrogate
  = Rsum_upto width (fun b =>
      Rsum_upto rows (fun s => - val (entry r s b) * val (entry p s b)))
    / INR width
  /\ tan surrogate
     = Rsum_upto width (fun b =>
         Rsum_upto rows (fun s => - val (entry r s b) * tan (entry p s b)))
       / INR width.
Proof.
  intros Hw surrogate. unfold surrogate. split.
  - rewrite val_ddiv_const, val_dsum_upto. f_equal.
    apply Rsum_upto_ext. intros b _. rewrite val_dsum_upto.
    apply Rsum_upto_ext. intros s _. reflexivity.
  - rewrite (tan_ddiv_const _ _ Hw), tan_dsum_upto. f_equal.
    apply Rsum_upto_ext. intros b _. rewrite tan_dsum_upto.
    apply Rsum_upto_ext. intros s _. cbn. lra.
Qed.

End SumMoreLemmas.

Section MrtProofs.
Import Dual RlTrainer RlVariants.
#[local] Open Scope R_scope.

Variables END_TOKEN PAD_TOKEN : string.
Variable self : ReinforceObjective.
Variable decoder : Decoder.

Local Abbreviation B := (Z.to_nat (batch_size decoder)).
Local Abbreviation S_ := (Z.to_nat (sample_size self)).

(** X17.  With [normalize] set (minimum risk training) and at least one
    sample, subtracting the baseline shifts the value of the loss by the
    baseline and leaves its gradient as it is: on the same samples the
    objective with [subtract_baseline] and the one without have losses
    with the same tangent. *)
Theorem normalised_loss_ignores_baseline (vars0 vars1 v0 v1 : Baseline)
    (l0 l1 : dual) (s0 s1 : Summaries) :
  (0 < B)%nat ->
  (0 < S_)%nat ->
  decoder_shaped self decoder ->
  normalize self = true ->
  loss END_TOKEN PAD_TOKEN (with_baseline self false) decoder vars0
  = Ok (l0, s0, v0) ->
  loss END_TOKEN PAD_TOKEN (with_baseline self true) decoder vars1
  = Ok (l1, s1, v1) ->
  tan l1 = tan l0
  /\ exists baseline,
       rl_reward_baseline s1 = Some baseline /\ val l1 = val l0 + baseline.
Proof.
  intros HB HS Hd Hn H0 H1.
  destruct (loss_inv _ _ _ _ _ _ _ _ H0) as (r0 & lp0 & Hst0 & Hl0 & _ & _).
  destruct (loss_inv _ _ _ _ _ _ _ _ H1) as (r1 & lp1 & Hst1 & Hl1 & Hs1 & _).
  change (stacked_samples END_TOKEN PAD_TOKEN self decoder = Ok (r0, lp0)) in Hst0.
  change (stacked_samples END_TOKEN PAD_TOKEN self decoder = Ok (r1, lp1)) in Hst1.
  rewrite Hst0 in Hst1. injection Hst1 as <- <-.
  destruct (stacked_samples_shape _ _ _ _ r0 lp0 Hd Hst0) as (Hr0 & Hlp0).
  cbn [with_baseline subtract_baseline normalize alpha
       subtract_running_baseline fst snd] in Hl0, Hl1, Hs1.
  rewrite Hn in Hl0, Hl1.
  set (P := Tf.softmax_dim0 B (Tf.scale lp0 (alpha self))) in *.
  match type of Hs1 with
  | _ = mkSummaries (Some ?b) _ => set (bl := b) in *
  end.
  assert (HP : has_shape S_ B P).
  { apply softmax_dim0_shape. unfold Tf.scale. now apply has_shape_map. }
  assert (Hr1 : has_shape S_ B (Tf.sub_scalar r0 (const bl))).
  { unfold Tf.sub_scalar. now apply has_shape_map. }
  change (l0 = batch_loss self decoder r0 P) in Hl0.
  change (l1 = batch_loss self decoder (Tf.sub_scalar r0 (const bl)) P) in Hl1.
  rewrite (batch_loss_sum self decoder _ _ Hr0 HP) in Hl0.
  rewrite (batch_loss_sum self decoder _ _ Hr1 HP) in Hl1.
  cbn zeta in Hl0, Hl1.
  assert (HBne : INR B <> 0) by (apply not_0_INR; lia).
  destruct (surrogate_projections S_ B r0 P HBne) as [Hv0 Ht0].
  destruct (surrogate_projections S_ B (Tf.sub_scalar r0 (const bl)) P HBne)
    as [Hv1 Ht1].
  cbn zeta in Hv0, Ht0, Hv1, Ht1.
  assert (Et : Rsum_upto B (fun b => Rsum_upto S_ (fun s =>
                 - val (entry (Tf.sub_scalar r0 (const bl)) s b) * tan (entry P s b)))
               = Rsum_upto B (fun b => Rsum_upto S_ (fun s =>
                   - val (entry r0 s b) * tan (entry P s b)))).
  { apply Rsum_upto_ext. intros b Hb.
    rewrite (Rsum_upto_ext S_ _
               (fun s => - val (entry r0 s b) * tan (entry P s b)
                         + tan (entry P s b) * bl)).
    - rewrite Rsum_upto_plus, Rsum_upto_scal.
      unfold P at 2.
      rewrite (softmax_dim0_tangents S_ B); [lra | | exact HS | exact Hb].
      unfold Tf.scale. now apply has_shape_map.
    - intros s Hs. rewrite (entry_sub_scalar S_ B) by assumption. cbn. lra. }
  assert (Ev : Rsum_upto B (fun b => Rsum_upto S_ (fun s =>
                 - val (entry (Tf.sub_scalar r0 (const bl)) s b) * val (entry P s b)))
               = Rsum_upto B (fun b => Rsum_upto S_ (fun s =>
                   - val (entry r0 s b) * val (entry P s b)))
                 + INR B * bl).
  { rewrite <- Rsum_upto_const, <- Rsum_upto_plus.
    apply Rsum_upto_ext. intros b Hb.
    rewrite (Rsum_upto_ext S_ _
               (fun s => - val (entry r0 s b) * val (entry P s b)
                         + val (entry P s b) * bl)).
    - rewrite Rsum_upto_plus, Rsum_upto_scal.
      unfold P at 2.
      rewrite (softmax_dim0_normalised S_ B); [lra | | exact HS | exact Hb].
      unfold Tf.scale. now apply has_shape_map.
    - intros s Hs. rewrite (entry_sub_scalar S_ B) by assumption. cbn. lra. }
  rewrite Et in Ht1. rewrite Ev in Hv1.
  split.
  - rewrite Hl0, Hl1. destruct (Rlt_dec 0 (ce_smoothing self));
      cbn [dadd tan]; rewrite Ht0, Ht1; reflexivity.
  - exists bl. split; [rewrite Hs1; reflexivity|].
    rewrite Hl0, Hl1. destruct (Rlt_dec 0 (ce_smoothing self));
      cbn [dadd val]; rewrite Hv0, Hv1; field; exact HBne.
Qed.

End MrtProofs.

Section BpeProofs.
Import RlTrainer RlVariants.

Lemma string_app_cons (x : ascii) (a b : string) :
  String x a ++ b = String x (a ++ b).
Proof. reflexivity. Qed.

Lemma string_app_nil_r (a : string) : a ++ "" = a.
Proof.
  induction a as [|x a IH]; [reflexivity|]. now rewrite string_app_cons, IH.
Qed.

Lemma string_app_assoc (a b c : string) : (a ++ b) ++ c = a ++ (b ++ c).
Proof.
  induction a as [|x a IH]; [reflexivity|]. now rewrite !string_app_cons, IH.
Qed.

Lemma free_of_app (c : ascii) (a b : string) :
  free_of c (a ++ b) = (free_of c a && free_of c b)%bool.
Proof.
  induction a as [|x a IH]; [reflexivity|].
  rewrite string_app_cons. cbn [free_of]. rewrite IH. now rewrite andb_assoc.
Qed.

Lemma prefix_marker_false (c : ascii) (s : string) :
  Ascii.eqb c "@" = false -> String.prefix "@@ " (String c s) = false.
Proof.
  intros H. cbn [String.prefix]. destruct (ascii_dec "@" c) as [<-|_];
    [|reflexivity].
  rewrite Ascii.eqb_refl in H. discriminate.
Qed.

(** Replacing the marker goes through a prefix without [@]. *)
Lemma replace_through (w rest : string) :
  free_of "@" w = true ->
  replace "@@ " "" (w ++ rest) = w ++ replace "@@ " "" rest.
Proof.
  unfold replace. induction w as [|c w IH]; intros Hw; [reflexivity|].
  cbn [free_of] in Hw. apply andb_true_iff in Hw as [Hc Hw].
  apply negb_true_iff in Hc.
  change (String c w ++ rest) with (String c (w ++ rest)).
  cbn [replace_from]. rewrite (prefix_marker_false c _ Hc), (IH Hw).
  reflexivity.
Qed.

Lemma prefix_marker_true (rest : string) :
  String.prefix "@@ " (String "@" (String "@" (String " " rest))) = true.
Proof.
  cbn [String.prefix].
  destruct (ascii_dec "@" "@") as [_|H]; [|congruence].
  destruct (ascii_dec " " " ") as [_|H]; [|congruence].
  now destruct rest.
Qed.

Lemma replace_from_skip (old new : string) (k : nat) (c : ascii) (s : string) :
  replace_from old new (S k) (String c s) = replace_from old new k s.
Proof. reflexivity. Qed.

Lemma replace_from_match (old new : string) (c : ascii) (s : string) :
  String.prefix old (String c s) = true ->
  replace_from old new 0 (String c s)
  = new ++ replace_from old new (String.length old - 1) s.
Proof. intros H. cbn [replace_from]. now rewrite H. Qed.

Lemma replace_marker (rest : string) :
  replace "@@ " "" ("@@ " ++ rest) = replace "@@ " "" rest.
Proof.
  unfold replace.
  change ("@@ " ++ rest) with (String "@" (String "@" (String " " rest))).
  rewrite (replace_from_match _ _ _ _ (prefix_marker_true rest)).
  change (String.length "@@ " - 1) with 2.
  now rewrite !replace_from_skip.
Qed.

Lemma replace_free (s : string) :
  free_of "@" s = true -> replace "@@ " "" s = s.
Proof.
  intros H. pose proof (replace_through s "" H) as E.
  rewrite string_app_nil_r in E. rewrite E. apply string_app_nil_r.
Qed.

Lemma split_nonempty (sep : ascii) (s : string) : split sep s <> [].
Proof.
  induction s as [|c s IH]; cbn [split]; [discriminate|].
  destruct (Ascii.eqb c sep); [discriminate|].
  destruct (split sep s); [contradiction | discriminate].
Qed.

(** Splitting goes through a prefix without a space: the prefix joins
    the first piece of what follows. *)
Lemma split_through (w rest : string) :
  free_of " " w = true ->
  split " " (w ++ rest)
  = match split " " rest with
    | h :: t => (w ++ h) :: t
    | [] => [w]
    end.
Proof.
  induction w as [|c w IH]; intros Hw.
  - change ("" ++ rest) with rest.
    destruct (split " " rest) eqn:E; [|reflexivity].
    now apply split_nonempty in E.
  - cbn [free_of] in Hw. apply andb_true_iff in Hw as [Hc Hw].
    apply negb_true_iff in Hc.
    change (String c w ++ rest) with (String c (w ++ rest)).
    cbn [split]. rewrite Hc, (IH Hw).
    destruct (split " " rest); reflexivity.
Qed.

Lemma split_free (w : string) : free_of " " w = true -> split " " w = [w].
Proof.
  intros H. pose proof (split_through w "" H) as E.
  cbn [split] in E. now rewrite !string_app_nil_r in E.
Qed.

Lemma join_free_of_at (words : list string) :
  Forall (fun w => plain_word w = true) words ->
  free_of "@" (join " " words) = true.
Proof.
  induction 1 as [|w words Hw _ IH]; [reflexivity|].
  apply andb_true_iff in Hw as [_ Hat].
  destruct words as [|v words]; [exact Hat|].
  change (join " " (w :: v :: words)) with (w ++ " " ++ join " " (v :: words)).
  rewrite !free_of_app, Hat, IH. reflexivity.
Qed.

Lemma split_join (words : list string) :
  Forall (fun w => plain_word w = true) words -> words <> [] ->
  split " " (join " " words) = words.
Proof.
  induction 1 as [|w words Hw Hrest IH]; [congruence|]. intros _.
  apply andb_true_iff in Hw as [Hsp _].
  destruct words as [|v words]; [now apply split_free|].
  change (join " " (w :: v :: words)) with (w ++ " " ++ join " " (v :: words)).
  rewrite (split_through w _ Hsp).
  change (" " ++ join " " (v :: words)) with (String " " (join " " (v :: words))).
  cbn [split Ascii.eqb Bool.eqb]. rewrite IH by discriminate.
  now rewrite string_app_nil_r.
Qed.

(** X18.  The joining of sub-word pieces before the evaluator is called:
    words without a marker pass as they are; a piece that ends in the
    marker [@@] is glued to the token that follows it; and an empty
    sequence, as of a hypothesis that starts with the end token, becomes
    the list of one empty token, not the empty list. *)
Theorem bpe_tokens_joins_pieces :
  bpe_tokens [] = [""]
  /\ (forall words : list string,
        Forall (fun w => plain_word w = true) words -> words <> [] ->
        bpe_tokens words = words)
  /\ (forall (w v : string) (rest : list string),
        plain_word w = true ->
        bpe_tokens ((w ++ "@@") :: v :: rest)
        = match bpe_tokens (v :: rest) with
          | h :: t => (w ++ h) :: t
          | [] => [w]
          end).
Proof.
  split; [reflexivity|]. split.
  - intros words Hw Hne. unfold bpe_tokens.
    rewrite (replace_free _ (join_free_of_at words Hw)).
    now apply split_join.
  - intros w v rest Hw. apply andb_true_iff in Hw as [Hsp Hat].
    unfold bpe_tokens.
    change (join " " ((w ++ "@@") :: v :: rest))
      with ((w ++ "@@") ++ " " ++ join " " (v :: rest)).
    rewrite (string_app_assoc w "@@" _).
    change ("@@" ++ " " ++ join " " (v :: rest))
      with ("@@ " ++ join " " (v :: rest)).
    rewrite (replace_through w _ Hat), replace_marker.
    apply (split_through w _ Hsp).
Qed.

End BpeProofs.

Lemma bpe_tokens_joins_pieces_witness :
  RlTrainer.bpe_tokens ["the"; "cat"] = ["the"; "cat"]
  /\ RlTrainer.bpe_tokens ["trans" ++ "@@"; "lation"; "works"]
     = ["trans" ++ "lation"; "works"].
Proof.
  destruct bpe_tokens_joins_pieces as (_ & H1 & H2). split.
  - apply H1; [repeat constructor | discriminate].
  - rewrite (H2 "trans" "lation" ["works"] eq_refl).
    rewrite (H1 ["lation"; "works"]); [reflexivity | repeat constructor | discriminate].
Defined.

Section ObjectiveMoreExamples.
Import Dual RlTrainer RlVariants.
#[local] Open Scope R_scope.

(** The reference column of the example, with one more token after its
    end token: the word before the end token is what is read. *)
Lemma words_until_end_truncates_witness :
  words_until_end "</s>" "<pad>" ex_decoder [1%Z; 0%Z; 1%Z] = Ok ["a"].
Proof.
  apply (proj1 (words_until_end_truncates "</s>" "<pad>" ex_decoder)).
  exists [1%Z], [0%Z; 1%Z]. split; [reflexivity|]. split.
  - constructor; [|constructor].
    split; [reflexivity|]. split; discriminate.
  - right. exists 0%Z, [1%Z], "</s>". split; [reflexivity|].
    split; [reflexivity|]. left. reflexivity.
Defined.

(** The example scored by the lengths of the tokens: the hypothesis ends
    at once and counts no character, the reference counts one. *)
Lemma score_one_reward_per_example_witness :
  exists ref_seq hyp_seq,
    reads_as "</s>" "<pad>" (index_to_word ex_decoder) [1%Z; 0%Z] ref_seq
    /\ reads_as "</s>" "<pad>" (index_to_word ex_decoder) [0%Z; 1%Z] hyp_seq
    /\ 1 = reward_function ex_length_objective
             [bpe_tokens hyp_seq] [bpe_tokens ref_seq].
Proof.
  assert (H : _score_with_reward_function "</s>" "<pad>" ex_length_objective
                ex_decoder [[1%Z]; [0%Z]] [[0%Z]; [1%Z]] = Ok [1]).
  { vm_compute. do 2 f_equal. lra. }
  exact (proj2 (score_one_reward_per_example "</s>" "<pad>" ex_length_objective
                  ex_decoder [[1%Z]; [0%Z]] [[0%Z]; [1%Z]] [1] H)
           0%nat ltac:(cbn; lia)).
Defined.

Lemma no_baseline_no_update_witness :
  exists out vars',
    train "</s>" "<pad>" (ex_bandit_objective 1) [ex_decoder; ex_decoder]
      Baseline_initial = Ok (out, vars')
    /\ vars' = Baseline_initial
    /\ baselines out = [None; None].
Proof.
  eexists. eexists. split; [reflexivity|].
  apply (no_baseline_no_update "</s>" "<pad>" (ex_bandit_objective 1)
           [ex_decoder; ex_decoder] Baseline_initial _ _ eq_refl eq_refl).
Defined.

Lemma loss_without_samples_witness :
  exists l summ vars',
    loss "</s>" "<pad>" ex_empty_objective ex_decoder Baseline_initial
    = Ok (l, summ, vars')
    /\ val l = 0.
Proof.
  destruct (loss_without_samples "</s>" "<pad>" ex_empty_objective ex_decoder
              Baseline_initial ltac:(cbn; lia) eq_refl)
    as (l & summ & vars' & Hl & Hv & _).
  exists l, summ, vars'. split; [exact Hl|].
  rewrite Hv. cbn. destruct (Rlt_dec 0 0); [lra|reflexivity].
Defined.

Lemma reward_counter_counts_samples_witness :
  exists out vars',
    train "</s>" "<pad>" (ex_objective 1) [ex_decoder; ex_decoder]
      Baseline_initial = Ok (out, vars')
    /\ reward_counter vars' = 2.
Proof.
  destruct (train "</s>" "<pad>" (ex_objective 1) [ex_decoder; ex_decoder]
              Baseline_initial) as [[out vars']|e] eqn:Ht.
  - exists out, vars'. split; [reflexivity|].
    apply (proj1 (reward_counter_counts_samples "</s>" "<pad>" (ex_objective 1)
                    [ex_decoder; ex_decoder] Baseline_initial vars' out 0
                    eq_refl eq_refl ltac:(lia)
                    ltac:(repeat constructor; cbn; lia)
                    ltac:(cbn; lia) Ht)).
  - exfalso. cbn in Ht. discriminate.
Defined.


Lemma ex_mrt_decoder_shaped : decoder_shaped ex_mrt_objective ex_decoder.
Proof. intros k. repeat constructor. Qed.

Lemma normalised_loss_ignores_baseline_witness :
  exists l0 s0 v0 l1 s1 v1,
    loss "</s>" "<pad>" (with_baseline ex_mrt_objective false) ex_decoder
      Baseline_initial = Ok (l0, s0, v0)
    /\ loss "</s>" "<pad>" (with_baseline ex_mrt_objective true) ex_decoder
         Baseline_initial = Ok (l1, s1, v1)
    /\ tan l1 = tan l0.
Proof.
  do 6 eexists. split; [reflexivity|]. split; [reflexivity|].
  apply (proj1 (normalised_loss_ignores_baseline "</s>" "<pad>" ex_mrt_objective
                  ex_decoder Baseline_initial Baseline_initial _ _ _ _ _ _
                  ltac:(cbn; lia) ltac:(cbn; lia) ex_mrt_decoder_shaped
                  eq_refl eq_refl eq_refl)).
Defined.

End ObjectiveMoreExamples.


(* ------------------------------------------------------------------ *)
(** ** The recurrent encoders: construction                             *)
(* ------------------------------------------------------------------ *)

Section EncoderConstruction.
Import Recurrent Encoders.

Variable class_repr : rnn_cell_class -> string.
Context {V E : Type}.
Variable EmbeddedSequence :
  string -> V -> string -> Z -> option Z -> Checkpoints -> result E.

#[local] Abbreviation init := (RecurrentEncoder_init class_repr).

Lemma init_ok_inv {I : Type} (name : string) (input : I) (rnn_size : Z)
    (rnn_cell rnn_direction : string) (p : float) (enc : RecurrentEncoder I) :
  init name input rnn_size rnn_cell rnn_direction p = Ok enc ->
  enc = mkRecurrentEncoder I name input p (mkRNNSpec rnn_size rnn_direction rnn_cell).
Proof.
  unfold RecurrentEncoder_init.
  destruct (_make_rnn_spec class_repr rnn_size rnn_direction rnn_cell) as [spec|e] eqn:Hs;
    cbn [mbind result_bind]; [|discriminate].
  apply make_rnn_spec_ok in Hs. destruct Hs as (_ & _ & _ & ->).
  destruct (_ || _)%bool; [discriminate|]. intros [= <-]. reflexivity.
Qed.

Lemma init_ok_valid {I : Type} (name : string) (input : I) (rnn_size : Z)
    (rnn_cell rnn_direction : string) (p : float) :
  is_nan p = false ->
  layer_valid rnn_cell p (rnn_size, rnn_direction) ->
  init name input rnn_size rnn_cell rnn_direction p
  = Ok (mkRecurrentEncoder I name input p (mkRNNSpec rnn_size rnn_direction rnn_cell)).
Proof.
  intros Hn Hv.
  destruct (init name input rnn_size rnn_cell rnn_direction p) as [enc|e] eqn:Hi.
  - f_equal. eapply init_ok_inv, Hi.
  - pose proof (proj2 (RecurrentEncoder_init_ok_iff class_repr name input
                         rnn_size rnn_cell rnn_direction p Hn) Hv) as Hok.
    rewrite Hi in Hok. discriminate.
Qed.

Lemma init_valid_of_ok {I : Type} (name : string) (input : I) (rnn_size : Z)
    (rnn_cell rnn_direction : string) (p : float) (enc : RecurrentEncoder I) :
  is_nan p = false ->
  init name input rnn_size rnn_cell rnn_direction p = Ok enc ->
  layer_valid rnn_cell p (rnn_size, rnn_direction).
Proof.
  intros Hn Hi.
  apply (RecurrentEncoder_init_ok_iff class_repr name input rnn_size rnn_cell rnn_direction p Hn).
  rewrite Hi. reflexivity.
Qed.


Lemma layers_inv (name rnn_cell : string) (keep : float) (ckp : Checkpoints)
    (pairs : list (Z * string)) :
  forall (level : nat) (prev t : temporal E),
    layers class_repr name rnn_cell keep ckp level prev pairs = Ok t ->
    stack t
    = (stack prev
       ++ imap (fun k p => (layer_name name (level + k),
                            mkRNNSpec (fst p) (snd p) rnn_cell, keep)) pairs)%list
    /\ checkpoints_below t
       = (checkpoints_below prev
          ++ map (fun k => layer_checkpoints ckp (level + k)) (seq 0 (length pairs)))%list
    /\ bottom t = bottom prev
    /\ (is_nan keep = false -> Forall (layer_valid rnn_cell keep) pairs).
Proof.
  induction pairs as [|[sz dir] rest IH]; intros level prev t; cbn [layers].
  - intros [= <-]. cbn. rewrite !app_nil_r. auto.
  - destruct (RecurrentEncoder_init class_repr (name ++ "_layer_" ++ str_of_int (Z.of_nat level))
                prev sz rnn_cell dir keep) as [enc|e] eqn:Hi;
      cbn [mbind result_bind]; [|discriminate].
    intros Hl. apply IH in Hl. destruct Hl as (Hs & Hc & Hb & Hv).
    pose proof (init_ok_inv _ _ _ _ _ _ _ Hi) as ->.
    cbn [stack checkpoints_below bottom input_sequence Recurrent.name rnn_spec
           dropout_keep_prob] in Hs, Hc, Hb.
    rewrite Hs, Hc, Hb. cbn [imap length seq map].
    rewrite <- !app_assoc. cbn [app]. rewrite Nat.add_0_r.
    repeat split.
    + do 2 f_equal. apply imap_ext. intros k p _. cbn.
      rewrite Nat.add_succ_r. reflexivity.
    + do 2 f_equal. rewrite <- seq_shift, map_map. apply map_ext.
      intros k. rewrite Nat.add_succ_r. reflexivity.
    + intros Hn. constructor; [|auto].
      eapply init_valid_of_ok; eauto.
Qed.

Lemma layers_ok (name rnn_cell : string) (keep : float) (ckp : Checkpoints)
    (pairs : list (Z * string)) :
  is_nan keep = false ->
  Forall (layer_valid rnn_cell keep) pairs ->
  forall (level : nat) (prev : temporal E),
    is_ok (layers class_repr name rnn_cell keep ckp level prev pairs) = true.
Proof.
  intros Hn Hv. induction Hv as [|[sz dir] rest Hp _ IH]; intros level prev; cbn [layers].
  - reflexivity.
  - rewrite (init_ok_valid _ _ _ _ _ _ Hn Hp). cbn [mbind result_bind]. apply IH.
Qed.

(** The pairs of the loop and the arguments of the last call, together,
    are the sizes zipped with the directions. *)
Lemma zip_removelast {A B : Type} (l : list A) (m : list B) :
  length l = length m -> l <> [] ->
  exists a b,
    py_index l (-1) = Ok a /\ py_index m (-1) = Ok b
    /\ (zip (removelast l) m ++ [(a, b)])%list = zip l m
    /\ length (zip (removelast l) m) = (length l - 1)%nat.
Proof.
  revert m. induction l as [|a l IH]; intros m Hlen Hne; [congruence|].
  destruct m as [|b m]; [discriminate|].
  destruct l as [|a' l].
  - destruct m; [|discriminate]. exists a, b. repeat split.
  - destruct m as [|b' m]; [discriminate|].
    destruct (IH (b' :: m)) as (x & y & Hx & Hy & Hz & Hl);
      [cbn in *; lia|discriminate|].
    exists x, y.
    assert (Hidx : forall {C : Type} (c c' : C) (r : list C) (z : C),
               py_index (c' :: r) (-1) = Ok z -> py_index (c :: c' :: r) (-1) = Ok z).
    { intros C c c' r z. unfold py_index.
      change ((-1 <? 0)%Z) with true. cbn beta iota.
      replace (-1 + Z.of_nat (length (c :: c' :: r)))%Z
        with (Z.of_nat (S (length r))) by (cbn [length]; lia).
      replace (-1 + Z.of_nat (length (c' :: r)))%Z
        with (Z.of_nat (length r)) by (cbn [length]; lia).
      rewrite !Nat2Z.id.
      destruct (0 <=? Z.of_nat (length r))%Z eqn:E1; [|discriminate].
      destruct (Z.of_nat (length r) <? Z.of_nat (length (c' :: r)))%Z eqn:E2;
        [|discriminate].
      cbn [andb]. intros H.
      replace ((0 <=? Z.of_nat (S (length r)))%Z) with true
        by (symmetry; apply Z.leb_le; lia).
      replace ((Z.of_nat (S (length r)) <? Z.of_nat (length (c :: c' :: r)))%Z) with true
        by (symmetry; apply Z.ltb_lt; cbn [length]; lia).
      cbn [andb nth_error]. exact H. }
    repeat split; [apply Hidx, Hx|apply Hidx, Hy| |].
    + change (removelast (a :: a' :: l)) with (a :: removelast (a' :: l)).
      cbn [zip zip_with app]. f_equal. exact Hz.
    + change (removelast (a :: a' :: l)) with (a :: removelast (a' :: l)).
      change (length (zip (a :: removelast (a' :: l)) (b :: b' :: m)))
        with (S (length (zip (removelast (a' :: l)) (b' :: m)))).
      rewrite Hl. cbn [length]. lia.
Qed.


(** X19.  For a keep probability that is not NaN, the constructor of
    [RecurrentEncoder] is decided by its four tests: with a positive
    size, a direction of [RNN_DIRECTIONS], a cell type of
    [RNN_CELL_TYPES] and a keep probability in (0, 1] it returns the
    encoder that holds exactly its arguments, and otherwise it raises a
    [ValueError]. *)
Theorem init_decided_by_validation {I : Type} (name : string) (input : I)
    (rnn_size : Z) (rnn_cell rnn_direction : string) (p : float) :
  is_nan p = false ->
  (layer_valid rnn_cell p (rnn_size, rnn_direction) ->
   RecurrentEncoder_init class_repr name input rnn_size rnn_cell rnn_direction p
   = Ok (mkRecurrentEncoder I name input p
           (mkRNNSpec rnn_size rnn_direction rnn_cell)))
  /\ (~ layer_valid rnn_cell p (rnn_size, rnn_direction) ->
      exists msg,
        RecurrentEncoder_init class_repr name input rnn_size rnn_cell
          rnn_direction p = Raise (ValueError msg)).
Proof.
  intros Hn. split.
  - apply init_ok_valid, Hn.
  - intros Hv.
    destruct (RecurrentEncoder_init class_repr name input rnn_size rnn_cell
                rnn_direction p) as [enc|e] eqn:Hi.
    + exfalso. apply Hv. eapply init_valid_of_ok; eauto.
    + destruct (RecurrentEncoder_init_error class_repr _ _ _ _ _ _ _ Hi)
        as (msg & -> & _).
      exists msg. reflexivity.
Qed.

(** X20.  The two errors of [DeepSentenceEncoder.__init__] that come
    from the lengths of its lists.  Different numbers of sizes and
    directions raise the [ValueError] of the first test, before the
    input is embedded and before any size or direction is validated.
    No sizes and no directions pass that test, and once the input is
    embedded the constructor raises [IndexError] at [rnn_sizes[-1]]. *)
Theorem deep_init_length_errors (name : string) (vocabulary : V)
    (data_id : string) (embedding_size : Z) (rnn_cell : string)
    (max_input_len : option Z) (keep : float) (ckp : Checkpoints) :
  (forall rnn_sizes rnn_directions,
      length rnn_sizes <> length rnn_directions ->
      DeepSentenceEncoder_init class_repr EmbeddedSequence name vocabulary
        data_id embedding_size rnn_sizes rnn_directions rnn_cell max_input_len
        keep ckp
      = Raise (ValueError "Different number of rnn sizes and directions."))
  /\ (forall e,
        EmbeddedSequence (name ++ "_input") vocabulary data_id embedding_size
          max_input_len (input_checkpoints ckp) = Ok e ->
        DeepSentenceEncoder_init class_repr EmbeddedSequence name vocabulary
          data_id embedding_size [] [] rnn_cell max_input_len keep ckp
        = Raise IndexError).
Proof.
  split.
  - intros sizes dirs Hne. unfold DeepSentenceEncoder_init.
    apply Nat.eqb_neq in Hne. rewrite Hne. reflexivity.
  - intros e He. unfold DeepSentenceEncoder_init. cbn [length Nat.eqb negb].
    rewrite He. reflexivity.
Qed.

(** X21.  With as many sizes as directions, at least one of each, an
    input that can be embedded and a keep probability that is not NaN,
    [DeepSentenceEncoder.__init__] succeeds exactly when every layer
    passes the validation of [RecurrentEncoder]: the k-th size is
    positive and the k-th direction is one of [RNN_DIRECTIONS], for
    every k, and the cell type and the keep probability are valid. *)
Theorem deep_init_ok_iff (name : string) (vocabulary : V) (data_id : string)
    (embedding_size : Z) (rnn_sizes : list Z) (rnn_directions : list string)
    (rnn_cell : string) (max_input_len : option Z) (keep : float)
    (ckp : Checkpoints) (e : E) :
  is_nan keep = false ->
  length rnn_sizes = length rnn_directions ->
  rnn_sizes <> [] ->
  EmbeddedSequence (name ++ "_input") vocabulary data_id embedding_size
    max_input_len (input_checkpoints ckp) = Ok e ->
  is_ok (DeepSentenceEncoder_init class_repr EmbeddedSequence name vocabulary
           data_id embedding_size rnn_sizes rnn_directions rnn_cell
           max_input_len keep ckp) = true
  <-> Forall (layer_valid rnn_cell keep) (zip rnn_sizes rnn_directions).
Proof.
  intros Hn Hlen Hne He. unfold DeepSentenceEncoder_init.
  rewrite Hlen, Nat.eqb_refl. cbn [negb]. rewrite He. cbn [mbind result_bind].
  destruct (zip_removelast rnn_sizes rnn_directions Hlen Hne)
    as (a & b & Ha & Hb & Hz & _).
  rewrite <- Hz, Forall_app, Forall_singleton.
  split.
  - destruct (layers class_repr name rnn_cell keep ckp 0 (Embedded e)
                (zip (removelast rnn_sizes) rnn_directions)) as [t|err] eqn:Hl;
      cbn [mbind result_bind]; [|discriminate].
    rewrite Ha, Hb. cbn [mbind result_bind].
    destruct (RecurrentEncoder_init class_repr name t a rnn_cell b keep)
      as [enc|err] eqn:Hi; cbn [mbind result_bind]; [|discriminate].
    intros _. split.
    + apply (layers_inv _ _ _ _ _ _ _ _ Hl), Hn.
    + eapply init_valid_of_ok; eauto.
  - intros [Hv Hlast].
    pose proof (layers_ok name rnn_cell keep ckp _ Hn Hv 0%nat (Embedded e)) as Hok.
    destruct (layers class_repr name rnn_cell keep ckp 0 (Embedded e)
                (zip (removelast rnn_sizes) rnn_directions)) as [t|err];
      [|discriminate].
    cbn [mbind result_bind]. rewrite Ha, Hb. cbn [mbind result_bind].
    rewrite (init_ok_valid _ _ _ _ _ _ Hn Hlast). reflexivity.
Qed.

(** X22.  The encoder that [DeepSentenceEncoder.__init__] returns is a
    stack over the embedded input with one recurrent encoder for every
    size: from the bottom, the k-th has the k-th size and the k-th
    direction and the common cell type and keep probability; the ones
    below the top are named [name_layer_0], [name_layer_1], ... and are
    given the checkpoint names of their level, and the top one has the
    name and the checkpoint names of the arguments. *)
Theorem deep_init_stack (name : string) (vocabulary : V) (data_id : string)
    (embedding_size : Z) (rnn_sizes : list Z) (rnn_directions : list string)
    (rnn_cell : string) (max_input_len : option Z) (keep : float)
    (ckp : Checkpoints) (s : SentenceEncoder E) :
  DeepSentenceEncoder_init class_repr EmbeddedSequence name vocabulary data_id
    embedding_size rnn_sizes rnn_directions rnn_cell max_input_len keep ckp
  = Ok s ->
  let below := (length rnn_sizes - 1)%nat in
  map (fun x => snd (fst x)) (full_stack s)
  = map (fun p => mkRNNSpec (fst p) (snd p) rnn_cell) (zip rnn_sizes rnn_directions)
  /\ map (fun x => fst (fst x)) (full_stack s)
     = (map (layer_name name) (seq 0 below) ++ [name])%list
  /\ map snd (full_stack s) = repeat keep (length rnn_sizes)
  /\ checkpoints_below (input_sequence _ (encoder s))
     = map (layer_checkpoints ckp) (seq 0 below)
  /\ checkpoints s = ckp
  /\ Encoders.data_id s = data_id
  /\ EmbeddedSequence (name ++ "_input") vocabulary data_id embedding_size
       max_input_len (input_checkpoints ckp)
     = Ok (bottom (input_sequence _ (encoder s))).
Proof.
  unfold DeepSentenceEncoder_init.
  destruct (length rnn_sizes =? length rnn_directions)%nat eqn:Hlen;
    cbn [negb]; [|discriminate].
  apply Nat.eqb_eq in Hlen.
  destruct (EmbeddedSequence _ _ _ _ _ _) as [e|err] eqn:He;
    cbn [mbind result_bind]; [|discriminate].
  destruct (layers class_repr name rnn_cell keep ckp 0 (Embedded e)
              (zip (removelast rnn_sizes) rnn_directions)) as [t|err] eqn:Hl;
    cbn [mbind result_bind]; [|discriminate].
  destruct (py_index rnn_sizes (-1)) as [a|err] eqn:Ha;
    cbn [mbind result_bind]; [|discriminate].
  destruct (py_index rnn_directions (-1)) as [b|err] eqn:Hb;
    cbn [mbind result_bind]; [|discriminate].
  destruct (RecurrentEncoder_init class_repr name t a rnn_cell b keep)
    as [enc|err] eqn:Hi; cbn [mbind result_bind]; [|discriminate].
  intros [= <-]. pose proof (init_ok_inv _ _ _ _ _ _ _ Hi) as ->.
  assert (Hne : rnn_sizes <> []) by (intros ->; discriminate).
  destruct (zip_removelast rnn_sizes rnn_directions Hlen Hne)
    as (a' & b' & Ha' & Hb' & Hz & Hzl).
  assert (a' = a) as -> by congruence. assert (b' = b) as -> by congruence.
  destruct (layers_inv _ _ _ _ _ _ _ _ Hl) as (Hs & Hc & Hbot & _).
  cbn [stack checkpoints_below bottom app] in Hs, Hc, Hbot.
  cbv zeta.
  unfold full_stack.
  cbn [stack encoder checkpoints Encoders.data_id input_sequence Recurrent.name
         rnn_spec dropout_keep_prob].
  rewrite Hs, Hc, Hbot, Hzl. rewrite !map_app. cbn [map fst snd].
  repeat split.
  - rewrite <- Hz, map_app. cbn [map fst snd]. f_equal.
    clear. generalize (zip (removelast rnn_sizes) rnn_directions) as l.
    intros l. change (fun k p => (layer_name name (0 + k), mkRNNSpec (fst p) (snd p) rnn_cell, keep))
      with (fun (k : nat) (p : Z * string) => (layer_name name k, mkRNNSpec (fst p) (snd p) rnn_cell, keep)).
    generalize (layer_name name) as f. induction l as [|p l IH]; intros f; [reflexivity|].
    cbn [imap map fst snd]. f_equal. apply (IH (f ∘ S)).
  - f_equal. rewrite <- Hzl.
    change (fun k p => (layer_name name (0 + k), mkRNNSpec (fst p) (snd p) rnn_cell, keep))
      with (fun (k : nat) (p : Z * string) => (layer_name name k, mkRNNSpec (fst p) (snd p) rnn_cell, keep)).
    clear. generalize (zip (removelast rnn_sizes) rnn_directions) as l.
    intros l. generalize (layer_name name) as f. induction l as [|p l IH]; intros f; [reflexivity|].
    cbn [imap map fst snd length seq]. f_equal.
    rewrite <- seq_shift, map_map. apply (IH (f ∘ S)).
  - assert (Hrep : forall (l : list (Z * string)) (f : nat -> Z * string -> string * RNNSpec * float),
               (forall k p, snd (f k p) = keep) ->
               map snd (imap f l) = repeat keep (length l)).
    { clear. induction l as [|p l IH]; intros f Hf; [reflexivity|].
      cbn [imap map length repeat]. rewrite Hf. f_equal. apply IH.
      intros k q. apply Hf. }
    rewrite Hrep by reflexivity. rewrite Hzl.
    destruct rnn_sizes as [|z zs]; [congruence|].
    replace (length (z :: zs) - 1)%nat with (length zs) by (cbn [length]; lia).
    cbn [length]. rewrite <- repeat_cons. reflexivity.
Qed.

(** X23.  A [DeepSentenceEncoder] of one layer is the [SentenceEncoder]
    of that size and direction: the two constructors return the same
    encoder or raise the same error. *)
Theorem deep_one_layer_is_sentence_encoder (name : string) (vocabulary : V)
    (data_id : string) (embedding_size rnn_size : Z)
    (rnn_cell rnn_direction : string) (max_input_len : option Z)
    (keep : float) (ckp : Checkpoints) :
  DeepSentenceEncoder_init class_repr EmbeddedSequence name vocabulary data_id
    embedding_size [rnn_size] [rnn_direction] rnn_cell max_input_len keep ckp
  = SentenceEncoder_init class_repr EmbeddedSequence name vocabulary data_id
      embedding_size rnn_size rnn_cell rnn_direction max_input_len keep ckp.
Proof.
  unfold DeepSentenceEncoder_init, SentenceEncoder_init.
  cbn [length Nat.eqb negb removelast zip zip_with].
  destruct (EmbeddedSequence _ _ _ _ _ _) as [e|err]; reflexivity.
Qed.

End EncoderConstruction.


Lemma init_decided_by_validation_witness :
  Recurrent.RecurrentEncoder_init Encoders.ex_class_repr "encoder" tt 300 "GRU"
    "both" 0.5%float
  = Ok (Recurrent.mkRecurrentEncoder unit "encoder" tt 0.5%float
          (Recurrent.mkRNNSpec 300 "both" "GRU")).
Proof.
  apply (proj1 (init_decided_by_validation Encoders.ex_class_repr "encoder" tt
                  300 "GRU" "both" 0.5%float eq_refl)).
  repeat split.
Defined.

Lemma deep_init_ok_iff_witness :
  is_ok (Encoders.DeepSentenceEncoder_init Encoders.ex_class_repr
           Encoders.ex_embedded "encoder" tt "source" 128 [300; 200]%Z
           ["both"; "forward"] "GRU" None 0.5%float Encoders.ex_checkpoints)
  = true.
Proof.
  apply (proj2 (deep_init_ok_iff Encoders.ex_class_repr Encoders.ex_embedded
                  "encoder" tt "source" 128 [300; 200]%Z ["both"; "forward"]
                  "GRU" None 0.5%float Encoders.ex_checkpoints "encoder_input"
                  eq_refl eq_refl ltac:(discriminate) eq_refl)).
  repeat constructor.
Defined.

Lemma deep_init_stack_witness :
  exists s,
    Encoders.DeepSentenceEncoder_init Encoders.ex_class_repr
      Encoders.ex_embedded "encoder" tt "source" 128 [300; 200]%Z
      ["both"; "forward"] "GRU" None 0.5%float Encoders.ex_checkpoints = Ok s
    /\ map (fun x => snd (fst x)) (Encoders.full_stack s)
       = [Recurrent.mkRNNSpec 300 "both" "GRU";
          Recurrent.mkRNNSpec 200 "forward" "GRU"]
    /\ map (fun x => fst (fst x)) (Encoders.full_stack s)
       = ["encoder_layer_0"; "encoder"]
    /\ Encoders.checkpoints_below
         (Recurrent.input_sequence _ (Encoders.encoder s))
       = [Encoders.mkCheckpoints (Some "enc_layer_0") None].
Proof.
  eexists. split; [reflexivity|].
  pose proof (deep_init_stack Encoders.ex_class_repr Encoders.ex_embedded
                "encoder" tt "source" 128 [300; 200]%Z ["both"; "forward"]
                "GRU" None 0.5%float Encoders.ex_checkpoints _ eq_refl) as H.
  destruct H as (H1 & H2 & _ & H4 & _).
  split; [exact H1|split; [exact H2|exact H4]].
Defined.


(* ------------------------------------------------------------------ *)
(** ** The recurrent encoders: the network                              *)
(* ------------------------------------------------------------------ *)

Section RnnProofs.
Import Recurrent Rnn.
#[local] Open Scope list_scope.
#[local] Open Scope nat_scope.

(** *** One example *)

Lemma unroll_length (c : RNNCell) (xs : list (list R)) :
  forall st, length (fst (unroll c st xs)) = length xs.
Proof.
  induction xs as [|x xs IH]; intros st; cbn [unroll]; [reflexivity|].
  destruct (call c x st) as [o st1].
  specialize (IH st1). destruct (unroll c st1 xs) as [outs st'].
  cbn [fst length] in *. lia.
Qed.

Lemma unroll_app (c : RNNCell) (xs ys : list (list R)) :
  forall st,
    unroll c st (xs ++ ys)
    = (fst (unroll c st xs) ++ fst (unroll c (snd (unroll c st xs)) ys),
       snd (unroll c (snd (unroll c st xs)) ys)).
Proof.
  induction xs as [|x xs IH]; intros st; cbn [unroll app].
  - cbn [fst snd app]. destruct (unroll c st ys); reflexivity.
  - destruct (call c x st) as [o st1]. rewrite IH.
    destruct (unroll c st1 xs) as [outs st']. cbn [fst snd].
    destruct (unroll c st' ys); reflexivity.
Qed.

(** An output of the cell depends on the inputs up to its position. *)
Lemma unroll_nth_prefix (c : RNNCell) (xs : list (list R)) (st : cell_state)
    (t : nat) (d : list R) :
  t < length xs ->
  nth t (fst (unroll c st xs)) d = nth t (fst (unroll c st (take (S t) xs))) d.
Proof.
  intros Ht. rewrite <- (take_drop (S t) xs) at 1. rewrite unroll_app.
  cbn [fst]. rewrite app_nth1; [reflexivity|].
  rewrite unroll_length, length_take. lia.
Qed.

Lemma run_cell_0 (c : RNNCell) (xs : list (list R)) (st : cell_state) :
  run_cell c st xs 0 = (repeat (repeat 0%R (output_size c)) (length xs), st).
Proof.
  induction xs as [|x xs IH]; cbn [run_cell]; [reflexivity|].
  rewrite IH. reflexivity.
Qed.

(** Up to the length the cell is run; past it, zero outputs follow and
    the state stays. *)
Lemma run_cell_split (c : RNNCell) (xs : list (list R)) :
  forall (st : cell_state) (len : nat),
    len <= length xs ->
    run_cell c st xs len
    = (fst (unroll c st (take len xs))
         ++ repeat (repeat 0%R (output_size c)) (length xs - len),
       snd (unroll c st (take len xs))).
Proof.
  induction xs as [|x xs IH]; intros st len Hlen.
  - cbn in Hlen. assert (len = 0) as -> by lia. reflexivity.
  - destruct len as [|len].
    + rewrite run_cell_0. reflexivity.
    + cbn [run_cell take firstn unroll length]. cbn [length] in Hlen.
      destruct (call c x st) as [o st1].
      rewrite (IH st1 len) by lia.
      destruct (unroll c st1 (take len xs)) as [outs st']. reflexivity.
Qed.

Lemma reverse_example_length (ex : list (list R)) (len : nat) :
  length (reverse_example ex len) = length ex.
Proof.
  unfold reverse_example.
  rewrite length_app, length_rev, length_take, length_drop. lia.
Qed.

Lemma reverse_example_take (ex : list (list R)) (len : nat) :
  len <= length ex ->
  take len (reverse_example ex len) = rev (take len ex).
Proof.
  intros Hlen. unfold reverse_example.
  rewrite take_app_length'; [reflexivity|].
  rewrite length_rev, length_take. lia.
Qed.

Lemma forward_example_eq (c : RNNCell) (ex : list (list R)) (len : nat) :
  len <= length ex ->
  forward_example c ex len
  = fst (unroll c (zero_state c) (take len ex))
      ++ repeat (repeat 0%R (output_size c)) (length ex - len).
Proof.
  intros Hlen. unfold forward_example. rewrite run_cell_split by exact Hlen.
  reflexivity.
Qed.

Lemma backward_example_eq (c : RNNCell) (ex : list (list R)) (len : nat) :
  len <= length ex ->
  backward_example c ex len
  = rev (fst (unroll c (zero_state c) (rev (take len ex))))
      ++ repeat (repeat 0%R (output_size c)) (length ex - len).
Proof.
  intros Hlen. unfold backward_example.
  rewrite run_cell_split by (rewrite reverse_example_length; exact Hlen).
  cbn [fst]. rewrite reverse_example_take by exact Hlen.
  rewrite reverse_example_length.
  set (outs := fst (unroll c (zero_state c) (rev (take len ex)))).
  assert (Hl : length outs = len).
  { unfold outs. rewrite unroll_length, length_rev, length_take. lia. }
  unfold reverse_example.
  rewrite take_app_length' by (symmetry; exact Hl).
  rewrite drop_app_length' by (symmetry; exact Hl). reflexivity.
Qed.

Lemma forward_example_length (c : RNNCell) (ex : list (list R)) (len : nat) :
  length (forward_example c ex len) = length ex.
Proof.
  unfold forward_example. generalize (zero_state c) as st. revert len.
  induction ex as [|x ex IH]; intros len st; [reflexivity|].
  cbn [run_cell]. destruct len as [|len].
  - specialize (IH 0 st). destruct (run_cell c st ex 0). cbn [fst length] in *. lia.
  - destruct (call c x st) as [o st1]. specialize (IH len st1).
    destruct (run_cell c st1 ex len). cbn [fst length] in *. lia.
Qed.

Lemma backward_example_length (c : RNNCell) (ex : list (list R)) (len : nat) :
  length (backward_example c ex len) = length ex.
Proof.
  unfold backward_example. rewrite reverse_example_length.
  apply (eq_trans (forward_example_length c (reverse_example ex len) len)).
  apply reverse_example_length.
Qed.


Lemma run_cell_widths (c : RNNCell) (W : nat) (ex : list (list R)) :
  output_size c = W ->
  (forall x st, length (fst (call c x st)) = W) ->
  forall (st : cell_state) (len : nat),
    Forall (fun v => length v = W) (fst (run_cell c st ex len)).
Proof.
  intros Hz Hc. induction ex as [|x ex IH]; intros st len; cbn [run_cell].
  - constructor.
  - destruct len as [|len].
    + specialize (IH st 0). destruct (run_cell c st ex 0). cbn [fst] in *.
      constructor; [|exact IH]. rewrite repeat_length. exact Hz.
    + specialize (Hc x st). destruct (call c x st) as [o st1].
      specialize (IH st1 len). destruct (run_cell c st1 ex len). cbn [fst] in *.
      constructor; assumption.
Qed.

Lemma reverse_example_Forall (P : list R -> Prop) (ex : list (list R)) (len : nat) :
  Forall P ex -> Forall P (reverse_example ex len).
Proof.
  intros H. unfold reverse_example. rewrite <- (take_drop len ex) in H.
  apply Forall_app in H. destruct H as [H1 H2].
  apply Forall_app. split; [|exact H2].
  apply List.Forall_rev, H1.
Qed.

Lemma forward_example_zero (c : RNNCell) (ex : list (list R)) (len t : nat) :
  len <= t < length ex ->
  nth t (forward_example c ex len) [] = repeat 0%R (output_size c).
Proof.
  intros Ht. rewrite forward_example_eq by lia.
  rewrite app_nth2; rewrite unroll_length, length_take; [|lia].
  apply nth_repeat_lt. lia.
Qed.

Lemma backward_example_zero (c : RNNCell) (ex : list (list R)) (len t : nat) :
  len <= t < length ex ->
  nth t (backward_example c ex len) [] = repeat 0%R (output_size c).
Proof.
  intros Ht. rewrite backward_example_eq by lia.
  rewrite app_nth2; rewrite length_rev, unroll_length, length_rev, length_take; [|lia].
  apply nth_repeat_lt. lia.
Qed.

(** A forward output depends on the inputs up to its position. *)
Lemma forward_example_prefix (c : RNNCell) (ex ex' : list (list R))
    (len t : nat) (d : list R) :
  len <= length ex -> len <= length ex' -> t < len ->
  take (S t) ex' = take (S t) ex ->
  nth t (forward_example c ex' len) d = nth t (forward_example c ex len) d.
Proof.
  intros Hl Hl' Ht Heq.
  assert (Hone : forall e, len <= length e ->
             nth t (forward_example c e len) d
             = nth t (fst (unroll c (zero_state c) (take (S t) e))) d).
  { intros e He. rewrite forward_example_eq by exact He.
    rewrite app_nth1 by (rewrite unroll_length, length_take; lia).
    rewrite unroll_nth_prefix by (rewrite length_take; lia).
    rewrite take_take. replace (S t `min` len) with (S t) by lia. reflexivity. }
  rewrite !Hone by assumption. rewrite Heq. reflexivity.
Qed.

(** A backward output depends on the inputs from its position to the
    length. *)
Lemma backward_example_suffix (c : RNNCell) (ex ex' : list (list R))
    (len t : nat) (d : list R) :
  len <= length ex -> len <= length ex' -> t < len ->
  drop t (take len ex') = drop t (take len ex) ->
  nth t (backward_example c ex' len) d = nth t (backward_example c ex len) d.
Proof.
  intros Hl Hl' Ht Heq.
  assert (Hone : forall e, len <= length e ->
             nth t (backward_example c e len) d
             = nth (len - S t)
                 (fst (unroll c (zero_state c) (rev (drop t (take len e))))) d).
  { intros e He. rewrite backward_example_eq by exact He.
    assert (Hlen : length (take len e) = len) by (rewrite length_take; lia).
    rewrite app_nth1
      by (rewrite length_rev, unroll_length, length_rev, Hlen; lia).
    rewrite rev_nth by (rewrite unroll_length, length_rev, Hlen; lia).
    rewrite unroll_length, length_rev, Hlen.
    rewrite unroll_nth_prefix by (rewrite length_rev, Hlen; lia).
    rewrite firstn_rev, Hlen.
    replace (len - S (len - S t)) with t by lia. reflexivity. }
  rewrite !Hone by assumption. rewrite Heq. reflexivity.
Qed.

(** *** The batch *)

Lemma map_fst_zip_with {A B C D : Type} (g : A -> B -> C * D) (x : list A)
    (l : list B) :
  map fst (zip_with g x l) = zip_with (fun a b => fst (g a b)) x l.
Proof.
  revert l. induction x as [|a x IH]; intros [|b l]; cbn; try reflexivity.
  f_equal. apply IH.
Qed.

Lemma zip_with_zip_with_same {A B C D : Type} (f : C -> B -> D)
    (g : A -> B -> C) (x : list A) (l : list B) :
  zip_with f (zip_with g x l) l = zip_with (fun a b => f (g a b) b) x l.
Proof.
  revert l. induction x as [|a x IH]; intros [|b l]; cbn; try reflexivity.
  f_equal. apply IH.
Qed.

Lemma valid_lengths_length (x : tensor3) (lens : list nat) :
  valid_lengths x lens -> length lens = length x.
Proof. intros H. symmetry. eapply Forall2_length, H. Qed.

Lemma valid_lengths_nth (x : tensor3) (lens : list nat) (i : nat) :
  valid_lengths x lens -> i < length x ->
  nth i lens 0 <= length (nth i x []).
Proof.
  intros H. revert i. induction H as [|ex len x lens Hle _ IH]; intros [|i];
    cbn [length nth]; try lia.
  intros Hi. apply IH. lia.
Qed.

Section WithCells.

Variable new_cell : rnn_cell_class -> Z -> string -> RNNCell.

Lemma dynamic_rnn_outputs (cell : string -> RNNCell) (scope : string)
    (x : tensor3) (lens : list nat) :
  fst (dynamic_rnn cell scope x lens)
  = zip_with (forward_example (cell scope)) x lens.
Proof. unfold dynamic_rnn. cbn [fst]. apply map_fst_zip_with. Qed.

Lemma backward_outputs (cell : string -> RNNCell) (scope : string)
    (x : tensor3) (lens : list nat) :
  reverse_sequence
    (fst (dynamic_rnn cell scope (reverse_sequence x lens) lens)) lens
  = zip_with (backward_example (cell scope)) x lens.
Proof.
  rewrite dynamic_rnn_outputs. unfold reverse_sequence.
  rewrite !zip_with_zip_with_same. reflexivity.
Qed.

(** The cell class of a spec, and the outputs of [rnn] example by
    example, for each direction. *)
Lemma rnn_outputs (spec : RNNSpec) (x : tensor3) (lens : list nat)
    (outs : tensor3) (fin : list cell_state) :
  rnn new_cell spec x lens = Ok (outs, fin) ->
  exists cls,
    dict_get RNN_CELL_TYPES (cell_type spec) = Ok cls
    /\ outs
       = if String.eqb (direction spec) "both" then
           zip_with (zip_with app)
             (zip_with (forward_example
                          (new_cell cls (size spec) "bidirectional_rnn/fw")) x lens)
             (zip_with (backward_example
                          (new_cell cls (size spec) "bidirectional_rnn/bw")) x lens)
         else if String.eqb (direction spec) "backward" then
           zip_with (backward_example (new_cell cls (size spec) "rnn")) x lens
         else
           zip_with (forward_example (new_cell cls (size spec) "rnn")) x lens.
Proof.
  unfold rnn, _make_rnn_cell.
  destruct (dict_get RNN_CELL_TYPES (cell_type spec)) as [cls|e] eqn:Hc;
    cbn [mbind result_bind].
  2:{ destruct (String.eqb (direction spec) "both"); discriminate. }
  intros H. exists cls. split; [reflexivity|].
  destruct (String.eqb (direction spec) "both").
  - unfold bidirectional_dynamic_rnn in H.
    pose proof (dynamic_rnn_outputs (new_cell cls (size spec))
                  "bidirectional_rnn/fw" x lens) as Hfw.
    pose proof (backward_outputs (new_cell cls (size spec))
                  "bidirectional_rnn/bw" x lens) as Hbw.
    destruct (dynamic_rnn (new_cell cls (size spec)) "bidirectional_rnn/fw" x lens)
      as [ofw sfw].
    destruct (dynamic_rnn (new_cell cls (size spec)) "bidirectional_rnn/bw"
                (reverse_sequence x lens) lens) as [tmp sbw].
    cbn [fst snd] in *.
    destruct (mapM _ sfw); cbn [mbind result_bind] in H; [|discriminate].
    destruct (mapM _ sbw); cbn [mbind result_bind] in H; [|discriminate].
    injection H as <- _. rewrite Hfw, Hbw. reflexivity.
  - destruct (String.eqb (direction spec) "backward").
    + pose proof (backward_outputs (new_cell cls (size spec)) "rnn" x lens) as Hbw.
      destruct (dynamic_rnn (new_cell cls (size spec)) "rnn"
                  (reverse_sequence x lens) lens) as [o s].
      cbn [fst] in Hbw.
      destruct (String.eqb (cell_type spec) "LSTM").
      * destruct (mapM state_h s); cbn [mbind result_bind] in H; [|discriminate].
        injection H as <- _. exact Hbw.
      * cbn [mbind result_bind] in H. injection H as <- _. exact Hbw.
    + pose proof (dynamic_rnn_outputs (new_cell cls (size spec)) "rnn" x lens) as Hfw.
      destruct (dynamic_rnn (new_cell cls (size spec)) "rnn" x lens) as [o s].
      cbn [fst] in Hfw.
      destruct (String.eqb (cell_type spec) "LSTM").
      * destruct (mapM state_h s); cbn [mbind result_bind] in H; [|discriminate].
        injection H as <- _. exact Hfw.
      * cbn [mbind result_bind] in H. injection H as <- _. exact Hfw.
Qed.


(** One example of the outputs of [rnn]. *)
Lemma rnn_example (spec : RNNSpec) (x : tensor3) (lens : list nat)
    (outs : tensor3) (fin : list cell_state) :
  valid_lengths x lens ->
  rnn new_cell spec x lens = Ok (outs, fin) ->
  exists cls,
    dict_get RNN_CELL_TYPES (cell_type spec) = Ok cls
    /\ length outs = length x
    /\ forall i, i < length x ->
         nth i outs []
         = if String.eqb (direction spec) "both" then
             zip_with app
               (forward_example (new_cell cls (size spec) "bidirectional_rnn/fw")
                  (nth i x []) (nth i lens 0))
               (backward_example (new_cell cls (size spec) "bidirectional_rnn/bw")
                  (nth i x []) (nth i lens 0))
           else if String.eqb (direction spec) "backward" then
             backward_example (new_cell cls (size spec) "rnn")
               (nth i x []) (nth i lens 0)
           else
             forward_example (new_cell cls (size spec) "rnn")
               (nth i x []) (nth i lens 0).
Proof.
  intros Hv H. apply rnn_outputs in H. destruct H as (cls & Hc & ->).
  pose proof (valid_lengths_length _ _ Hv) as Hl.
  exists cls. split; [exact Hc|].
  destruct (String.eqb (direction spec) "both");
    [|destruct (String.eqb (direction spec) "backward")].
  - split.
    + rewrite !length_zip_with. lia.
    + intros i Hi.
      rewrite (nth_zip_with _ _ _ _ [] [] []) by (rewrite !length_zip_with; lia).
      rewrite !(nth_zip_with _ _ _ _ [] 0%nat []) by lia. reflexivity.
  - split.
    + rewrite length_zip_with. lia.
    + intros i Hi. rewrite (nth_zip_with _ _ _ _ [] 0%nat []) by lia. reflexivity.
  - split.
    + rewrite length_zip_with. lia.
    + intros i Hi. rewrite (nth_zip_with _ _ _ _ [] 0%nat []) by lia. reflexivity.
Qed.

Lemma widths_zip_with_app (W1 W2 : nat) (a b : list (list R)) :
  Forall (fun v => length v = W1) a ->
  Forall (fun v => length v = W2) b ->
  Forall (fun v => length v = W1 + W2) (zip_with app a b).
Proof.
  intros Ha. revert b. induction Ha as [|v a Hv _ IH]; intros b Hb; [constructor|].
  destruct Hb as [|w b Hw Hb]; [constructor|].
  cbn [zip_with]. constructor; [rewrite length_app; lia|apply IH, Hb].
Qed.

Lemma forward_example_widths (c : RNNCell) (W : nat) (ex : list (list R))
    (len : nat) :
  output_size c = W ->
  (forall x st, length (fst (call c x st)) = W) ->
  Forall (fun v => length v = W) (forward_example c ex len).
Proof. intros Hz Hc. apply run_cell_widths; assumption. Qed.

Lemma backward_example_widths (c : RNNCell) (W : nat) (ex : list (list R))
    (len : nat) :
  output_size c = W ->
  (forall x st, length (fst (call c x st)) = W) ->
  Forall (fun v => length v = W) (backward_example c ex len).
Proof.
  intros Hz Hc. apply reverse_example_Forall, run_cell_widths; assumption.
Qed.

(** Inputs past the lengths do not reach the cell. *)
Lemma run_cell_padding (c : RNNCell) (st : cell_state) (ex ex' : list (list R))
    (len : nat) :
  len <= length ex -> length ex' = length ex -> take len ex' = take len ex ->
  run_cell c st ex' len = run_cell c st ex len
  /\ run_cell c st (reverse_example ex' len) len
     = run_cell c st (reverse_example ex len) len.
Proof.
  intros Hl Hlen Ht. split.
  - rewrite !run_cell_split by lia. rewrite Ht, Hlen. reflexivity.
  - rewrite !run_cell_split by (rewrite reverse_example_length; lia).
    rewrite !reverse_example_take by lia.
    rewrite !reverse_example_length, Ht, Hlen. reflexivity.
Qed.

Lemma dynamic_rnn_padding (cell : string -> RNNCell) (scope : string)
    (x x' : tensor3) (lens : list nat) :
  same_up_to_lengths x x' lens ->
  dynamic_rnn cell scope x' lens = dynamic_rnn cell scope x lens
  /\ dynamic_rnn cell scope (reverse_sequence x' lens) lens
     = dynamic_rnn cell scope (reverse_sequence x lens) lens.
Proof.
  intros H. unfold dynamic_rnn, reverse_sequence.
  assert (Hz : zip_with (run_cell (cell scope) (zero_state (cell scope))) x' lens
               = zip_with (run_cell (cell scope) (zero_state (cell scope))) x lens
               /\ zip_with (run_cell (cell scope) (zero_state (cell scope)))
                    (zip_with reverse_example x' lens) lens
                  = zip_with (run_cell (cell scope) (zero_state (cell scope)))
                      (zip_with reverse_example x lens) lens).
  { induction H as [|ex ex' len x x' lens (Hl & Hlen & Ht) _ [IH1 IH2]];
      [split; reflexivity|].
    cbn [zip_with].
    destruct (run_cell_padding (cell scope) (zero_state (cell scope)) ex ex' len
                Hl Hlen Ht) as [-> ->].
    rewrite IH1, IH2. split; reflexivity. }
  destruct Hz as [-> ->]. split; reflexivity.
Qed.

Lemma cells_sized_at (cls : rnn_cell_class) (n : Z) (scope : string) :
  cells_sized new_cell ->
  output_size (new_cell cls n scope) = Z.to_nat n
  /\ forall x st, length (fst (call (new_cell cls n scope) x st)) = Z.to_nat n.
Proof. intros H. apply H. Qed.

(** X24.  A spec that [_make_rnn_spec] has made always finds its cell:
    [_make_rnn_cell] returns the cell of the class that [RNN_CELL_TYPES]
    gives the cell type, with the size of the spec as its number of
    units.  For a spec with a cell type that is no key of the dict, which
    only a spec made by hand can be, it raises [KeyError]. *)
Theorem make_rnn_cell_finds_class (class_repr : rnn_cell_class -> string) :
  (forall (rnn_size : Z) (rnn_direction rnn_cell : string) (spec : RNNSpec),
      _make_rnn_spec class_repr rnn_size rnn_direction rnn_cell = Ok spec ->
      exists cls,
        _make_rnn_cell new_cell spec = Ok (new_cell cls rnn_size)
        /\ ((rnn_cell = "NematusGRU" /\ cls = NematusGRUCell)
            \/ (rnn_cell = "GRU" /\ cls = OrthoGRUCell)
            \/ (rnn_cell = "LSTM" /\ cls = LSTMCell)))
  /\ (forall spec : RNNSpec,
        in_dict (cell_type spec) RNN_CELL_TYPES = false ->
        _make_rnn_cell new_cell spec = Raise (KeyError (cell_type spec))).
Proof.
  split.
  - intros sz dir c spec Hs. apply make_rnn_spec_ok in Hs.
    destruct Hs as (_ & _ & Hc & ->). apply in_dict_cell_types in Hc.
    unfold _make_rnn_cell. cbn [cell_type size].
    destruct Hc as [-> | [-> | ->]]; eexists; (split; [reflexivity|]); tauto.
  - intros spec Hc. unfold _make_rnn_cell, dict_get.
    unfold in_dict in Hc.
    destruct (find _ RNN_CELL_TYPES) as [kv|] eqn:Hf; [|reflexivity].
    apply find_some in Hf. destruct Hf as [Hin Heq].
    assert (existsb (fun kv => String.eqb (cell_type spec) (fst kv)) RNN_CELL_TYPES
            = true) by (apply existsb_exists; eauto).
    congruence.
Qed.

(** X25.  The outputs of [rnn] keep the batch and the time axis of the
    input, and every output vector has the width of the spec: the size
    for a forward or a backward encoder, twice the size for a
    bidirectional one.  The cells are taken to have as many units as
    they are asked for. *)
Theorem rnn_output_shape (spec : RNNSpec) (x : tensor3) (lens : list nat)
    (outs : tensor3) (fin : list cell_state) :
  cells_sized new_cell ->
  valid_lengths x lens ->
  rnn new_cell spec x lens = Ok (outs, fin) ->
  length outs = length x
  /\ forall i, i < length x ->
       has_shape (length (nth i x [])) (width spec) (nth i outs []).
Proof.
  intros Hs Hv H. destruct (rnn_example _ _ _ _ _ Hv H) as (cls & _ & Hlen & Hi).
  split; [exact Hlen|]. intros i Hlt. rewrite (Hi i Hlt). unfold width, has_shape.
  destruct (String.eqb (direction spec) "both");
    [|destruct (String.eqb (direction spec) "backward")].
  - destruct (cells_sized_at cls (size spec) "bidirectional_rnn/fw" Hs) as [Hz1 Hc1].
    destruct (cells_sized_at cls (size spec) "bidirectional_rnn/bw" Hs) as [Hz2 Hc2].
    split.
    + rewrite length_zip_with, forward_example_length, backward_example_length. lia.
    + apply widths_zip_with_app;
        [apply forward_example_widths|apply backward_example_widths]; assumption.
  - destruct (cells_sized_at cls (size spec) "rnn" Hs) as [Hz Hc].
    split; [apply backward_example_length|].
    apply backward_example_widths; assumption.
  - destruct (cells_sized_at cls (size spec) "rnn" Hs) as [Hz Hc].
    split; [apply forward_example_length|].
    apply forward_example_widths; assumption.
Qed.

(** X26.  Past the length of an example the outputs of [rnn] are zero
    vectors, in every direction: the padding of the input leaves no
    trace in the outputs at its positions. *)
Theorem rnn_zero_past_length (spec : RNNSpec) (x : tensor3) (lens : list nat)
    (outs : tensor3) (fin : list cell_state) (i t : nat) :
  cells_sized new_cell ->
  valid_lengths x lens ->
  rnn new_cell spec x lens = Ok (outs, fin) ->
  i < length x ->
  nth i lens 0 <= t < length (nth i x []) ->
  nth t (nth i outs []) [] = repeat 0%R (width spec).
Proof.
  intros Hs Hv H Hi Ht.
  destruct (rnn_example _ _ _ _ _ Hv H) as (cls & _ & _ & Hex).
  rewrite (Hex i Hi). unfold width.
  destruct (String.eqb (direction spec) "both");
    [|destruct (String.eqb (direction spec) "backward")].
  - rewrite (nth_zip_with _ _ _ _ [] [] [])
      by (rewrite ?forward_example_length, ?backward_example_length; lia).
    rewrite forward_example_zero, backward_example_zero by exact Ht.
    rewrite (proj1 (cells_sized_at cls (size spec) "bidirectional_rnn/fw" Hs)).
    rewrite (proj1 (cells_sized_at cls (size spec) "bidirectional_rnn/bw" Hs)).
    symmetry. apply repeat_app.
  - rewrite backward_example_zero by exact Ht.
    rewrite (proj1 (cells_sized_at cls (size spec) "rnn" Hs)). reflexivity.
  - rewrite forward_example_zero by exact Ht.
    rewrite (proj1 (cells_sized_at cls (size spec) "rnn" Hs)). reflexivity.
Qed.

(** X27.  [rnn] does not read the padding: two batches with the same
    numbers of time steps and the same inputs up to the length of each
    example give the same outputs and the same final states, or the same
    error, in every direction. *)
Theorem rnn_ignores_padding (spec : RNNSpec) (x x' : tensor3) (lens : list nat) :
  same_up_to_lengths x x' lens ->
  rnn new_cell spec x' lens = rnn new_cell spec x lens.
Proof.
  intros H. unfold rnn, bidirectional_dynamic_rnn.
  destruct (_make_rnn_cell new_cell spec) as [cell|e]; [|reflexivity].
  cbn [mbind result_bind].
  destruct (String.eqb (direction spec) "both").
  - rewrite (proj1 (dynamic_rnn_padding cell "bidirectional_rnn/fw" x x' lens H)).
    rewrite (proj2 (dynamic_rnn_padding cell "bidirectional_rnn/bw" x x' lens H)).
    reflexivity.
  - destruct (String.eqb (direction spec) "backward").
    + rewrite (proj2 (dynamic_rnn_padding cell "rnn" x x' lens H)). reflexivity.
    + rewrite (proj1 (dynamic_rnn_padding cell "rnn" x x' lens H)). reflexivity.
Qed.

(** X28.  What an output of [rnn] inside the length depends on, besides
    the weights: for a forward encoder on the inputs of the example up
    to its position, for a backward encoder on the inputs from its
    position to the length of the example; for a bidirectional encoder
    the first half of the output vector is the forward one and the second
    half the backward one. *)
Theorem rnn_direction_dependence (spec : RNNSpec) (x x' : tensor3)
    (lens : list nat) (outs outs' : tensor3) (fin fin' : list cell_state)
    (i t : nat) :
  cells_sized new_cell ->
  valid_lengths x lens -> valid_lengths x' lens ->
  rnn new_cell spec x lens = Ok (outs, fin) ->
  rnn new_cell spec x' lens = Ok (outs', fin') ->
  i < length x -> t < nth i lens 0 ->
  let len := nth i lens 0 in
  let o := nth t (nth i outs []) [] in
  let o' := nth t (nth i outs' []) [] in
  let units := Z.to_nat (size spec) in
  (direction spec = "forward" ->
   take (S t) (nth i x' []) = take (S t) (nth i x []) -> o' = o)
  /\ (direction spec = "backward" ->
      drop t (take len (nth i x' [])) = drop t (take len (nth i x [])) -> o' = o)
  /\ (direction spec = "both" ->
      (take (S t) (nth i x' []) = take (S t) (nth i x []) ->
       take units o' = take units o)
      /\ (drop t (take len (nth i x' [])) = drop t (take len (nth i x [])) ->
          drop units o' = drop units o)).
Proof.
  intros Hs Hv Hv' H H' Hi Ht.
  destruct (rnn_example _ _ _ _ _ Hv H) as (cls & Hc & _ & Hex).
  destruct (rnn_example _ _ _ _ _ Hv' H') as (cls' & Hc' & _ & Hex').
  assert (cls' = cls) as -> by congruence.
  assert (Hi' : i < length x').
  { rewrite <- (valid_lengths_length _ _ Hv'), (valid_lengths_length _ _ Hv). exact Hi. }
  pose proof (valid_lengths_nth _ _ i Hv Hi) as Hl.
  pose proof (valid_lengths_nth _ _ i Hv' Hi') as Hl'.
  cbv zeta. rewrite (Hex i Hi), (Hex' i Hi').
  split; [|split].
  - intros -> Heq. cbn [String.eqb Ascii.eqb Bool.eqb].
    apply forward_example_prefix; assumption.
  - intros -> Heq. cbn [String.eqb Ascii.eqb Bool.eqb].
    apply backward_example_suffix; assumption.
  - intros ->. cbn [String.eqb Ascii.eqb Bool.eqb].
    destruct (cells_sized_at cls (size spec) "bidirectional_rnn/fw" Hs) as [Hz1 Hc1].
    destruct (cells_sized_at cls (size spec) "bidirectional_rnn/bw" Hs) as [Hz2 Hc2].
    rewrite !(nth_zip_with _ _ _ _ [] [] [])
      by (rewrite ?forward_example_length, ?backward_example_length; lia).
    assert (Hw : forall e, t < length e ->
               length (nth t (forward_example
                                (new_cell cls (size spec) "bidirectional_rnn/fw")
                                e (nth i lens 0)) [])
               = Z.to_nat (size spec)).
    { intros e He.
      pose proof (forward_example_widths _ _ e (nth i lens 0) Hz1 Hc1) as Hf.
      rewrite List.Forall_forall in Hf. apply Hf, nth_In.
      rewrite forward_example_length. exact He. }
    split; intros Heq.
    + rewrite !take_app_length' by (symmetry; apply Hw; lia).
      apply forward_example_prefix; assumption.
    + rewrite !drop_app_length' by (symmetry; apply Hw; lia).
      apply backward_example_suffix; assumption.
Qed.

End WithCells.

End RnnProofs.


Lemma ex_new_cell_sized : Rnn.cells_sized Rnn.ex_new_cell.
Proof.
  intros cls n scope. destruct cls; cbn; (split; [reflexivity|]);
    intros x st; rewrite length_map, length_seq; reflexivity.
Qed.

Lemma ex_batch_valid : Rnn.valid_lengths Rnn.ex_batch Rnn.ex_lengths.
Proof.
  constructor; [cbn; lia|]. constructor; [cbn; lia|]. constructor.
Qed.

Lemma ex_batch_late_valid : Rnn.valid_lengths Rnn.ex_batch_late Rnn.ex_lengths.
Proof.
  constructor; [cbn; lia|]. constructor; [cbn; lia|]. constructor.
Qed.

Lemma ex_batch_same_up_to_lengths :
  Rnn.same_up_to_lengths Rnn.ex_batch Rnn.ex_batch_padded Rnn.ex_lengths.
Proof.
  constructor; [split; [cbn; lia|split; reflexivity]|].
  constructor; [split; [cbn; lia|split; reflexivity]|].
  constructor.
Qed.

Lemma make_rnn_cell_finds_class_witness :
  exists cls,
    Rnn._make_rnn_cell Rnn.ex_new_cell (Recurrent.mkRNNSpec 2 "both" "LSTM")
    = Ok (Rnn.ex_new_cell cls 2)
    /\ (("LSTM" = "NematusGRU" /\ cls = Recurrent.NematusGRUCell)
        \/ ("LSTM" = "GRU" /\ cls = Recurrent.OrthoGRUCell)
        \/ ("LSTM" = "LSTM" /\ cls = Recurrent.LSTMCell)).
Proof.
  apply (proj1 (make_rnn_cell_finds_class Rnn.ex_new_cell Encoders.ex_class_repr)
           2%Z "both" "LSTM" (Recurrent.mkRNNSpec 2 "both" "LSTM")).
  reflexivity.
Defined.

Lemma rnn_output_shape_witness :
  exists outs fin,
    Rnn.rnn Rnn.ex_new_cell (Recurrent.mkRNNSpec 2 "both" "GRU") Rnn.ex_batch
      Rnn.ex_lengths = Ok (outs, fin)
    /\ length outs = 2%nat
    /\ has_shape 3 4 (nth 0 outs []).
Proof.
  eexists. eexists. split; [reflexivity|].
  destruct (rnn_output_shape Rnn.ex_new_cell (Recurrent.mkRNNSpec 2 "both" "GRU")
              Rnn.ex_batch Rnn.ex_lengths _ _ ex_new_cell_sized ex_batch_valid
              eq_refl) as [H1 H2].
  split; [exact H1|]. apply (H2 0%nat). cbn. lia.
Defined.

Lemma rnn_zero_past_length_witness :
  exists outs fin,
    Rnn.rnn Rnn.ex_new_cell (Recurrent.mkRNNSpec 2 "backward" "LSTM")
      Rnn.ex_batch Rnn.ex_lengths = Ok (outs, fin)
    /\ nth 2 (nth 0 outs []) [] = [0; 0]%R.
Proof.
  eexists. eexists. split; [reflexivity|].
  apply (rnn_zero_past_length Rnn.ex_new_cell
           (Recurrent.mkRNNSpec 2 "backward" "LSTM") Rnn.ex_batch Rnn.ex_lengths
           _ _ 0%nat 2%nat ex_new_cell_sized ex_batch_valid eq_refl).
  - cbn. lia.
  - cbn. lia.
Defined.

Lemma rnn_ignores_padding_witness :
  Rnn.rnn Rnn.ex_new_cell (Recurrent.mkRNNSpec 2 "both" "GRU")
    Rnn.ex_batch_padded Rnn.ex_lengths
  = Rnn.rnn Rnn.ex_new_cell (Recurrent.mkRNNSpec 2 "both" "GRU") Rnn.ex_batch
      Rnn.ex_lengths.
Proof.
  apply (rnn_ignores_padding Rnn.ex_new_cell
           (Recurrent.mkRNNSpec 2 "both" "GRU") Rnn.ex_batch Rnn.ex_batch_padded
           Rnn.ex_lengths ex_batch_same_up_to_lengths).
Defined.

Lemma rnn_direction_dependence_witness :
  exists outs fin outs' fin',
    Rnn.rnn Rnn.ex_new_cell (Recurrent.mkRNNSpec 2 "forward" "GRU") Rnn.ex_batch
      Rnn.ex_lengths = Ok (outs, fin)
    /\ Rnn.rnn Rnn.ex_new_cell (Recurrent.mkRNNSpec 2 "forward" "GRU")
         Rnn.ex_batch_late Rnn.ex_lengths = Ok (outs', fin')
    /\ nth 0 (nth 0 outs' []) [] = nth 0 (nth 0 outs []) [].
Proof.
  do 4 eexists. split; [reflexivity|]. split; [reflexivity|].
  assert (H0 : (0 < length Rnn.ex_batch)%nat) by (cbn; lia).
  assert (H1 : (0 < nth 0 Rnn.ex_lengths 0)%nat) by (cbn; lia).
  destruct (rnn_direction_dependence Rnn.ex_new_cell
              (Recurrent.mkRNNSpec 2 "forward" "GRU") Rnn.ex_batch
              Rnn.ex_batch_late Rnn.ex_lengths _ _ _ _ 0%nat 0%nat
              ex_new_cell_sized ex_batch_valid ex_batch_late_valid
              eq_refl eq_refl H0 H1) as [Hf _].
  exact (Hf eq_refl eq_refl).
Defined.
